(** * Try-job integration of the Task Scheduler with Buildbucket

    A shallow embedding of [task_scheduler/go/tryjobs] (package [tryjobs],
    type [TryJobIntegrator]) and the properties of its lease, heartbeat,
    intake, start, completion and cleanup paths.

    Go objects of type [*types.Job] live in a heap and are passed around as
    pointers; the job database, the job cache and the record of calls made to
    the collaborators (Buildbucket V1 and V2, Pub/Sub, Gerrit, the task
    configuration cache) are threaded through a state monad whose computations
    either return or panic.  What the collaborators answer is a parameter of
    the development: every answer is a function of the request and of the
    calls made so far. *)

From Stdlib Require Import ZArith List String Ascii Bool Lia.
From stdpp Require Import base list strings pretty.

Open Scope Z_scope.

(** ** Strings and errors *)

(** [strings.Contains(s, substr)]. *)
Fixpoint Contains (s substr : string) : bool :=
  String.prefix substr s ||
  match s with
  | EmptyString => false
  | String _ s' => Contains s' substr
  end.

(** The double quote character, for the [%q] verb of [fmt.Sprintf]. *)
Definition dquote : string := String (ascii_of_nat 34) EmptyString.

(** The backslash character. *)
Definition backslash : string := String (ascii_of_nat 92) EmptyString.

(** A hexadecimal digit, in lower case. *)
Definition hex_digit (n : nat) : string :=
  String.substring n 1 "0123456789abcdef".

(** What [strconv.Quote] writes for one character of the ASCII range: a
    double quote and a backslash are escaped with a backslash, the control
    characters that have a name are written with it, the other control
    characters as [\x] and two hexadecimal digits, and a printable character
    as it is.  A byte above the ASCII range is kept, which is what
    [strconv.Quote] does inside a valid UTF-8 encoding of a printable
    character. *)
Definition quote_char (c : ascii) : string :=
  let n := nat_of_ascii c in
  if (n =? 34)%nat then backslash +:+ dquote
  else if (n =? 92)%nat then backslash +:+ backslash
  else if (n =? 7)%nat then backslash +:+ "a"
  else if (n =? 8)%nat then backslash +:+ "b"
  else if (n =? 12)%nat then backslash +:+ "f"
  else if (n =? 10)%nat then backslash +:+ "n"
  else if (n =? 13)%nat then backslash +:+ "r"
  else if (n =? 9)%nat then backslash +:+ "t"
  else if (n =? 11)%nat then backslash +:+ "v"
  else if (n <? 32)%nat || (n =? 127)%nat
  then backslash +:+ "x" +:+ hex_digit (n / 16) +:+ hex_digit (n mod 16)
  else String c EmptyString.

Fixpoint quote_chars (s : string) : string :=
  match s with
  | EmptyString => EmptyString
  | String c s' => quote_char c +:+ quote_chars s'
  end.

(** [%q] of a string: [strconv.Quote]. *)
Definition quoted (s : string) : string := dquote +:+ quote_chars s +:+ dquote.

(** A text of the ASCII range, for which [quoted] is [strconv.Quote] to the
    letter. *)
Definition ascii_text (s : string) : bool :=
  forallb (fun c => (nat_of_ascii c <? 128)%nat) (list_ascii_of_string s).

(** [%d] of an [int64]. *)
Definition fmt_d (z : Z) : string := pretty z.

(** A Go [error] value that is not nil: the text of the original error and
    the contexts that [skerr] has wrapped around it, the outermost first. *)
Record error := {
  err_context : list string;
  err_root : string
}.

(** [errors.New(msg)] and [fmt.Errorf(msg)]. *)
Definition errors_New (msg : string) : error :=
  {| err_context := []; err_root := msg |}.

(** [err.Error()]: the contexts, then the text of the original error (the
    call stack that [skerr] appends to the text is left out). *)
Definition Error (e : error) : string :=
  fold_right (fun ctx s => ctx +:+ ": " +:+ s) (err_root e) (err_context e).

Module skerr.
(** [skerr.Fmt(msg)]. *)
Definition Fmt (msg : string) : option error := Some (errors_New msg).

(** [skerr.Wrap(err)]: nil stays nil. *)
Definition Wrap (err : option error) : option error := err.

(** [skerr.Wrapf(err, ctx)]: nil stays nil; otherwise the context is put
    around the wrapped error. *)
Definition Wrapf (err : option error) (ctx : string) : option error :=
  match err with
  | None => None
  | Some e =>
      Some {| err_context := ctx :: err_context e; err_root := err_root e |}
  end.

(** [skerr.Unwrap(err)]: the original error. *)
Definition Unwrap (e : error) : error := errors_New (err_root e).
End skerr.

(** ** Constants of the package *)

Definition LEASE_BATCH_SIZE : nat := 200.
(** Durations are in nanoseconds, as [time.Duration]. *)
Definition second : Z := 1000000000.
Definition LEASE_DURATION : Z := 3600 * second.
Definition LEASE_DURATION_INITIAL : Z := 30 * 60 * second.
Definition CLEANUP_AGE_THRESHOLD : Z := 3 * 3600 * second.
Definition BUILDBUCKET_API_ERROR_REASON_COMPLETED : string := "BUILD_IS_COMPLETED".
Definition BUILDBUCKET_API_ERROR_REASON_INVALID_INPUT : string := "INVALID_INPUT".
Definition BUILDBUCKET_API_ERROR_REASON_LEASE_EXPIRED : string := "LEASE_EXPIRED".
Definition secondsToMicros : Z := 1000000.
Definition maxCancelReasonLen : nat := 1024.
Definition buildAlreadyStartedErr : string :=
  "has recorded another StartBuild with request id".
Definition buildAlreadyFinishedErr : string := "cannot update an ended build".
Definition buildbucketProject : string := "skia".

(** ** Data model: [types.Job] and the Buildbucket messages *)

Inductive JobStatus :=
| JOB_STATUS_REQUESTED
| JOB_STATUS_IN_PROGRESS
| JOB_STATUS_SUCCESS
| JOB_STATUS_FAILURE
| JOB_STATUS_MISHAP
| JOB_STATUS_CANCELED.

#[global] Instance JobStatus_eq_dec : EqDecision JobStatus.
Proof. solve_decision. Defined.

Record Patch := {
  Issue : string;
  PatchRepo : string;
  Patchset : string;
  Server : string
}.

Record RepoState := {
  RepoState_Patch : Patch;
  Repo : string;
  Revision : string
}.

#[global] Instance Patch_eq_dec : EqDecision Patch.
Proof. solve_decision. Defined.

#[global] Instance RepoState_eq_dec : EqDecision RepoState.
Proof. solve_decision. Defined.

(** A point in time ([time.Time]), in nanoseconds since the Unix epoch. *)
Definition time := Z.

(** The zero [time.Time] (January 1, year 1, UTC). *)
Definition time_zero : time := -62135596800 * second.

(** [map[string][]string], the task graph of a job. *)
Definition TaskDAG := list (string * list string).

(** The fields of [types.Job] that the package reads or writes.  [Tasks] only
    ever receives the empty map here. *)
Record Job := {
  BuildbucketBuildId : Z;
  BuildbucketLeaseKey : Z;
  BuildbucketPubSubTopic : string;
  BuildbucketToken : string;
  Created : time;
  Dependencies : TaskDAG;
  Finished : time;
  Id : string;
  IsForce : bool;
  Name : string;
  Requested : time;
  Job_RepoState : RepoState;
  Status : JobStatus;
  StatusDetails : string;
  Tasks : list (string * list string)
}.

Definition set_BuildbucketLeaseKey (v : Z) (j : Job) : Job :=
  {| BuildbucketBuildId := BuildbucketBuildId j; BuildbucketLeaseKey := v;
     BuildbucketPubSubTopic := BuildbucketPubSubTopic j;
     BuildbucketToken := BuildbucketToken j; Created := Created j;
     Dependencies := Dependencies j; Finished := Finished j; Id := Id j;
     IsForce := IsForce j; Name := Name j; Requested := Requested j;
     Job_RepoState := Job_RepoState j; Status := Status j;
     StatusDetails := StatusDetails j; Tasks := Tasks j |}.

Definition set_BuildbucketToken (v : string) (j : Job) : Job :=
  {| BuildbucketBuildId := BuildbucketBuildId j;
     BuildbucketLeaseKey := BuildbucketLeaseKey j;
     BuildbucketPubSubTopic := BuildbucketPubSubTopic j;
     BuildbucketToken := v; Created := Created j;
     Dependencies := Dependencies j; Finished := Finished j; Id := Id j;
     IsForce := IsForce j; Name := Name j; Requested := Requested j;
     Job_RepoState := Job_RepoState j; Status := Status j;
     StatusDetails := StatusDetails j; Tasks := Tasks j |}.

Definition set_Status (v : JobStatus) (j : Job) : Job :=
  {| BuildbucketBuildId := BuildbucketBuildId j;
     BuildbucketLeaseKey := BuildbucketLeaseKey j;
     BuildbucketPubSubTopic := BuildbucketPubSubTopic j;
     BuildbucketToken := BuildbucketToken j; Created := Created j;
     Dependencies := Dependencies j; Finished := Finished j; Id := Id j;
     IsForce := IsForce j; Name := Name j; Requested := Requested j;
     Job_RepoState := Job_RepoState j; Status := v;
     StatusDetails := StatusDetails j; Tasks := Tasks j |}.

Definition set_StatusDetails (v : string) (j : Job) : Job :=
  {| BuildbucketBuildId := BuildbucketBuildId j;
     BuildbucketLeaseKey := BuildbucketLeaseKey j;
     BuildbucketPubSubTopic := BuildbucketPubSubTopic j;
     BuildbucketToken := BuildbucketToken j; Created := Created j;
     Dependencies := Dependencies j; Finished := Finished j; Id := Id j;
     IsForce := IsForce j; Name := Name j; Requested := Requested j;
     Job_RepoState := Job_RepoState j; Status := Status j;
     StatusDetails := v; Tasks := Tasks j |}.

Definition set_Finished (v : time) (j : Job) : Job :=
  {| BuildbucketBuildId := BuildbucketBuildId j;
     BuildbucketLeaseKey := BuildbucketLeaseKey j;
     BuildbucketPubSubTopic := BuildbucketPubSubTopic j;
     BuildbucketToken := BuildbucketToken j; Created := Created j;
     Dependencies := Dependencies j; Finished := v; Id := Id j;
     IsForce := IsForce j; Name := Name j; Requested := Requested j;
     Job_RepoState := Job_RepoState j; Status := Status j;
     StatusDetails := StatusDetails j; Tasks := Tasks j |}.

Definition set_Requested (v : time) (j : Job) : Job :=
  {| BuildbucketBuildId := BuildbucketBuildId j;
     BuildbucketLeaseKey := BuildbucketLeaseKey j;
     BuildbucketPubSubTopic := BuildbucketPubSubTopic j;
     BuildbucketToken := BuildbucketToken j; Created := Created j;
     Dependencies := Dependencies j; Finished := Finished j; Id := Id j;
     IsForce := IsForce j; Name := Name j; Requested := v;
     Job_RepoState := Job_RepoState j; Status := Status j;
     StatusDetails := StatusDetails j; Tasks := Tasks j |}.

Definition set_Id (v : string) (j : Job) : Job :=
  {| BuildbucketBuildId := BuildbucketBuildId j;
     BuildbucketLeaseKey := BuildbucketLeaseKey j;
     BuildbucketPubSubTopic := BuildbucketPubSubTopic j;
     BuildbucketToken := BuildbucketToken j; Created := Created j;
     Dependencies := Dependencies j; Finished := Finished j; Id := v;
     IsForce := IsForce j; Name := Name j; Requested := Requested j;
     Job_RepoState := Job_RepoState j; Status := Status j;
     StatusDetails := StatusDetails j; Tasks := Tasks j |}.

Definition set_Revision (v : string) (j : Job) : Job :=
  {| BuildbucketBuildId := BuildbucketBuildId j;
     BuildbucketLeaseKey := BuildbucketLeaseKey j;
     BuildbucketPubSubTopic := BuildbucketPubSubTopic j;
     BuildbucketToken := BuildbucketToken j; Created := Created j;
     Dependencies := Dependencies j; Finished := Finished j; Id := Id j;
     IsForce := IsForce j; Name := Name j; Requested := Requested j;
     Job_RepoState :=
       {| RepoState_Patch := RepoState_Patch (Job_RepoState j);
          Repo := Repo (Job_RepoState j); Revision := v |};
     Status := Status j; StatusDetails := StatusDetails j; Tasks := Tasks j |}.

Definition set_Dependencies (v : TaskDAG) (j : Job) : Job :=
  {| BuildbucketBuildId := BuildbucketBuildId j;
     BuildbucketLeaseKey := BuildbucketLeaseKey j;
     BuildbucketPubSubTopic := BuildbucketPubSubTopic j;
     BuildbucketToken := BuildbucketToken j; Created := Created j;
     Dependencies := v; Finished := Finished j; Id := Id j;
     IsForce := IsForce j; Name := Name j; Requested := Requested j;
     Job_RepoState := Job_RepoState j; Status := Status j;
     StatusDetails := StatusDetails j; Tasks := Tasks j |}.

Definition set_Tasks (v : list (string * list string)) (j : Job) : Job :=
  {| BuildbucketBuildId := BuildbucketBuildId j;
     BuildbucketLeaseKey := BuildbucketLeaseKey j;
     BuildbucketPubSubTopic := BuildbucketPubSubTopic j;
     BuildbucketToken := BuildbucketToken j; Created := Created j;
     Dependencies := Dependencies j; Finished := Finished j; Id := Id j;
     IsForce := IsForce j; Name := Name j; Requested := Requested j;
     Job_RepoState := Job_RepoState j; Status := Status j;
     StatusDetails := StatusDetails j; Tasks := v |}.

Definition set_IsForce (v : bool) (j : Job) : Job :=
  {| BuildbucketBuildId := BuildbucketBuildId j;
     BuildbucketLeaseKey := BuildbucketLeaseKey j;
     BuildbucketPubSubTopic := BuildbucketPubSubTopic j;
     BuildbucketToken := BuildbucketToken j; Created := Created j;
     Dependencies := Dependencies j; Finished := Finished j; Id := Id j;
     IsForce := v; Name := Name j; Requested := Requested j;
     Job_RepoState := Job_RepoState j; Status := Status j;
     StatusDetails := StatusDetails j; Tasks := Tasks j |}.

(** Modelled from the spec: [Job.Done] is declared in package [types], outside
    the files at hand.  REQUESTED and IN_PROGRESS are non-terminal; all other
    statuses are terminal. *)
Definition Done (j : Job) : bool :=
  match Status j with
  | JOB_STATUS_REQUESTED | JOB_STATUS_IN_PROGRESS => false
  | _ => true
  end.

(** [isBBv2] returns true iff the Job was triggered using Buildbucket V2. *)
Definition isBBv2 (j : Job) : bool :=
  negb (String.eqb (BuildbucketPubSubTopic j) "").

(** [skipRepoState] determines whether we should skip try jobs for this
    RepoState, eg. problematic CLs. *)
Definition skipRepoState (rs : RepoState) : bool :=
  if String.eqb (Issue (RepoState_Patch rs)) "527502"
     && String.eqb (Patchset (RepoState_Patch rs)) "1"
  then true
  else false.

(** [buildbucket_api.LegacyApiErrorMessage]. *)
Record LegacyApiErrorMessage := {
  Message : string;
  Reason : string
}.

(** One entry of [LegacyApiHeartbeatBatchRequestMessage.Heartbeats]. *)
Record OneHeartbeat := {
  hb_BuildId : Z;
  hb_LeaseKey : Z;
  hb_LeaseExpirationTs : Z
}.

(** One entry of [LegacyApiHeartbeatBatchResponseMessage.Results]; only its
    [Error] is read. *)
Record OneHeartbeatResult := {
  hbr_Error : option LegacyApiErrorMessage
}.

(** The response of the legacy [Lease] call: [Build] may be nil, and only its
    [LeaseKey] is read. *)
Record LeaseResponse := {
  lr_Build : option Z;
  lr_Error : option LegacyApiErrorMessage
}.

(** [buildbucketpb.Status], as far as the package tells the values apart. *)
Inductive BuildStatus :=
| Status_SCHEDULED
| Status_STARTED
| Status_ENDED (name : string).

Record GerritChange := {
  gc_Host : string;
  gc_Project : string;
  gc_Change : Z;
  gc_Patchset : Z
}.

Record BuilderID := {
  Project : string;
  Bucket : string;
  Builder : string
}.

(** [timestamppb.Timestamp]. *)
Record Timestamp := {
  Seconds : Z;
  Nanos : Z
}.

(** [buildbucketpb.Build]; [Input], [Builder] and [CreateTime] are pointers
    and may be nil. *)
Record Build := {
  b_Id : Z;
  b_Status : BuildStatus;
  b_Input : option (list GerritChange);
  b_CreateTime : option Timestamp;
  b_Builder : option BuilderID
}.

(** The answer of a remote call or of the database: a reply, or a Go error
    with a nil reply. *)
Inductive rpc (A : Type) :=
| Reply (a : A)
| Failed (e : error).
Arguments Reply {A} a.
Arguments Failed {A} e.

(** ** The collaborators and the state of the process *)

(** A [*types.Job]: an address in the heap of job objects. *)
Definition ptr := nat.

(** The calls made to the collaborators, in the order they were made.  A
    database event records the call, whether or not it succeeded. *)
Inductive Event :=
| Clock_Now
| Time_Now
| BB_HeartbeatBatch (heartbeats : list OneHeartbeat)
| BB_Lease (id leaseExpirationTs : Z)
| BB_Cancel (id : Z) (message : string)
| BB_Start (id leaseKey : Z) (url : string)
| BB_Succeed (id leaseKey : Z)
| BB_Fail (id leaseKey : Z) (failureReason : string)
| BB2_GetBuild (id : Z)
| BB2_StartBuild (id : Z) (jobId token : string)
| BB2_UpdateBuild (id : Z) (st : JobStatus) (summary token : string)
| BB2_CancelBuild (id : Z) (reason : string)
| BB2_Search (bucket : string) (endTime : time)
| Pubsub_Publish (project topic : string) (buildId : Z)
| DB_GetJobById (id : string)
| DB_SearchJobs (buildId : Z) (timeStart timeEnd : time)
| DB_PutJob (j : Job)
| DB_PutJobsInChunks (js : list Job)
| JCache_Update
| Gerrit_GetIssueProperties (issue : Z)
| Chr_GetOrCacheRepoState (rs : RepoState)
| TaskCfgCache_Get (rs : RepoState).

(** A [specs.TasksCfg]: for the name of a job, whether [cfg.Jobs] has a spec
    for it, and what [spec.GetTaskSpecDAG(cfg)] gives for that spec. *)
Definition TasksCfg := string -> option (rpc TaskDAG).

(** A [repograph.Graph]: [Get] resolves a branch name or a commit hash to the
    hash of a commit, or to nil. *)
Definition Graph := string -> option string.

(** What the collaborators answer.  Each answer depends on the request and on
    the calls made before it. *)
Record Env := {
  now_Now : list Event -> time;
  time_Now : list Event -> time;
  bb_HeartbeatBatch :
    list Event -> list OneHeartbeat -> rpc (list OneHeartbeatResult);
  bb_Lease : list Event -> Z -> Z -> rpc LeaseResponse;
  bb_Cancel : list Event -> Z -> string -> rpc (option LegacyApiErrorMessage);
  bb_Start :
    list Event -> Z -> Z -> string -> rpc (option LegacyApiErrorMessage);
  bb_Succeed : list Event -> Z -> Z -> rpc (option LegacyApiErrorMessage);
  bb_Fail :
    list Event -> Z -> Z -> string -> rpc (option LegacyApiErrorMessage);
  bb2_GetBuild : list Event -> Z -> rpc Build;
  bb2_StartBuild : list Event -> Z -> string -> string -> rpc string;
  bb2_UpdateBuild :
    list Event -> Z -> JobStatus -> string -> string -> option error;
  bb2_CancelBuild : list Event -> Z -> string -> option error;
  bb2_Search : list Event -> string -> time -> rpc (list Build);
  pubsub_Project : string;
  pubsub_Publish : list Event -> string -> string -> Z -> option error;
  db_GetJobById_err : list Event -> string -> option error;
  db_SearchJobs_err : list Event -> Z -> option error;
  db_PutJob_err : list Event -> Job -> option error;
  db_PutJobsInChunks_err : list Event -> list Job -> option error;
  db_newId : list Event -> string;
  jCache_Update_err : list Event -> option error;
  jCache_GetJobsByRepoState_err : string -> RepoState -> option error;
  gerrit_GetIssueProperties : list Event -> Z -> rpc string;
  chr_GetOrCacheRepoState : list Event -> RepoState -> option error;
  taskCfgCache_Get :
    list Event -> RepoState -> rpc (TasksCfg * option error)
}.

(** Functions and constants of other packages of the repository that the
    package calls and whose source is not at hand: [util.Truncate],
    [Job.URL], [firestore.FixTimestamp], [firestore.TS_RESOLUTION],
    [RepoState.Valid], [RepoState.IsTryJob], [RepoState.String], the text
    that [%+v] gives for the input of a build, whether [json.Marshal] and
    [proto.Marshal] of a job fail, the text that [fmt.Errorf(msg)] makes of
    a message given as its format, with no arguments (the message itself
    when it has no percent sign), and the text that [%v] gives for a
    protobuf timestamp. *)
Record Lib := {
  Truncate : string -> nat -> string;
  URL : Job -> string -> string;
  FixTimestamp : time -> time;
  TS_RESOLUTION : Z;
  Valid : RepoState -> bool;
  IsTryJob : RepoState -> bool;
  RepoState_String : RepoState -> string;
  Input_String : list GerritChange -> string;
  json_Marshal_err : Job -> option error;
  proto_Marshal_err : Job -> option error;
  Errorf_text : string -> string;
  Timestamp_String : Timestamp -> string
}.

(** The fields of [TryJobIntegrator] that are plain data. *)
Record TryJobIntegrator := {
  buildbucketBucket : string;
  buildbucketTarget : string;
  host : string;
  projectRepoMapping : string -> option string;
  rm : string -> option Graph
}.

(** The state of the process: the job objects, the rows of the job database,
    the jobs held by the job cache, and the calls made so far. *)
Record World := {
  heap : list Job;
  db : list Job;
  jCache : list ptr;
  log : list Event
}.

Definition set_heap (h : list Job) (w : World) : World :=
  {| heap := h; db := db w; jCache := jCache w; log := log w |}.
Definition set_db (d : list Job) (w : World) : World :=
  {| heap := heap w; db := d; jCache := jCache w; log := log w |}.
Definition set_jCache (c : list ptr) (w : World) : World :=
  {| heap := heap w; db := db w; jCache := c; log := log w |}.
Definition set_log (l : list Event) (w : World) : World :=
  {| heap := heap w; db := db w; jCache := jCache w; log := l |}.

(** A computation returns a value and a state, or panics (a nil pointer
    dereference or an index out of range) in some state. *)
Inductive Outcome (A : Type) :=
| Ret (a : A) (w : World)
| Panic (w : World).
Arguments Ret {A} a w.
Arguments Panic {A} w.

Definition M (A : Type) : Type := World -> Outcome A.

#[global] Instance M_ret : MRet M := fun A a w => Ret a w.
#[global] Instance M_bind : MBind M := fun A B f m w =>
  match m w with
  | Ret a w' => f a w'
  | Panic w' => Panic w'
  end.

(** Go's runtime panic. *)
Definition panic {A : Type} : M A := fun w => Panic w.

(** Reads from and writes to the state. *)
Definition gets {A : Type} (f : World -> A) : M A := fun w => Ret (f w) w.
Definition update (f : World -> World) : M unit := fun w => Ret tt (f w).

(** The calls made so far. *)
Definition history : M (list Event) := gets log.

(** Makes a call: the call is recorded and answered from the calls before
    it. *)
Definition call {A : Type} (ev : Event) (answer : list Event -> A) : M A :=
  fun w => Ret (answer (log w)) (set_log (log w ++ [ev]) w).

(** Reads the object behind [p]; panics on a dangling pointer. *)
Definition load (p : ptr) : M Job := fun w =>
  match heap w !! p with
  | Some j => Ret j w
  | None => Panic w
  end.

(** Updates the object behind [p] in place. *)
Definition modify (p : ptr) (f : Job -> Job) : M unit := fun w =>
  match heap w !! p with
  | Some j => Ret tt (set_heap (<[p := f j]> (heap w)) w)
  | None => Panic w
  end.

(** [&types.Job{...}]. *)
Definition alloc (j : Job) : M ptr := fun w =>
  Ret (length (heap w)) (set_heap (heap w ++ [j]) w).

(** Reads through a pointer that may be nil. *)
Definition deref {A : Type} (o : option A) : M A :=
  match o with
  | Some a => mret a
  | None => panic
  end.

(** [p] for each of [ps], in order. *)
Fixpoint loadAll (ps : list ptr) : M (list Job) :=
  match ps with
  | [] => mret []
  | p :: ps' => j ← load p; js ← loadAll ps'; mret (j :: js)
  end.

(** ** The job database and the job cache *)

(** Modelled from the spec: the job database is a collaborator whose source is
    not at hand.  It offers point lookups, a search by external build id and
    time window, and writes that are atomic per job. *)
Module jobdb.
(** Modelled from the spec: a point lookup of the job database, the row with
    the given id. *)
Definition find (id : string) (rows : list Job) : option Job :=
  List.find (fun j => String.eqb (Id j) id) rows.

(** Modelled from the spec: a write of the job database, atomic per job.  A
    row with the same id is replaced, a new one is appended. *)
Fixpoint upsert (j : Job) (rows : list Job) : list Job :=
  match rows with
  | [] => [j]
  | r :: rows' =>
      if String.eqb (Id r) (Id j) then j :: rows' else r :: upsert j rows'
  end.

(** Modelled from the spec: the search of the job database by external build
    id and time window. *)
Definition search (buildId : Z) (timeStart timeEnd : time)
    (rows : list Job) : list Job :=
  List.filter (fun j => (BuildbucketBuildId j =? buildId)
                        && (timeStart <=? Created j)
                        && (Created j <? timeEnd)) rows.
End jobdb.

(** ** Helpers of the standard library of Go *)

(** A 64-bit signed integer wraps around. *)
Definition int64 (z : Z) : Z := (z + 2 ^ 63) mod 2 ^ 64 - 2 ^ 63.

(** [t.Unix()]: the seconds since the Unix epoch, rounded down. *)
Definition Unix (n : time) : Z := n / second.

(** [%v] of a slice of errors. *)
Definition fmt_errs (errs : list error) : string :=
  "[" +:+ String.concat " " (Error <$> errs) +:+ "]".

Definition newline : string := String (ascii_of_nat 10) EmptyString.
Definition tab : string := String (ascii_of_nat 9) EmptyString.

(** The text of a [multierror.Error], as the list format of the package
    gives it: a heading with the number of errors, then one line per
    error. *)
Definition multierror_text (errs : list error) : string :=
  let points := (fun e => "* " +:+ Error e) <$> errs in
  match errs with
  | [_] => "1 error occurred:"
  | _ => fmt_d (Z.of_nat (length errs)) +:+ " errors occurred:"
  end
  +:+ newline +:+ tab +:+ String.concat (newline +:+ tab) points
  +:+ newline +:+ newline.

Definition is_digit (c : ascii) : bool :=
  let n := nat_of_ascii c in ((48 <=? n) && (n <=? 57))%nat.

Fixpoint parse_digits (s : string) (acc : Z) : option Z :=
  match s with
  | EmptyString => Some acc
  | String c s' =>
      if is_digit c
      then parse_digits s' (10 * acc + Z.of_nat (nat_of_ascii c - 48))
      else None
  end.

(** The number that a decimal numeral stands for: an optional sign, then
    decimal digits; nil when the text is not of this form. *)
Definition parse_decimal (s : string) : option Z :=
  let unsigned (d : string) : option Z :=
    match d with
    | EmptyString => None
    | _ => parse_digits d 0
    end in
  match s with
  | String c s' =>
      if Ascii.eqb c "+" then unsigned s'
      else if Ascii.eqb c "-" then Z.opp <$> unsigned s'
      else unsigned s
  | EmptyString => None
  end.

(** [strconv.ParseInt(s, 10, 64)]: an optional sign, then decimal digits, and
    a value that fits 64 bits; nil stands for an error. *)
Definition ParseInt (s : string) : option Z :=
  match parse_decimal s with
  | Some z => if (- 2 ^ 63 <=? z) && (z <? 2 ^ 63) then Some z else None
  | None => None
  end.

(** The text of the error of [strconv.ParseInt(s, 10, 64)]. *)
Definition ParseInt_error (s : string) : string :=
  "strconv.ParseInt: parsing " +:+ quoted s +:+ ": "
  +:+ match parse_decimal s with
      | Some _ => "value out of range"
      | None => "invalid syntax"
      end.

(** [strings.HasPrefix] and what follows the prefix. *)
Fixpoint strip_prefix (pre s : string) : option string :=
  match pre, s with
  | EmptyString, _ => Some s
  | String a pre', String b s' =>
      if Ascii.eqb a b then strip_prefix pre' s' else None
  | String _ _, EmptyString => None
  end.

(** The character class [[a-zA-Z_-]] of [pubsubRegex]. *)
Definition topic_char (c : ascii) : bool :=
  let n := nat_of_ascii c in
  (((65 <=? n) && (n <=? 90)) || ((97 <=? n) && (n <=? 122))
   || (n =? 95) || (n =? 45))%nat.

(** The longest prefix made of [topic_char]s, and the rest. *)
Fixpoint span_topic (s : string) : string * string :=
  match s with
  | EmptyString => (EmptyString, EmptyString)
  | String c s' =>
      if topic_char c
      then let '(a, b) := span_topic s' in (String c a, b)
      else (EmptyString, s)
  end.

(** [pubsubRegex.FindStringSubmatch(s)] for the expression
    [^projects\/([a-zA-Z_-]+)\/topics\/([a-zA-Z_-]+)$]: the two groups of a
    match. *)
Definition pubsubRegex (s : string) : option (string * string) :=
  match strip_prefix "projects/" s with
  | None => None
  | Some r1 =>
      let '(project, r2) := span_topic r1 in
      match project, strip_prefix "/topics/" r2 with
      | String _ _, Some r3 =>
          match span_topic r3 with
          | (String c tp, EmptyString) => Some (project, String c tp)
          | _ => None
          end
      | _, _ => None
      end
  end.

(** [ptypes.Timestamp(ts)]: the time of a protobuf timestamp, or an error for
    a nil timestamp or one outside years 1 to 9999. *)
Definition ptypes_Timestamp (L : Lib) (ts : option Timestamp) : rpc time :=
  match ts with
  | None => Failed (errors_New "timestamp: nil Timestamp")
  | Some ts =>
      if Seconds ts <? -62135596800
      then Failed (errors_New ("timestamp: " +:+ Timestamp_String L ts
                               +:+ " before 0001-01-01"))
      else if 253402300800 <=? Seconds ts
      then Failed (errors_New ("timestamp: " +:+ Timestamp_String L ts
                               +:+ " after 10000-01-01"))
      else if (Nanos ts <? 0) || (1000000000 <=? Nanos ts)
      then Failed (errors_New ("timestamp: " +:+ Timestamp_String L ts
                               +:+ ": nanos not in range [0, 1e9)"))
      else Reply (Seconds ts * second + Nanos ts)
  end.

(** [%s] of a [buildbucketpb.Status]. *)
Definition BuildStatus_String (s : BuildStatus) : string :=
  match s with
  | Status_SCHEDULED => "SCHEDULED"
  | Status_STARTED => "STARTED"
  | Status_ENDED name => name
  end.

(** [isBuildAlreadyStartedError] and [isBuildAlreadyFinishedError]. *)
Definition isBuildAlreadyStartedError (err : option error) : bool :=
  match err with
  | Some e => Contains (Error e) buildAlreadyStartedErr
  | None => false
  end.

Definition isBuildAlreadyFinishedError (err : option error) : bool :=
  match err with
  | Some e => Contains (Error e) buildAlreadyFinishedErr
  | None => false
  end.

(** [x != nil]. *)
Definition notnil {A : Type} (o : option A) : bool :=
  match o with
  | Some _ => true
  | None => false
  end.

(** [if err != nil { errs = append(errs, err) }]. *)
Definition append_error (errs : list error) (err : option error) : list error :=
  match err with
  | Some e => errs ++ [e]
  | None => errs
  end.

(** "job ID (build N)", as the messages of the package name a job. *)
Definition job_build (j : Job) : string :=
  "job " +:+ Id j +:+ " (build " +:+ fmt_d (BuildbucketBuildId j) +:+ ")".

Section Integrator.

Variable E : Env.
Variable L : Lib.
Variable t : TryJobIntegrator.

(** [now.Now(ctx)]: the clock of the context. *)
Definition Now : M time := call Clock_Now (now_Now E).

(** [time.Now()]: the clock of the machine, whatever the context says. *)
Definition TimeNow : M time := call Time_Now (time_Now E).

(** Modelled from the spec: [t.db.GetJobById(ctx, id)] of the job database,
    whose source is not at hand: the row, nil if there is none, or an
    error. *)
Definition db_GetJobById (id : string) : M (option Job * option error) :=
  err ← call (DB_GetJobById id) (fun h => db_GetJobById_err E h id);
  match err with
  | Some e => mret (None, Some e)
  | None => rows ← gets db; mret (jobdb.find id rows, None)
  end.

(** Modelled from the spec: [t.db.SearchJobs(ctx, params)] of the job
    database, by build id and time window. *)
Definition db_SearchJobs (buildId : Z) (timeStart timeEnd : time)
    : M (list Job * option error) :=
  err ← call (DB_SearchJobs buildId timeStart timeEnd)
             (fun h => db_SearchJobs_err E h buildId);
  match err with
  | Some e => mret ([], Some e)
  | None =>
      rows ← gets db;
      mret (jobdb.search buildId timeStart timeEnd rows, None)
  end.

(** Modelled from the spec: [t.db.PutJob(ctx, j)] of the job database.  A job
    without an id is given one, in the object and in the row. *)
Definition db_PutJob (p : ptr) : M (option error) :=
  j ← load p;
  err ← call (DB_PutJob j) (fun h => db_PutJob_err E h j);
  match err with
  | Some e => mret (Some e)
  | None =>
      h ← history;
      (if String.eqb (Id j) "" then modify p (set_Id (db_newId E h))
       else mret tt);;
      j' ← load p;
      update (fun w => set_db (jobdb.upsert j' (db w)) w);;
      mret None
  end.

(** Modelled from the spec: [t.db.PutJobsInChunks(ctx, jobs)] of the job
    database; the jobs written here all have an id. *)
Definition db_PutJobsInChunks (ps : list ptr) : M (option error) :=
  js ← loadAll ps;
  err ← call (DB_PutJobsInChunks js) (fun h => db_PutJobsInChunks_err E h js);
  match err with
  | Some e => mret (Some e)
  | None =>
      update (fun w =>
        set_db (fold_left (fun d j => jobdb.upsert j d) js (db w)) w);;
      mret None
  end.

(** Modelled from the spec: the job cache is a collaborator whose source is
    not at hand; an in-memory mirror with [update()] (resync from the
    database), [getAll()], [add(jobs)] and [getByRepoState(name, repoState)].
    A resync loads every row into a new object. *)
Fixpoint allocAll (js : list Job) : M (list ptr) :=
  match js with
  | [] => mret []
  | j :: js' => p ← alloc j; ps ← allocAll js'; mret (p :: ps)
  end.

(** Modelled from the spec: [t.jCache.Update(ctx)], the resync of the job
    cache from the database. *)
Definition jCache_Update : M (option error) :=
  err ← call JCache_Update (jCache_Update_err E);
  match err with
  | Some e => mret (Some e)
  | None =>
      rows ← gets db;
      ps ← allocAll rows;
      update (set_jCache ps);;
      mret None
  end.

(** Modelled from the spec: [t.jCache.GetAllCachedJobs()]. *)
Definition jCache_GetAllCachedJobs : M (list ptr) := gets jCache.

(** Modelled from the spec: [t.jCache.AddJobs(jobs)]; a cached job with the
    same id is replaced. *)
Definition jCache_AddJobs (ps : list ptr) : M unit :=
  update (fun w =>
    let ids := omap (fun p => Id <$> heap w !! p) ps in
    let keep p :=
      match heap w !! p with
      | Some j => negb (existsb (String.eqb (Id j)) ids)
      | None => false
      end in
    set_jCache (List.filter keep (jCache w) ++ ps) w).

(** Modelled from the spec: [t.jCache.GetJobsByRepoState(name, rs)]. *)
Definition jCache_GetJobsByRepoState (name : string) (rs : RepoState)
    : M (list ptr * option error) :=
  match jCache_GetJobsByRepoState_err E name rs with
  | Some e => mret ([], Some e)
  | None =>
      h ← gets heap;
      c ← gets jCache;
      let same p :=
        match h !! p with
        | Some j => String.eqb (Name j) name
                    && bool_decide (Job_RepoState j = rs)
        | None => false
        end in
      mret (List.filter same c, None)
  end.

(** ** The package

    A function that only reads a job takes the job; a function that writes to
    it takes the pointer. *)

(** [getActiveTryJobs] returns the active (started but not yet marked as
    finished in Buildbucket) tryjobs. *)
Fixpoint getActiveTryJobs_loop (jobs rv : list ptr) : M (list ptr) :=
  match jobs with
  | [] => mret rv
  | job :: jobs' =>
      j ← load job;
      if (negb (BuildbucketLeaseKey j =? 0)
          || negb (String.eqb (BuildbucketToken j) ""))
         && negb (bool_decide (Status j = JOB_STATUS_REQUESTED))
      then getActiveTryJobs_loop jobs' (rv ++ [job])
      else getActiveTryJobs_loop jobs' rv
  end.

Definition getActiveTryJobs : M (list ptr * option error) :=
  err ← jCache_Update;
  match err with
  | Some e => mret ([], Some e)
  | None =>
      jobs ← jCache_GetAllCachedJobs;
      rv ← getActiveTryJobs_loop jobs [];
      mret (rv, None)
  end.

(** [sendPubSub] sends an update to Buildbucket via Pub/Sub for a single
    Job. *)
Definition sendPubSub (job : Job) : M (option error) :=
  match proto_Marshal_err L job with
  | Some e =>
      mret (skerr.Wrapf (Some e)
              ("failed to encode BuildTaskUpdate for " +:+ job_build job))
  | None =>
      let '(project, topic) :=
        match pubsubRegex (BuildbucketPubSubTopic job) with
        | Some (m1, m2) => (m1, m2)
        | None => (pubsub_Project E, BuildbucketPubSubTopic job)
        end in
      err ← call (Pubsub_Publish project topic (BuildbucketBuildId job))
                 (fun h => pubsub_Publish E h project topic
                             (BuildbucketBuildId job));
      mret (skerr.Wrapf err
              ("failed to send pubsub update for " +:+ job_build job))
  end.

(** [sendPubsubUpdates] sends updates to Buildbucket via Pub/Sub for
    in-progress Jobs.  The goroutines of the group are run one after the
    other, in the order of the jobs. *)
Fixpoint sendPubsubUpdates_loop (jobs : list ptr) (errs : list error)
    : M (list error) :=
  match jobs with
  | [] => mret errs
  | job :: jobs' =>
      j ← load job;
      err ← sendPubSub j;
      sendPubsubUpdates_loop jobs' (append_error errs err)
  end.

Definition sendPubsubUpdates (jobs : list ptr) : M (option error) :=
  errs ← sendPubsubUpdates_loop jobs [];
  match errs with
  | [] => mret None
  | _ => mret (Some (errors_New (multierror_text errs)))
  end.

(** [getRepo] returns the repo information associated with the given URL. *)
Definition getRepo (repoUrl : string) : option Graph * option error :=
  match rm t repoUrl with
  | None => (None, skerr.Fmt ("unknown repo " +:+ quoted repoUrl))
  | Some r => (Some r, None)
  end.

(** [getRevision] obtains the branch name from Gerrit, then retrieves and
    returns the current commit at the head of that branch. *)
Definition getRevision (repo : Graph) (issue : string)
    : M (string * option error) :=
  match ParseInt issue with
  | None =>
      mret ("",
            skerr.Wrapf
              (Some (errors_New (ParseInt_error issue)))
              "failed to parse issue number")
  | Some issueNum =>
      changeInfo ← call (Gerrit_GetIssueProperties issueNum)
                        (fun h => gerrit_GetIssueProperties E h issueNum);
      match changeInfo with
      | Failed e => mret ("", skerr.Wrapf (Some e) "failed to get ChangeInfo")
      | Reply branch =>
          match repo branch with
          | None => mret ("", skerr.Fmt ("Unknown branch " +:+ branch))
          | Some hash => mret (hash, None)
          end
      end
  end.

(** Indexing a slice panics when the index is out of range. *)
Definition at_index {A : Type} (l : list A) (i : nat) : M A := deref (l !! i).

Fixpoint localCancelJobs_loop (idx : nat) (jobs : list ptr)
    (reasons : list string) : M unit :=
  match jobs with
  | [] => mret tt
  | j :: jobs' =>
      reason ← at_index reasons idx;
      modify j (set_BuildbucketLeaseKey 0);;
      modify j (set_Status JOB_STATUS_CANCELED);;
      modify j (set_StatusDetails reason);;
      n ← Now;
      modify j (set_Finished n);;
      localCancelJobs_loop (S idx) jobs' reasons
  end.

Definition localCancelJobs (jobs : list ptr) (reasons : list string)
    : M (option error) :=
  if negb (length jobs =? length reasons)%nat
  then mret (skerr.Fmt "expected jobs and reasons to have the same length")
  else
    localCancelJobs_loop 0 jobs reasons;;
    err ← db_PutJobsInChunks jobs;
    match err with
    | Some e => mret (Some e)
    | None => jCache_AddJobs jobs;; mret None
    end.

Definition remoteCancelV1Build (buildId : Z) (msg : string)
    : M (option error) :=
  let message := Truncate L msg maxCancelReasonLen in
  resp ← call (BB_Cancel buildId message)
              (fun h => bb_Cancel E h buildId message);
  match resp with
  | Failed e => mret (Some e)
  | Reply (Some respError) =>
      mret (Some (errors_New (Errorf_text L (Message respError))))
  | Reply None => mret None
  end.

Definition tryLeaseV1Build (id : Z)
    : M (Z * option LegacyApiErrorMessage * option error) :=
  n ← Now;
  let expiration := int64 (Unix (n + LEASE_DURATION_INITIAL) * secondsToMicros) in
  resp ← call (BB_Lease id expiration) (fun h => bb_Lease E h id expiration);
  match resp with
  | Failed e =>
      mret (0, None,
            skerr.Wrapf (Some e)
              ("failed request to lease buildbucket build " +:+ fmt_d id))
  | Reply r =>
      let leaseKey := match lr_Build r with Some k => k | None => 0 end in
      mret (leaseKey, lr_Error r, None)
  end.

(** [sort.Sort(heartbeatJobSlice(jobs))]: the jobs by [BuildbucketBuildId].
    Go's sort is not stable; this one keeps jobs with the same build id in
    their order. *)
Fixpoint insert_by_id (x : ptr * Z) (l : list (ptr * Z)) : list (ptr * Z) :=
  match l with
  | [] => [x]
  | y :: l' => if snd y <=? snd x then y :: insert_by_id x l' else x :: l
  end.

Definition sort_by_id (l : list (ptr * Z)) : list (ptr * Z) :=
  fold_left (fun acc x => insert_by_id x acc) l [].

Definition sortJobs (jobs : list ptr) : M (list ptr) :=
  js ← loadAll jobs;
  mret (fst <$> sort_by_id (zip jobs (BuildbucketBuildId <$> js))).

(** The loop of [send] over [resp.Results]. *)
Fixpoint send_results (i : nat) (results : list OneHeartbeatResult)
    (jobs retryLeaseJobs cancelJobs : list ptr) (cancelReasons : list string)
    : M (list ptr * list ptr * list string) :=
  match results with
  | [] => mret (retryLeaseJobs, cancelJobs, cancelReasons)
  | result :: results' =>
      match hbr_Error result with
      | Some resultError =>
          if String.eqb (Reason resultError)
               BUILDBUCKET_API_ERROR_REASON_COMPLETED
          then
            send_results (S i) results' jobs retryLeaseJobs cancelJobs
              cancelReasons
          else if String.eqb (Reason resultError)
                    BUILDBUCKET_API_ERROR_REASON_LEASE_EXPIRED
          then
            job ← at_index jobs i;
            send_results (S i) results' jobs (retryLeaseJobs ++ [job])
              cancelJobs cancelReasons
          else
            job ← at_index jobs i;
            send_results (S i) results' jobs retryLeaseJobs
              (cancelJobs ++ [job])
              (cancelReasons
                 ++ ["Buildbucket rejected heartbeat with: "
                     +:+ Reason resultError])
      | None =>
          send_results (S i) results' jobs retryLeaseJobs cancelJobs
            cancelReasons
      end
  end.

(** The loop of [send] over [retryLeaseJobs]. *)
Fixpoint send_retry (retryLeaseJobs cancelJobs : list ptr)
    (cancelReasons : list string) (cancelBuilds : list Z)
    : M (list ptr * list string * list Z) :=
  match retryLeaseJobs with
  | [] => mret (cancelJobs, cancelReasons, cancelBuilds)
  | job :: rest =>
      j ← load job;
      '(leaseKey, bbError, err) ← tryLeaseV1Build (BuildbucketBuildId j);
      if notnil err && notnil bbError
      then
        let errMsg :=
          match err, bbError with
          | Some e, _ => Error e
          | None, Some b => Message b
          | None, None => ""
          end in
        send_retry rest (cancelJobs ++ [job])
          (cancelReasons
             ++ ["Buildbucket rejected heartbeat and failed to re-lease with: "
                 +:+ errMsg])
          (cancelBuilds ++ [BuildbucketBuildId j])
      else
        modify job (set_BuildbucketLeaseKey leaseKey);;
        send_retry rest cancelJobs cancelReasons cancelBuilds
  end.

(** The loop of [send] over [cancelBuilds]. *)
Fixpoint send_cancel (cancelBuilds : list Z) (errs : list error)
    : M (list error) :=
  match cancelBuilds with
  | [] => mret errs
  | id :: rest =>
      err ← remoteCancelV1Build id "failed to renew lease";
      send_cancel rest
        (append_error errs
           (skerr.Wrapf err ("failed to cancel build " +:+ fmt_d id)))
  end.

(** The closure [send] of [sendHeartbeats]: one batch of heartbeats.  The
    errors collected so far go in and come out. *)
Definition send (expiration : Z) (jobs : list ptr) (errs : list error)
    : M (list error) :=
  js ← loadAll jobs;
  let heartbeats :=
    (fun j => {| hb_BuildId := BuildbucketBuildId j;
                 hb_LeaseKey := BuildbucketLeaseKey j;
                 hb_LeaseExpirationTs := expiration |}) <$> js in
  resp ← call (BB_HeartbeatBatch heartbeats)
              (fun h => bb_HeartbeatBatch E h heartbeats);
  match resp with
  | Failed e =>
      mret (append_error errs
              (skerr.Wrapf (Some e) "failed to send heartbeat request"))
  | Reply results =>
      if negb (length results =? length jobs)%nat
      then
        mret (append_error errs
                (skerr.Fmt ("Heartbeat result has incorrect number of jobs ("
                            +:+ fmt_d (Z.of_nat (length results)) +:+ " vs "
                            +:+ fmt_d (Z.of_nat (length jobs)) +:+ ")")))
      else
        '(retryLeaseJobs, cancelJobs, cancelReasons) ←
          send_results 0 results jobs [] [] [];
        '(cancelJobs, cancelReasons, cancelBuilds) ←
          (if (0 <? length retryLeaseJobs)%nat
           then send_retry retryLeaseJobs cancelJobs cancelReasons []
           else mret (cancelJobs, cancelReasons, []));
        errs ←
          (if (0 <? length cancelJobs)%nat
           then
             err ← localCancelJobs cancelJobs cancelReasons;
             mret (append_error errs err)
           else mret errs);
        if (0 <? length cancelBuilds)%nat
        then send_cancel cancelBuilds errs
        else mret errs
  end.

(** The loop of [sendHeartbeats] over the batches.  Every round takes at
    least one job, so as many rounds as there are jobs are enough. *)
Fixpoint sendHeartbeats_batches (rounds : nat) (expiration : Z)
    (jobs : list ptr) (errs : list error) : M (list error) :=
  match rounds with
  | O => mret errs
  | S rounds' =>
      if (0 <? length jobs)%nat
      then
        let j := if (length jobs <? LEASE_BATCH_SIZE)%nat
                 then length jobs else LEASE_BATCH_SIZE in
        errs ← send expiration (take j jobs) errs;
        sendHeartbeats_batches rounds' expiration (drop j jobs) errs
      else mret errs
  end.

(** [sendHeartbeats] sends heartbeats to Buildbucket for all of the
    unfinished try Jobs. *)
Definition sendHeartbeats (jobs : list ptr) : M (option error) :=
  jobs ← sortJobs jobs;
  n ← Now;
  let expiration := int64 (Unix (n + LEASE_DURATION) * secondsToMicros) in
  errs ← sendHeartbeats_batches (length jobs) expiration jobs [];
  if (0 <? length errs)%nat
  then mret (skerr.Fmt ("got errors sending heartbeats: " +:+ fmt_errs errs))
  else mret None.

(** [findJobForBuild] retrieves the Job associated with the given build.
    Returns nil, nil if no build is found. *)
Definition findJobForBuild (id : Z) : M (option Job * option error) :=
  end_ ← Now;
  let start := end_ - 4 * 24 * 3600 * second in
  '(foundJobs, err) ← db_SearchJobs id start end_;
  match err with
  | Some e =>
      mret (None,
            skerr.Wrapf (Some e)
              ("failed searching for existing Jobs for build " +:+ fmt_d id))
  | None =>
      match foundJobs with
      | j :: _ => mret (Some j, None)
      | [] => mret (None, None)
      end
  end.

(** The [types.Job] literal of [insertNewJobV1]; the fields it leaves out
    have their zero value. *)
Definition newJob (name : string) (buildId : Z) (requested created : time)
    (rs : RepoState) : Job :=
  {| BuildbucketBuildId := buildId; BuildbucketLeaseKey := 0;
     BuildbucketPubSubTopic := ""; BuildbucketToken := "";
     Created := created; Dependencies := []; Finished := time_zero;
     Id := ""; IsForce := false; Name := name; Requested := requested;
     Job_RepoState := rs; Status := JOB_STATUS_REQUESTED;
     StatusDetails := ""; Tasks := [] |}.

(** The part of [insertNewJobV1] that follows the check of the status of the
    build. *)
Definition insertNewJobV1_create (buildId : Z) (build : Build)
    : M (option error) :=
  input ← deref (b_Input build);
  match input with
  | [gerritChange] =>
      match projectRepoMapping t (gc_Project gerritChange) with
      | None =>
          remoteCancelV1Build buildId
            ("Unknown patch project " +:+ quoted (gc_Project gerritChange))
      | Some repoUrl =>
          let server :=
            if Contains (gc_Host gerritChange) "://"
            then gc_Host gerritChange
            else "https://" +:+ gc_Host gerritChange in
          let rs :=
            {| RepoState_Patch :=
                 {| Server := server;
                    Issue := fmt_d (gc_Change gerritChange);
                    PatchRepo := repoUrl;
                    Patchset := fmt_d (gc_Patchset gerritChange) |};
               Repo := repoUrl;
               Revision := "" |} in
          match ptypes_Timestamp L (b_CreateTime build) with
          | Failed e =>
              remoteCancelV1Build buildId
                ("Failed to convert timestamp for " +:+ fmt_d (b_Id build)
                 +:+ ": " +:+ Error e)
          | Reply requested =>
              builder ← deref (b_Builder build);
              created ← Now;
              j ← alloc (newJob (Builder builder) buildId
                           (FixTimestamp L requested)
                           (FixTimestamp L created) rs);
              jv ← load j;
              (if negb (Requested jv <? Created jv)
               then modify j (set_Requested (Created jv - TS_RESOLUTION L))
               else mret tt);;
              '(leaseKey, bbError, err) ← tryLeaseV1Build buildId;
              match err, bbError with
              | Some e, _ =>
                  mret (skerr.Wrapf (Some e)
                          ("failed to lease build " +:+ fmt_d buildId))
              | None, Some bbe =>
                  if String.eqb (Reason bbe)
                       BUILDBUCKET_API_ERROR_REASON_INVALID_INPUT
                  then mret None
                  else
                    remoteCancelV1Build buildId
                      ("Buildbucket refused lease with "
                       +:+ quoted (Message bbe) +:+ " (" +:+ Reason bbe
                       +:+ ")")
              | None, None =>
                  if leaseKey =? 0
                  then
                    remoteCancelV1Build buildId
                      "Buildbucket returned zero lease key"
                  else
                    modify j (set_BuildbucketLeaseKey leaseKey);;
                    err ← db_PutJob j;
                    match err with
                    | Some e =>
                        remoteCancelV1Build buildId
                          ("Failed to insert Job into the DB: " +:+ Error e)
                    | None => jCache_AddJobs [j];; mret None
                    end
              end
          end
      end
  | _ =>
      remoteCancelV1Build buildId
        ("Invalid Build " +:+ fmt_d buildId
         +:+ ": input should have exactly one GerritChanges: "
         +:+ Input_String L input)
  end.

Definition insertNewJobV1 (buildId : Z) : M (option error) :=
  '(existingJob, err) ← findJobForBuild buildId;
  match err, existingJob with
  | Some e, _ => mret (skerr.Wrap (Some e))
  | None, Some _ => mret None
  | None, None =>
      build ← call (BB2_GetBuild buildId) (fun h => bb2_GetBuild E h buildId);
      match build with
      | Failed e =>
          mret (skerr.Wrapf (Some e)
                  ("failed to retrieve build " +:+ fmt_d buildId))
      | Reply build =>
          match b_Status build with
          | Status_SCHEDULED => insertNewJobV1_create buildId build
          | _ =>
              '(_, bbError, err) ← tryLeaseV1Build buildId;
              if notnil err || notnil bbError
              then mret None
              else
                err ← remoteCancelV1Build buildId
                        ("Unexpected status "
                         +:+ BuildStatus_String (b_Status build));
                match err with
                | Some _ => mret None
                | None => insertNewJobV1_create buildId build
                end
          end
      end
  end.

(** [jobStarted] notifies Buildbucket that the given Job has started.
    Returns the Buildbucket token returned by Buildbucket, any error object
    returned by Buildbucket (eg. if the Build has been canceled), or any error
    which occurred when attempting the request. *)
Definition jobStarted (j : Job)
    : M (string * option LegacyApiErrorMessage * option error) :=
  if isBBv2 j
  then
    r ← call (BB2_StartBuild (BuildbucketBuildId j) (Id j) (BuildbucketToken j))
             (fun h => bb2_StartBuild E h (BuildbucketBuildId j) (Id j)
                         (BuildbucketToken j));
    match r with
    | Failed e => mret ("", None, skerr.Wrap (Some e))
    | Reply updateToken => mret (updateToken, None, skerr.Wrap None)
    end
  else
    resp ← call (BB_Start (BuildbucketBuildId j) (BuildbucketLeaseKey j)
                   (URL L j (host t)))
                (fun h => bb_Start E h (BuildbucketBuildId j)
                            (BuildbucketLeaseKey j) (URL L j (host t)));
    match resp with
    | Failed e => mret ("", None, skerr.Wrap (Some e))
    | Reply respError => mret ("", respError, None)
    end.

(** The closure [startJobHelper] of [startJob]. *)
Definition startJobHelper (job : ptr) : M (option error) :=
  j ← load job;
  let '(repoGraph, err) := getRepo (Repo (Job_RepoState j)) in
  match err with
  | Some e =>
      mret (skerr.Wrapf (Some e)
              ("unable to find repo " +:+ Repo (Job_RepoState j)))
  | None =>
      repoGraph ← deref repoGraph;
      err ←
        (if String.eqb (Revision (Job_RepoState j)) ""
         then
           '(revision, err) ←
             getRevision repoGraph (Issue (RepoState_Patch (Job_RepoState j)));
           match err with
           | Some e =>
               mret (skerr.Wrapf (Some e)
                       ("failed to find base revision for issue "
                        +:+ Issue (RepoState_Patch (Job_RepoState j))
                        +:+ " in " +:+ Repo (Job_RepoState j)))
           | None => modify job (set_Revision revision);; mret None
           end
         else
           match repoGraph (Revision (Job_RepoState j)) with
           | None =>
               mret (skerr.Fmt ("Unknown revision "
                                +:+ Revision (Job_RepoState j)))
           | Some hash => modify job (set_Revision hash);; mret None
           end);
      match err with
      | Some e => mret (Some e)
      | None =>
          j ← load job;
          let rs := Job_RepoState j in
          if negb (Valid L rs) || negb (IsTryJob L rs) || skipRepoState rs
          then mret (skerr.Fmt ("invalid RepoState: "
                                +:+ RepoState_String L rs))
          else
            err ← call (Chr_GetOrCacheRepoState rs)
                       (fun h => chr_GetOrCacheRepoState E h rs);
            match err with
            | Some e => mret (skerr.Wrapf (Some e) "failed to obtain JobSpec")
            | None =>
                r ← call (TaskCfgCache_Get rs)
                         (fun h => taskCfgCache_Get E h rs);
                match r with
                | Failed e => mret (Some e)
                | Reply (_, Some cachedErr) => mret (Some cachedErr)
                | Reply (cfg, None) =>
                    match cfg (Name j) with
                    | None => mret (skerr.Fmt ("no such job: " +:+ Name j))
                    | Some (Failed e) => mret (skerr.Wrap (Some e))
                    | Some (Reply deps) =>
                        modify job (set_Dependencies deps);;
                        modify job (set_Tasks []);;
                        '(prevJobs, err) ←
                          jCache_GetJobsByRepoState (Name j) rs;
                        match err with
                        | Some e => mret (skerr.Wrap (Some e))
                        | None =>
                            (if (0 <? length prevJobs)%nat
                             then modify job (set_IsForce true)
                             else mret tt);;
                            mret None
                        end
                    end
                end
            end
      end
  end.

Definition startJob (job : ptr) : M (option error) :=
  j ← load job;
  '(updatedJob, err) ← db_GetJobById (Id j);
  match err with
  | Some e => mret (skerr.Wrapf (Some e) "failed loading job from DB")
  | None =>
      updatedJob ← deref updatedJob;
      if negb (bool_decide (Status updatedJob = JOB_STATUS_REQUESTED))
      then mret None
      else
        err ← startJobHelper job;
        early ←
          match err with
          | Some e =>
              modify job (set_Status JOB_STATUS_MISHAP);;
              modify job (set_StatusDetails
                            (Truncate L
                               ("Failed to start Job: "
                                +:+ Error (skerr.Unwrap e)) 1024));;
              mret None
          | None =>
              modify job (set_Status JOB_STATUS_IN_PROGRESS);;
              j ← load job;
              '(bbToken, bbError, err) ← jobStarted j;
              if isBuildAlreadyStartedError err || notnil bbError
              then
                cancelReason ←
                  (if isBuildAlreadyStartedError err
                   then mret ("StartBuild has already been called for this Job, "
                              +:+ "but the Job was not correctly updated and "
                              +:+ "cannot continue.")
                   else
                     bbe ← deref bbError;
                     mret ("Buildbucket rejected Start with: " +:+ Reason bbe));
                cancelErr ← localCancelJobs [job] [cancelReason];
                j ← load job;
                match cancelErr with
                | Some ce =>
                    bbe ← deref bbError;
                    mret (Some (skerr.Wrapf (Some ce)
                            ("failed to start " +:+ job_build j +:+ " with "
                             +:+ quoted (Message bbe)
                             +:+ " and failed to cancel job")))
                | None =>
                    bbe ← deref bbError;
                    mret (Some (skerr.Fmt
                            ("failed to start " +:+ job_build j +:+ " with "
                             +:+ quoted (Message bbe))))
                end
              else
                match err with
                | Some e =>
                    mret (Some (skerr.Wrapf (Some e)
                            ("failed to send job-started notification for "
                             +:+ job_build j)))
                | None =>
                    (if negb (String.eqb bbToken "")
                     then modify job (set_BuildbucketToken bbToken)
                     else mret tt);;
                    mret None
                end
          end;
        match early with
        | Some returned => mret returned
        | None =>
            err ← db_PutJob job;
            match err with
            | Some e =>
                j ← load job;
                mret (skerr.Wrapf (Some e)
                        ("failed to insert Job " +:+ Id j +:+ " (build "
                         +:+ fmt_d (BuildbucketBuildId j) +:+ ") into the DB"))
            | None => jCache_AddJobs [job];; mret None
            end
        end
  end.

(** What [buildSucceededV1] and [buildFailed] make of the response. *)
Definition legacy_result (resp : rpc (option LegacyApiErrorMessage))
    : option error :=
  match resp with
  | Failed e => Some e
  | Reply (Some respError) =>
      if String.eqb (Reason respError) BUILDBUCKET_API_ERROR_REASON_COMPLETED
      then None
      else Some (errors_New (Errorf_text L (Message respError)))
  | Reply None => None
  end.

(** [buildSucceededV1] sends a success notification to Buildbucket. *)
Definition buildSucceededV1 (j : Job) : M (option error) :=
  match json_Marshal_err L j with
  | Some e => mret (Some e)
  | None =>
      resp ← call (BB_Succeed (BuildbucketBuildId j) (BuildbucketLeaseKey j))
                  (fun h => bb_Succeed E h (BuildbucketBuildId j)
                              (BuildbucketLeaseKey j));
      mret (legacy_result resp)
  end.

(** [buildFailed] sends a failure notification to Buildbucket. *)
Definition buildFailed (j : Job) : M (option error) :=
  match json_Marshal_err L j with
  | Some e => mret (Some e)
  | None =>
      let failureReason :=
        if bool_decide (Status j = JOB_STATUS_MISHAP)
        then "INFRA_FAILURE" else "BUILD_FAILURE" in
      resp ← call (BB_Fail (BuildbucketBuildId j) (BuildbucketLeaseKey j)
                     failureReason)
                  (fun h => bb_Fail E h (BuildbucketBuildId j)
                              (BuildbucketLeaseKey j) failureReason);
      mret (legacy_result resp)
  end.

Definition updateBuild (j : Job) : M (option error) :=
  err ← call (BB2_UpdateBuild (BuildbucketBuildId j) (Status j)
                (StatusDetails j) (BuildbucketToken j))
             (fun h => bb2_UpdateBuild E h (BuildbucketBuildId j) (Status j)
                         (StatusDetails j) (BuildbucketToken j));
  match err with
  | Some e =>
      mret (skerr.Wrapf (Some e)
              ("failed to UpdateBuild " +:+ fmt_d (BuildbucketBuildId j)
               +:+ " for job " +:+ Id j))
  | None => err ← sendPubSub j; mret (skerr.Wrap err)
  end.

Definition cancelBuild (j : Job) (reason : string) : M (option error) :=
  err ← call (BB2_CancelBuild (BuildbucketBuildId j) reason)
             (fun h => bb2_CancelBuild E h (BuildbucketBuildId j) reason);
  match err with
  | Some e =>
      mret (skerr.Wrapf (Some e)
              ("failed to cancel build " +:+ fmt_d (BuildbucketBuildId j)
               +:+ " for job " +:+ Id j))
  | None => err ← sendPubSub j; mret (skerr.Wrap err)
  end.

(** [jobFinished] notifies Buildbucket that the given Job has finished. *)
Definition jobFinished (j : Job) : M (option error) :=
  if negb (Done j)
  then mret (skerr.Fmt "JobFinished called for unfinished Job!")
  else if isBBv2 j
  then
    if bool_decide (Status j = JOB_STATUS_CANCELED)
    then
      let reason :=
        if String.eqb (StatusDetails j) ""
        then "Underlying job was canceled." else StatusDetails j in
      err ← cancelBuild j reason;
      mret (skerr.Wrap err)
    else
      err ← updateBuild j;
      match err with
      | Some e =>
          if isBuildAlreadyFinishedError err
          then mret None
          else mret (skerr.Wrap (Some e))
      | None => mret None
      end
  else if bool_decide (Status j = JOB_STATUS_SUCCESS)
  then err ← buildSucceededV1 j; mret (skerr.Wrap err)
  else err ← buildFailed j; mret (skerr.Wrap err).

(** The first loop of [updateJobs]: divide up finished and unfinished
    Jobs. *)
Fixpoint updateJobs_divide (jobs finished unfinishedV1 unfinishedV2 : list ptr)
    : M (list ptr * list ptr * list ptr) :=
  match jobs with
  | [] => mret (finished, unfinishedV1, unfinishedV2)
  | p :: jobs' =>
      j ← load p;
      if Done j
      then updateJobs_divide jobs' (finished ++ [p]) unfinishedV1 unfinishedV2
      else if isBBv2 j
      then updateJobs_divide jobs' finished unfinishedV1 (unfinishedV2 ++ [p])
      else updateJobs_divide jobs' finished (unfinishedV1 ++ [p]) unfinishedV2
  end.

(** The loop of [updateJobs] over the finished jobs: send updates for
    finished Jobs, empty the lease keys to mark them as inactive in the
    DB. *)
Fixpoint updateJobs_finished (finished : list ptr) (errs : list error)
    (insert : list ptr) : M (list error * list ptr) :=
  match finished with
  | [] => mret (errs, insert)
  | p :: finished' =>
      j ← load p;
      err ← jobFinished j;
      match err with
      | Some e =>
          updateJobs_finished finished'
            (append_error errs
               (skerr.Wrapf (Some e)
                  ("failed to send jobFinished notification for "
                   +:+ job_build j)))
            insert
      | None =>
          modify p (set_BuildbucketLeaseKey 0);;
          modify p (set_BuildbucketToken "");;
          updateJobs_finished finished' errs (insert ++ [p])
      end
  end.

(** What [updateJobs] does with the finished jobs: the loop, then the write
    to the database and to the cache. *)
Definition updateJobs_reconcile (finished : list ptr)
    : M (list error * list ptr) :=
  '(errs, insert) ← updateJobs_finished finished [] [];
  err ← db_PutJobsInChunks insert;
  let errs := append_error errs err in
  jCache_AddJobs insert;;
  mret (errs, insert).

(** [updateJobs] sends updates to Buildbucket for all active try Jobs.  The
    two goroutines, which [updateJobs] waits for after it has dealt with the
    finished jobs, are run at that point, one after the other. *)
Definition updateJobs : M (option error) :=
  '(jobs, err) ← getActiveTryJobs;
  match err with
  | Some e => mret (Some e)
  | None =>
      '(finished, unfinishedV1, unfinishedV2) ← updateJobs_divide jobs [] [] [];
      '(errs, _) ← updateJobs_reconcile finished;
      heartbeatErr ← sendHeartbeats unfinishedV1;
      pubsubErr ← sendPubsubUpdates unfinishedV2;
      let errs := append_error errs heartbeatErr in
      let errs := append_error errs pubsubErr in
      if (0 <? length errs)%nat
      then mret (skerr.Fmt ("Failed to update jobs; got errors: "
                            +:+ fmt_errs errs))
      else mret None
  end.

(** The loop of [buildbucketCleanup] over the builds. *)
Fixpoint buildbucketCleanup_loop (builds : list Build) : M (option error) :=
  match builds with
  | [] => mret None
  | build :: builds' =>
      builder ← deref (b_Builder build);
      if negb (String.eqb (Bucket builder) (buildbucketBucket t))
      then buildbucketCleanup_loop builds'
      else
        '(job, err) ← findJobForBuild (b_Id build);
        match err, job with
        | Some e, _ => mret (skerr.Wrap (Some e))
        | None, None => buildbucketCleanup_loop builds'
        | None, Some job =>
            let failed_to_cancel :=
              "failed to cancel build " +:+ fmt_d (b_Id build) +:+ " (job "
              +:+ Id job +:+ ")" in
            if Done job
            then
              if String.eqb (BuildbucketToken job) ""
              then
                err ← cancelBuild job
                        "We no longer have an update token for this build";
                match err with
                | Some e => mret (skerr.Wrapf (Some e) failed_to_cancel)
                | None => buildbucketCleanup_loop builds'
                end
              else
                err ← updateBuild job;
                match err with
                | Some _ =>
                    if isBuildAlreadyFinishedError err
                    then buildbucketCleanup_loop builds'
                    else
                      err ← cancelBuild job "Failed to UpdateBuild";
                      match err with
                      | Some e => mret (skerr.Wrapf (Some e) failed_to_cancel)
                      | None => buildbucketCleanup_loop builds'
                      end
                | None => buildbucketCleanup_loop builds'
                end
            else buildbucketCleanup_loop builds'
        end
  end.

(** [buildbucketCleanup] looks for old Buildbucket Builds which were started
    but not properly updated and attempts to update them. *)
Definition buildbucketCleanup : M (option error) :=
  n ← TimeNow;
  let endTime := n - CLEANUP_AGE_THRESHOLD in
  builds ← call (BB2_Search (buildbucketBucket t) endTime)
                (fun h => bb2_Search E h (buildbucketBucket t) endTime);
  match builds with
  | Failed e => mret (skerr.Wrap (Some e))
  | Reply builds => buildbucketCleanup_loop builds
  end.

End Integrator.

(** ** Sample collaborators and jobs

    A Buildbucket, a database and a cache that answer every call with a
    success, library functions as the repository defines them, and the
    functions that replace one answer of an environment; the scenarios of the
    properties below are built from them. *)

Definition sample_repo : string := "https://skia.googlesource.com/skia.git".

Definition sample_patch : Patch :=
  {| Issue := "1234"; PatchRepo := sample_repo; Patchset := "2";
     Server := "https://skia-review.googlesource.com" |}.

Definition sample_rs : RepoState :=
  {| RepoState_Patch := sample_patch; Repo := sample_repo;
     Revision := "abc123" |}.

(** A legacy job that holds lease key 7 on build 42. *)
Definition sample_job (st : JobStatus) : Job :=
  {| BuildbucketBuildId := 42; BuildbucketLeaseKey := 7;
     BuildbucketPubSubTopic := ""; BuildbucketToken := "";
     Created := 1699999000 * second; Dependencies := [];
     Finished := time_zero; Id := "job1"; IsForce := false;
     Name := "Build-Debian10-Clang-x86_64-Debug";
     Requested := 1699998000 * second; Job_RepoState := sample_rs;
     Status := st; StatusDetails := ""; Tasks := [] |}.

(** A job of the asynchronous protocol with update token [tok] on build
    43. *)
Definition sample_job_v2 (st : JobStatus) (tok : string) : Job :=
  {| BuildbucketBuildId := 43; BuildbucketLeaseKey := 0;
     BuildbucketPubSubTopic := "projects/skia-public/topics/buildbucket";
     BuildbucketToken := tok;
     Created := 1699999000 * second; Dependencies := [];
     Finished := time_zero; Id := "job2"; IsForce := false;
     Name := "Build-Debian10-Clang-x86_64-Debug";
     Requested := 1699998000 * second; Job_RepoState := sample_rs;
     Status := st; StatusDetails := ""; Tasks := [] |}.

(** A scheduled build with one Gerrit change. *)
Definition sample_build (id change patchset : Z) : Build :=
  {| b_Id := id; b_Status := Status_SCHEDULED;
     b_Input := Some [ {| gc_Host := "skia-review.googlesource.com";
                          gc_Project := "skia"; gc_Change := change;
                          gc_Patchset := patchset |} ];
     b_CreateTime := Some {| Seconds := 1699999990; Nanos := 0 |};
     b_Builder := Some {| Project := "skia"; Bucket := "skia.primary";
                          Builder := "Build-Debian10-Clang-x86_64-Debug" |} |}.

(** A started build of the primary bucket. *)
Definition started_build (id : Z) : Build :=
  {| b_Id := id; b_Status := Status_STARTED; b_Input := None;
     b_CreateTime := Some {| Seconds := 1699985600; Nanos := 0 |};
     b_Builder := Some {| Project := "skia"; Bucket := "skia.primary";
                          Builder := "Build-Debian10-Clang-x86_64-Debug" |} |}.

Definition quiet : Env :=
  {| now_Now := fun _ => 1700000000 * second;
     time_Now := fun _ => 1700000000 * second;
     bb_HeartbeatBatch := fun _ hbs =>
       Reply ((fun _ => {| hbr_Error := None |}) <$> hbs);
     bb_Lease := fun _ _ _ => Reply {| lr_Build := Some 7; lr_Error := None |};
     bb_Cancel := fun _ _ _ => Reply None;
     bb_Start := fun _ _ _ _ => Reply None;
     bb_Succeed := fun _ _ _ => Reply None;
     bb_Fail := fun _ _ _ _ => Reply None;
     bb2_GetBuild := fun _ id => Reply (sample_build id 1234 2);
     bb2_StartBuild := fun _ _ _ _ => Reply "tok1";
     bb2_UpdateBuild := fun _ _ _ _ _ => None;
     bb2_CancelBuild := fun _ _ _ => None;
     bb2_Search := fun _ _ _ => Reply [];
     pubsub_Project := "skia-public";
     pubsub_Publish := fun _ _ _ _ => None;
     db_GetJobById_err := fun _ _ => None;
     db_SearchJobs_err := fun _ _ => None;
     db_PutJob_err := fun _ _ => None;
     db_PutJobsInChunks_err := fun _ _ => None;
     db_newId := fun _ => "job-new";
     jCache_Update_err := fun _ => None;
     jCache_GetJobsByRepoState_err := fun _ _ => None;
     gerrit_GetIssueProperties := fun _ _ => Reply "main";
     chr_GetOrCacheRepoState := fun _ _ => None;
     taskCfgCache_Get := fun _ _ =>
       Reply (fun _ => Some (Reply [("Build", [])]), None) |}.
Definition with_bb_HeartbeatBatch (v : list Event -> list OneHeartbeat -> rpc (list OneHeartbeatResult)) (E : Env) : Env :=
  {| now_Now := now_Now E;
     time_Now := time_Now E;
     bb_HeartbeatBatch := v;
     bb_Lease := bb_Lease E;
     bb_Cancel := bb_Cancel E;
     bb_Start := bb_Start E;
     bb_Succeed := bb_Succeed E;
     bb_Fail := bb_Fail E;
     bb2_GetBuild := bb2_GetBuild E;
     bb2_StartBuild := bb2_StartBuild E;
     bb2_UpdateBuild := bb2_UpdateBuild E;
     bb2_CancelBuild := bb2_CancelBuild E;
     bb2_Search := bb2_Search E;
     pubsub_Project := pubsub_Project E;
     pubsub_Publish := pubsub_Publish E;
     db_GetJobById_err := db_GetJobById_err E;
     db_SearchJobs_err := db_SearchJobs_err E;
     db_PutJob_err := db_PutJob_err E;
     db_PutJobsInChunks_err := db_PutJobsInChunks_err E;
     db_newId := db_newId E;
     jCache_Update_err := jCache_Update_err E;
     jCache_GetJobsByRepoState_err := jCache_GetJobsByRepoState_err E;
     gerrit_GetIssueProperties := gerrit_GetIssueProperties E;
     chr_GetOrCacheRepoState := chr_GetOrCacheRepoState E;
     taskCfgCache_Get := taskCfgCache_Get E |}.
Definition with_bb_Lease (v : list Event -> Z -> Z -> rpc LeaseResponse) (E : Env) : Env :=
  {| now_Now := now_Now E;
     time_Now := time_Now E;
     bb_HeartbeatBatch := bb_HeartbeatBatch E;
     bb_Lease := v;
     bb_Cancel := bb_Cancel E;
     bb_Start := bb_Start E;
     bb_Succeed := bb_Succeed E;
     bb_Fail := bb_Fail E;
     bb2_GetBuild := bb2_GetBuild E;
     bb2_StartBuild := bb2_StartBuild E;
     bb2_UpdateBuild := bb2_UpdateBuild E;
     bb2_CancelBuild := bb2_CancelBuild E;
     bb2_Search := bb2_Search E;
     pubsub_Project := pubsub_Project E;
     pubsub_Publish := pubsub_Publish E;
     db_GetJobById_err := db_GetJobById_err E;
     db_SearchJobs_err := db_SearchJobs_err E;
     db_PutJob_err := db_PutJob_err E;
     db_PutJobsInChunks_err := db_PutJobsInChunks_err E;
     db_newId := db_newId E;
     jCache_Update_err := jCache_Update_err E;
     jCache_GetJobsByRepoState_err := jCache_GetJobsByRepoState_err E;
     gerrit_GetIssueProperties := gerrit_GetIssueProperties E;
     chr_GetOrCacheRepoState := chr_GetOrCacheRepoState E;
     taskCfgCache_Get := taskCfgCache_Get E |}.
Definition with_bb_Start (v : list Event -> Z -> Z -> string -> rpc (option LegacyApiErrorMessage)) (E : Env) : Env :=
  {| now_Now := now_Now E;
     time_Now := time_Now E;
     bb_HeartbeatBatch := bb_HeartbeatBatch E;
     bb_Lease := bb_Lease E;
     bb_Cancel := bb_Cancel E;
     bb_Start := v;
     bb_Succeed := bb_Succeed E;
     bb_Fail := bb_Fail E;
     bb2_GetBuild := bb2_GetBuild E;
     bb2_StartBuild := bb2_StartBuild E;
     bb2_UpdateBuild := bb2_UpdateBuild E;
     bb2_CancelBuild := bb2_CancelBuild E;
     bb2_Search := bb2_Search E;
     pubsub_Project := pubsub_Project E;
     pubsub_Publish := pubsub_Publish E;
     db_GetJobById_err := db_GetJobById_err E;
     db_SearchJobs_err := db_SearchJobs_err E;
     db_PutJob_err := db_PutJob_err E;
     db_PutJobsInChunks_err := db_PutJobsInChunks_err E;
     db_newId := db_newId E;
     jCache_Update_err := jCache_Update_err E;
     jCache_GetJobsByRepoState_err := jCache_GetJobsByRepoState_err E;
     gerrit_GetIssueProperties := gerrit_GetIssueProperties E;
     chr_GetOrCacheRepoState := chr_GetOrCacheRepoState E;
     taskCfgCache_Get := taskCfgCache_Get E |}.
Definition with_bb2_GetBuild (v : list Event -> Z -> rpc Build) (E : Env) : Env :=
  {| now_Now := now_Now E;
     time_Now := time_Now E;
     bb_HeartbeatBatch := bb_HeartbeatBatch E;
     bb_Lease := bb_Lease E;
     bb_Cancel := bb_Cancel E;
     bb_Start := bb_Start E;
     bb_Succeed := bb_Succeed E;
     bb_Fail := bb_Fail E;
     bb2_GetBuild := v;
     bb2_StartBuild := bb2_StartBuild E;
     bb2_UpdateBuild := bb2_UpdateBuild E;
     bb2_CancelBuild := bb2_CancelBuild E;
     bb2_Search := bb2_Search E;
     pubsub_Project := pubsub_Project E;
     pubsub_Publish := pubsub_Publish E;
     db_GetJobById_err := db_GetJobById_err E;
     db_SearchJobs_err := db_SearchJobs_err E;
     db_PutJob_err := db_PutJob_err E;
     db_PutJobsInChunks_err := db_PutJobsInChunks_err E;
     db_newId := db_newId E;
     jCache_Update_err := jCache_Update_err E;
     jCache_GetJobsByRepoState_err := jCache_GetJobsByRepoState_err E;
     gerrit_GetIssueProperties := gerrit_GetIssueProperties E;
     chr_GetOrCacheRepoState := chr_GetOrCacheRepoState E;
     taskCfgCache_Get := taskCfgCache_Get E |}.
Definition with_bb2_StartBuild (v : list Event -> Z -> string -> string -> rpc string) (E : Env) : Env :=
  {| now_Now := now_Now E;
     time_Now := time_Now E;
     bb_HeartbeatBatch := bb_HeartbeatBatch E;
     bb_Lease := bb_Lease E;
     bb_Cancel := bb_Cancel E;
     bb_Start := bb_Start E;
     bb_Succeed := bb_Succeed E;
     bb_Fail := bb_Fail E;
     bb2_GetBuild := bb2_GetBuild E;
     bb2_StartBuild := v;
     bb2_UpdateBuild := bb2_UpdateBuild E;
     bb2_CancelBuild := bb2_CancelBuild E;
     bb2_Search := bb2_Search E;
     pubsub_Project := pubsub_Project E;
     pubsub_Publish := pubsub_Publish E;
     db_GetJobById_err := db_GetJobById_err E;
     db_SearchJobs_err := db_SearchJobs_err E;
     db_PutJob_err := db_PutJob_err E;
     db_PutJobsInChunks_err := db_PutJobsInChunks_err E;
     db_newId := db_newId E;
     jCache_Update_err := jCache_Update_err E;
     jCache_GetJobsByRepoState_err := jCache_GetJobsByRepoState_err E;
     gerrit_GetIssueProperties := gerrit_GetIssueProperties E;
     chr_GetOrCacheRepoState := chr_GetOrCacheRepoState E;
     taskCfgCache_Get := taskCfgCache_Get E |}.
Definition with_bb2_UpdateBuild (v : list Event -> Z -> JobStatus -> string -> string -> option error) (E : Env) : Env :=
  {| now_Now := now_Now E;
     time_Now := time_Now E;
     bb_HeartbeatBatch := bb_HeartbeatBatch E;
     bb_Lease := bb_Lease E;
     bb_Cancel := bb_Cancel E;
     bb_Start := bb_Start E;
     bb_Succeed := bb_Succeed E;
     bb_Fail := bb_Fail E;
     bb2_GetBuild := bb2_GetBuild E;
     bb2_StartBuild := bb2_StartBuild E;
     bb2_UpdateBuild := v;
     bb2_CancelBuild := bb2_CancelBuild E;
     bb2_Search := bb2_Search E;
     pubsub_Project := pubsub_Project E;
     pubsub_Publish := pubsub_Publish E;
     db_GetJobById_err := db_GetJobById_err E;
     db_SearchJobs_err := db_SearchJobs_err E;
     db_PutJob_err := db_PutJob_err E;
     db_PutJobsInChunks_err := db_PutJobsInChunks_err E;
     db_newId := db_newId E;
     jCache_Update_err := jCache_Update_err E;
     jCache_GetJobsByRepoState_err := jCache_GetJobsByRepoState_err E;
     gerrit_GetIssueProperties := gerrit_GetIssueProperties E;
     chr_GetOrCacheRepoState := chr_GetOrCacheRepoState E;
     taskCfgCache_Get := taskCfgCache_Get E |}.
Definition with_bb2_Search (v : list Event -> string -> time -> rpc (list Build)) (E : Env) : Env :=
  {| now_Now := now_Now E;
     time_Now := time_Now E;
     bb_HeartbeatBatch := bb_HeartbeatBatch E;
     bb_Lease := bb_Lease E;
     bb_Cancel := bb_Cancel E;
     bb_Start := bb_Start E;
     bb_Succeed := bb_Succeed E;
     bb_Fail := bb_Fail E;
     bb2_GetBuild := bb2_GetBuild E;
     bb2_StartBuild := bb2_StartBuild E;
     bb2_UpdateBuild := bb2_UpdateBuild E;
     bb2_CancelBuild := bb2_CancelBuild E;
     bb2_Search := v;
     pubsub_Project := pubsub_Project E;
     pubsub_Publish := pubsub_Publish E;
     db_GetJobById_err := db_GetJobById_err E;
     db_SearchJobs_err := db_SearchJobs_err E;
     db_PutJob_err := db_PutJob_err E;
     db_PutJobsInChunks_err := db_PutJobsInChunks_err E;
     db_newId := db_newId E;
     jCache_Update_err := jCache_Update_err E;
     jCache_GetJobsByRepoState_err := jCache_GetJobsByRepoState_err E;
     gerrit_GetIssueProperties := gerrit_GetIssueProperties E;
     chr_GetOrCacheRepoState := chr_GetOrCacheRepoState E;
     taskCfgCache_Get := taskCfgCache_Get E |}.
Definition with_db_PutJob_err (v : list Event -> Job -> option error) (E : Env) : Env :=
  {| now_Now := now_Now E;
     time_Now := time_Now E;
     bb_HeartbeatBatch := bb_HeartbeatBatch E;
     bb_Lease := bb_Lease E;
     bb_Cancel := bb_Cancel E;
     bb_Start := bb_Start E;
     bb_Succeed := bb_Succeed E;
     bb_Fail := bb_Fail E;
     bb2_GetBuild := bb2_GetBuild E;
     bb2_StartBuild := bb2_StartBuild E;
     bb2_UpdateBuild := bb2_UpdateBuild E;
     bb2_CancelBuild := bb2_CancelBuild E;
     bb2_Search := bb2_Search E;
     pubsub_Project := pubsub_Project E;
     pubsub_Publish := pubsub_Publish E;
     db_GetJobById_err := db_GetJobById_err E;
     db_SearchJobs_err := db_SearchJobs_err E;
     db_PutJob_err := v;
     db_PutJobsInChunks_err := db_PutJobsInChunks_err E;
     db_newId := db_newId E;
     jCache_Update_err := jCache_Update_err E;
     jCache_GetJobsByRepoState_err := jCache_GetJobsByRepoState_err E;
     gerrit_GetIssueProperties := gerrit_GetIssueProperties E;
     chr_GetOrCacheRepoState := chr_GetOrCacheRepoState E;
     taskCfgCache_Get := taskCfgCache_Get E |}.

(** [util.Truncate], [Job.URL], [firestore.FixTimestamp] (microseconds) and
    the checks of [RepoState], as the repository defines them; the messages
    of the scenarios have no percent sign, so [fmt.Errorf] leaves them as
    they are, and a timestamp is printed as its text format. *)
Definition sample_lib : Lib :=
  {| Truncate := fun s n =>
       if (String.length s <=? n)%nat then s
       else if (n <=? 3)%nat then String.substring 0 n s
       else String.substring 0 (n - 3) s +:+ "...";
     URL := fun j host => host +:+ "/job/" +:+ Id j;
     FixTimestamp := fun n => n - n mod 1000;
     TS_RESOLUTION := 1000;
     Valid := fun rs =>
       negb (String.eqb (Repo rs) "") && negb (String.eqb (Revision rs) "");
     IsTryJob := fun rs =>
       negb (String.eqb (Issue (RepoState_Patch rs)) "")
       && negb (String.eqb (Patchset (RepoState_Patch rs)) "")
       && negb (String.eqb (Server (RepoState_Patch rs)) "");
     RepoState_String := fun rs =>
       Repo rs +:+ "@" +:+ Revision rs +:+ "+"
       +:+ Issue (RepoState_Patch rs) +:+ "/"
       +:+ Patchset (RepoState_Patch rs);
     Input_String := fun changes =>
       fmt_d (Z.of_nat (length changes)) +:+ " gerrit changes";
     json_Marshal_err := fun _ => None;
     proto_Marshal_err := fun _ => None;
     Errorf_text := fun msg => msg;
     Timestamp_String := fun ts =>
       "seconds:" +:+ fmt_d (Seconds ts) +:+ " nanos:" +:+ fmt_d (Nanos ts) |}.

Definition sample_integrator : TryJobIntegrator :=
  {| buildbucketBucket := "skia.primary";
     buildbucketTarget := "skia://task-scheduler";
     host := "https://task-scheduler.skia.org";
     projectRepoMapping := fun project =>
       if String.eqb project "skia" then Some sample_repo else None;
     rm := fun repoUrl =>
       if String.eqb repoUrl sample_repo
       then Some (fun name =>
                    if String.eqb name "main" || String.eqb name "abc123"
                    then Some "abc123" else None)
       else None |}.

(** A process that holds the given job objects, with the given rows in the
    database, and has made no call yet. *)
Definition world_of (objects rows : list Job) : World :=
  {| heap := objects; db := rows; jCache := seq 0 (length objects); log := [] |}.

(** The state in which a computation ends, and the value it returns. *)
Definition final {A : Type} (o : Outcome A) : World :=
  match o with
  | Ret _ w => w
  | Panic w => w
  end.

Definition value {A : Type} (d : A) (o : Outcome A) : A :=
  match o with
  | Ret a _ => a
  | Panic _ => d
  end.

(** ** Scenarios *)

Definition lease_expired : LegacyApiErrorMessage :=
  {| Message := "lease has expired";
     Reason := BUILDBUCKET_API_ERROR_REASON_LEASE_EXPIRED |}.

(** Buildbucket rejects every heartbeat with LEASE_EXPIRED, and the lease
    call that follows fails in transport. *)
Definition lease_lost_in_transport : Env :=
  with_bb_HeartbeatBatch
    (fun _ hbs => Reply ((fun _ => {| hbr_Error := Some lease_expired |}) <$> hbs))
    (with_bb_Lease
       (fun _ _ _ => Failed (errors_New "connection reset by peer")) quiet).

(** Buildbucket rejects every heartbeat with LEASE_EXPIRED, and refuses the
    lease that follows. *)
Definition lease_lost_and_refused : Env :=
  with_bb_HeartbeatBatch
    (fun _ hbs => Reply ((fun _ => {| hbr_Error := Some lease_expired |}) <$> hbs))
    (with_bb_Lease
       (fun _ _ _ =>
          Reply {| lr_Build := None;
                   lr_Error := Some {| Message := "build 42 is completed";
                                       Reason := "BUILD_IS_COMPLETED" |} |})
       quiet).

(** Buildbucket rejects the heartbeat of build 42 only with LEASE_EXPIRED, and
    grants the lease that follows with key 9. *)
Definition lease_expired_for_42 : Env :=
  with_bb_HeartbeatBatch
    (fun _ hbs =>
       Reply ((fun hb =>
                 {| hbr_Error := if hb_BuildId hb =? 42
                                 then Some lease_expired else None |}) <$> hbs))
    (with_bb_Lease
       (fun _ _ _ => Reply {| lr_Build := Some 9; lr_Error := None |}) quiet).

(** Buildbucket answers a heartbeat batch with an empty result list. *)
Definition short_heartbeat_results : Env :=
  with_bb_HeartbeatBatch (fun _ _ => Reply []) quiet.

(** Buildbucket has recorded a StartBuild for the build already. *)
Definition start_already_recorded : Env :=
  with_bb2_StartBuild
    (fun _ _ _ _ =>
       Failed (errors_New
                 ("rpc error: code = AlreadyExists desc = build 43 "
                  +:+ "has recorded another StartBuild with request id job2")))
    quiet.

(** The pending build is for patchset 1 of change 527502, which is on the
    denylist of [skipRepoState]. *)
Definition denylisted_build_pending : Env :=
  with_bb2_GetBuild (fun _ id => Reply (sample_build id 527502 1)) quiet.

(** A REQUESTED job for patchset 1 of change 527502. *)
Definition denylisted_job : Job :=
  {| BuildbucketBuildId := 42; BuildbucketLeaseKey := 7;
     BuildbucketPubSubTopic := ""; BuildbucketToken := "";
     Created := 1699999000 * second; Dependencies := [];
     Finished := time_zero; Id := "job1"; IsForce := false;
     Name := "Build-Debian10-Clang-x86_64-Debug";
     Requested := 1699998000 * second;
     Job_RepoState :=
       {| RepoState_Patch :=
            {| Issue := "527502"; PatchRepo := sample_repo; Patchset := "1";
               Server := "https://skia-review.googlesource.com" |};
          Repo := sample_repo; Revision := "" |};
     Status := JOB_STATUS_REQUESTED; StatusDetails := ""; Tasks := [] |}.


(** A second job of the asynchronous protocol, on build 44. *)
Definition other_job_v2 (st : JobStatus) (tok : string) : Job :=
  {| BuildbucketBuildId := 44; BuildbucketLeaseKey := 0;
     BuildbucketPubSubTopic := "projects/skia-public/topics/buildbucket";
     BuildbucketToken := tok;
     Created := 1699999000 * second; Dependencies := [];
     Finished := time_zero; Id := "job3"; IsForce := false;
     Name := "Build-Debian10-Clang-x86_64-Debug";
     Requested := 1699998000 * second; Job_RepoState := sample_rs;
     Status := st; StatusDetails := ""; Tasks := [] |}.

(** A second legacy job, on build 41. *)
Definition other_job (st : JobStatus) : Job :=
  {| BuildbucketBuildId := 41; BuildbucketLeaseKey := 5;
     BuildbucketPubSubTopic := ""; BuildbucketToken := "";
     Created := 1699999000 * second; Dependencies := [];
     Finished := time_zero; Id := "job0"; IsForce := false;
     Name := "Build-Debian10-Clang-x86_64-Debug";
     Requested := 1699998000 * second; Job_RepoState := sample_rs;
     Status := st; StatusDetails := ""; Tasks := [] |}.

(** The search of cleanup finds build 43, started four hours ago. *)
Definition stale_build_found : Env :=
  with_bb2_Search (fun _ _ _ => Reply [started_build 43]) quiet.

(** A process with one job object, which is also the row of the job. *)
Definition one_job_world (j : Job) : World := world_of [j] [j].

(** The state after a heartbeat for build 42 was rejected with LEASE_EXPIRED
    and the lease that followed failed. *)
Definition after_failed_release : World :=
  {| heap := [set_BuildbucketLeaseKey 0 (sample_job JOB_STATUS_IN_PROGRESS)];
     db := [sample_job JOB_STATUS_IN_PROGRESS];
     jCache := [0%nat];
     log := [Clock_Now;
             BB_HeartbeatBatch
               [ {| hb_BuildId := 42; hb_LeaseKey := 7;
                    hb_LeaseExpirationTs := 1700003600000000 |} ];
             Clock_Now;
             BB_Lease 42 1700001800000000] |}.


(** Buildbucket answers every [UpdateBuild] with the error of an ended
    build. *)
Definition build_already_ended : Env :=
  with_bb2_UpdateBuild
    (fun _ _ _ _ _ =>
       Some (errors_New "rpc error: cannot update an ended build"))
    quiet.

(** * Predicates of the properties *)

(** [wp m w Q]: from [w], [m] returns without a panic, and its value and final
    state satisfy [Q]. *)
Definition wp {A : Type} (m : M A) (w : World) (Q : A -> World -> Prop) : Prop :=
  match m w with
  | Ret a w' => Q a w'
  | Panic _ => False
  end.

(** The condition under which [getActiveTryJobs] keeps a job. *)
Definition kept (j : Job) : bool :=
  (negb (BuildbucketLeaseKey j =? 0) || negb (String.eqb (BuildbucketToken j) ""))
  && negb (bool_decide (Status j = JOB_STATUS_REQUESTED)).

(** Every field of a job but the four that [localCancelJobs] sets. *)
Definition other_fields_equal (j j' : Job) : Prop :=
  BuildbucketBuildId j' = BuildbucketBuildId j /\
  BuildbucketPubSubTopic j' = BuildbucketPubSubTopic j /\
  BuildbucketToken j' = BuildbucketToken j /\
  Created j' = Created j /\
  Dependencies j' = Dependencies j /\
  Id j' = Id j /\
  IsForce j' = IsForce j /\
  Name j' = Name j /\
  Requested j' = Requested j /\
  Job_RepoState j' = Job_RepoState j /\
  Tasks j' = Tasks j.

(** [j'] is [j] after a local cancel for [reason] at time [now]. *)
Definition canceled_from (j j' : Job) (reason : string) (now : time) : Prop :=
  BuildbucketLeaseKey j' = 0 /\
  Status j' = JOB_STATUS_CANCELED /\
  StatusDetails j' = reason /\
  Finished j' = now /\
  other_fields_equal j j'.

(** [emits m w Q]: from [w], [m] returns without a panic, changes nothing but
    the record of calls, and its value and the calls it made satisfy [Q]. *)
Definition emits {A : Type} (m : M A) (w : World)
    (Q : A -> list Event -> Prop) : Prop :=
  exists a evs, m w = Ret a (set_log (log w ++ evs) w) /\ Q a evs.

(** A job with its lease key and its token cleared. *)
Definition cleared (j : Job) : Job :=
  set_BuildbucketToken "" (set_BuildbucketLeaseKey 0 j).

(** The heartbeats that [send] makes for a batch of jobs. *)
Definition heartbeats_of (expiration : Z) (js : list Job) : list OneHeartbeat :=
  (fun j => {| hb_BuildId := BuildbucketBuildId j;
               hb_LeaseKey := BuildbucketLeaseKey j;
               hb_LeaseExpirationTs := expiration |}) <$> js.

(** The number of jobs in a batch of [sendHeartbeats]. *)
Definition batch_size (jobs : list ptr) : nat :=
  if (length jobs <? LEASE_BATCH_SIZE)%nat
  then length jobs else LEASE_BATCH_SIZE.

(** What [startJob] keeps of a job while it prepares it. *)
Definition same_identity (j j' : Job) : Prop :=
  Id j' = Id j /\
  BuildbucketBuildId j' = BuildbucketBuildId j /\
  BuildbucketPubSubTopic j' = BuildbucketPubSubTopic j /\
  RepoState_Patch (Job_RepoState j') = RepoState_Patch (Job_RepoState j).

(** The calls of [startJobHelper]. *)
Definition helper_event (ev : Event) : Prop :=
  match ev with
  | Gerrit_GetIssueProperties _ | Chr_GetOrCacheRepoState _
  | TaskCfgCache_Get _ => True
  | _ => False
  end.

(** [w'] is [w] but for the object of [job], which has kept its identity, and
    for calls that satisfy [P]. *)
Definition prepared (P : Event -> Prop) (job : ptr) (j : Job) (w w' : World)
    : Prop :=
  db w' = db w /\ jCache w' = jCache w /\
  length (heap w') = length (heap w) /\
  (forall q, q <> job -> heap w' !! q = heap w !! q) /\
  (exists j', heap w' !! job = Some j' /\ same_identity j j') /\
  exists evs, log w' = log w ++ evs /\ Forall P evs.

(** [wpx m w Q R]: from [w], [m] returns a value and a state that satisfy
    [Q], or panics in a state that satisfies [R]. *)
Definition wpx {A : Type} (m : M A) (w : World) (Q : A -> World -> Prop)
    (R : World -> Prop) : Prop :=
  match m w with
  | Ret a w' => Q a w'
  | Panic w' => R w'
  end.

(** The calls with which [jobStarted] tells Buildbucket that a job has
    started. *)
Definition start_event (ev : Event) : Prop :=
  match ev with
  | BB_Start _ _ _ | BB2_StartBuild _ _ _ => True
  | _ => False
  end.

(** What a run of [startJob] leaves in the database for the job: the rows as
    they were, or a row for the job that is no longer REQUESTED. *)
Definition advanced_or_untouched (j : Job) (w w' : World) : Prop :=
  db w' = db w \/
  exists row, jobdb.find (Id j) (db w') = Some row /\
              Status row <> JOB_STATUS_REQUESTED.

(** The events of a run of [startJob] that rejects its job. *)
Definition rejection_event (j : Job) (ev : Event) : Prop :=
  match ev with
  | DB_GetJobById id => id = Id j
  | Gerrit_GetIssueProperties _ => True
  | DB_PutJob j' => Id j' = Id j /\ Status j' = JOB_STATUS_MISHAP
  | _ => False
  end.

(** The calls that are not a write to the job database. *)
Definition not_put (ev : Event) : Prop :=
  match ev with
  | DB_PutJob _ | DB_PutJobsInChunks _ => False
  | _ => True
  end.

(** The times of a job [j] that the intake of build [buildId] has made,
    between [w0] and [w'].  The intake has looked for a job of the build,
    fetched the build, and, for a build that was not scheduled, leased and
    canceled it ([probe]); it has then read the clock for the job, and read
    it again for the lease that follows.  [Created] is that first reading of
    the clock, fixed; [Requested] is the fixed creation time of the build as
    Buildbucket returned it when that is before [Created], and [Created]
    minus one unit of the resolution of timestamps otherwise. *)
Definition intake_stamped (E : Env) (L : Lib) (buildId : Z) (w0 w' : World)
    (j : Job) : Prop :=
  exists start end_ probe ex rest build requested,
    let hg := log w0 ++ [Clock_Now; DB_SearchJobs buildId start end_] in
    let hc := hg ++ BB2_GetBuild buildId :: probe in
    (probe = [] \/
     exists ex0 msg,
       probe = [Clock_Now; BB_Lease buildId ex0; BB_Cancel buildId msg]) /\
    log w' = hc ++ Clock_Now :: Clock_Now :: BB_Lease buildId ex :: rest /\
    bb2_GetBuild E hg buildId = Reply build /\
    ptypes_Timestamp L (b_CreateTime build) = Reply requested /\
    Created j = FixTimestamp L (now_Now E hc) /\
    Requested j = if FixTimestamp L requested <? Created j
                  then FixTimestamp L requested
                  else Created j - TS_RESOLUTION L.

(** The outcome of an intake, from [w0] to [w']: every job written to the
    database in between, the job object that was created, if any, and the row
    that was added, if any, have their times as [intake_stamped] says. *)
Definition intake_result (E : Env) (L : Lib) (buildId : Z) (w0 w' : World)
    : Prop :=
  (exists evs, log w' = log w0 ++ evs /\
     forall j, DB_PutJob j ∈ evs -> intake_stamped E L buildId w0 w' j) /\
  (heap w' = heap w0 \/
   exists jx, heap w' = heap w0 ++ [jx] /\
              intake_stamped E L buildId w0 w' jx) /\
  (db w' = db w0 \/
   exists jx, db w' = jobdb.upsert jx (db w0) /\
              intake_stamped E L buildId w0 w' jx).

Definition is_publish (ev : Event) : Prop :=
  match ev with
  | Pubsub_Publish _ _ _ => True
  | _ => False
  end.


(** A name that the groups of [pubsubRegex] accept: one or more characters
    of [[a-zA-Z_-]]. *)
Fixpoint topic_chars (s : string) : bool :=
  match s with
  | EmptyString => true
  | String c s' => topic_char c && topic_chars s'
  end.

Definition topic_name (s : string) : bool :=
  match s with
  | EmptyString => false
  | _ => topic_chars s
  end.

(** Where [sendPubSub] publishes the update of a job: the project and the
    topic of a fully-qualified topic, or the topic as it is in the project of
    the client. *)
Definition pubsub_target (E : Env) (j : Job) : string * string :=
  match pubsubRegex (BuildbucketPubSubTopic j) with
  | Some (project, topic) => (project, topic)
  | None => (pubsub_Project E, BuildbucketPubSubTopic j)
  end.

(** The message that [sendPubSub] publishes for a job, if the job can be
    encoded. *)
Definition published (E : Env) (L : Lib) (j : Job) : list Event :=
  match proto_Marshal_err L j with
  | Some _ => []
  | None =>
      [Pubsub_Publish (pubsub_target E j).1 (pubsub_target E j).2
         (BuildbucketBuildId j)]
  end.

(** A heartbeat result that [send] passes over: no error, or the error that
    the build is completed. *)
Definition benign (r : OneHeartbeatResult) : bool :=
  match hbr_Error r with
  | None => true
  | Some e => String.eqb (Reason e) BUILDBUCKET_API_ERROR_REASON_COMPLETED
  end.

(** Build ids in ascending order. *)
Fixpoint ascending (l : list Z) : bool :=
  match l with
  | a :: l' =>
      match l' with
      | b :: _ => (a <=? b) && ascending l'
      | [] => true
      end
  | [] => true
  end.

(** A heartbeat batch that went through: Buildbucket answered it with one
    result per heartbeat. *)
Definition answered (E : Env) (h : list Event) (hbs : list OneHeartbeat)
    : bool :=
  match bb_HeartbeatBatch E h hbs with
  | Reply results => (length results =? length hbs)%nat
  | Failed _ => false
  end.

(** A job as [insertNewJobV1] makes it for a build: REQUESTED, without
    token, topic, revision or end time. *)
Definition intake_new (buildId : Z) (j : Job) : Prop :=
  BuildbucketBuildId j = buildId /\ Status j = JOB_STATUS_REQUESTED /\
  BuildbucketToken j = "" /\ BuildbucketPubSubTopic j = "" /\
  Revision (Job_RepoState j) = "" /\ Finished j = time_zero.

(** From [w0] to [w1] nothing was written to the database. *)
Definition unwritten (w0 w1 : World) : Prop :=
  db w1 = db w0 /\ exists evs, log w1 = log w0 ++ evs /\ Forall not_put evs.

(** What an intake for a build leaves behind, from [w0] to [w']: nothing in
    the database, or one write, of a new job that holds the lease key of a
    lease granted before the write. *)
Definition intake_leased (E : Env) (buildId : Z) (w0 w' : World) : Prop :=
  unwritten w0 w' \/
  exists pre j post expiration,
    log w' = log w0 ++ pre ++ DB_PutJob j :: post /\
    Forall not_put pre /\ Forall not_put post /\
    BB_Lease buildId expiration ∈ pre /\
    intake_new buildId j /\ BuildbucketLeaseKey j <> 0 /\
    (db w' = db w0 \/
     db w' = jobdb.upsert
               (if String.eqb (Id j) ""
                then set_Id (db_newId E (log w0 ++ pre ++ [DB_PutJob j])) j
                else j) (db w0)).

(** The call with which a finished legacy job is reported to Buildbucket:
    [Succeed] for a job that succeeded, and [Fail] for the others, with
    INFRA_FAILURE for a MISHAP and BUILD_FAILURE otherwise. *)
Definition legacy_report (j : Job) : Event :=
  if bool_decide (Status j = JOB_STATUS_SUCCESS)
  then BB_Succeed (BuildbucketBuildId j) (BuildbucketLeaseKey j)
  else BB_Fail (BuildbucketBuildId j) (BuildbucketLeaseKey j)
         (if bool_decide (Status j = JOB_STATUS_MISHAP)
          then "INFRA_FAILURE" else "BUILD_FAILURE").

(** What Buildbucket answers to that call after the calls [h]. *)
Definition legacy_answer (E : Env) (h : list Event) (j : Job)
    : rpc (option LegacyApiErrorMessage) :=
  if bool_decide (Status j = JOB_STATUS_SUCCESS)
  then bb_Succeed E h (BuildbucketBuildId j) (BuildbucketLeaseKey j)
  else bb_Fail E h (BuildbucketBuildId j) (BuildbucketLeaseKey j)
         (if bool_decide (Status j = JOB_STATUS_MISHAP)
          then "INFRA_FAILURE" else "BUILD_FAILURE").

(** The calls of [buildbucketCleanup]: it reads the clocks, searches
    Buildbucket and the job database, and updates or cancels builds. *)
Definition cleanup_event (ev : Event) : Prop :=
  match ev with
  | Clock_Now | Time_Now | BB2_Search _ _ | DB_SearchJobs _ _ _
  | BB2_UpdateBuild _ _ _ _ | BB2_CancelBuild _ _ | Pubsub_Publish _ _ _ =>
      True
  | _ => False
  end.

(** [w'] is [w] with more calls made, all of them among [P]. *)
Definition log_only (P : Event -> Prop) (w w' : World) : Prop :=
  exists evs, w' = set_log (log w ++ evs) w /\ Forall P evs.

(** ** Further scenarios *)

Definition build_completed : LegacyApiErrorMessage :=
  {| Message := "build is completed";
     Reason := BUILDBUCKET_API_ERROR_REASON_COMPLETED |}.

(** Buildbucket answers every heartbeat with the error that the build is
    completed. *)
Definition heartbeats_find_completed : Env :=
  with_bb_HeartbeatBatch
    (fun _ hbs =>
       Reply ((fun _ => {| hbr_Error := Some build_completed |}) <$> hbs))
    quiet.

(** Buildbucket answers every heartbeat with the error that it does not know
    the build. *)
Definition heartbeats_rejected : Env :=
  with_bb_HeartbeatBatch
    (fun _ hbs =>
       Reply ((fun _ =>
                 {| hbr_Error := Some {| Message := "build not found";
                                         Reason := "BUILD_NOT_FOUND" |} |})
              <$> hbs))
    quiet.

(** The start notification of the asynchronous protocol fails in
    transport. *)
Definition start_times_out : Env :=
  with_bb2_StartBuild
    (fun _ _ _ _ => Failed (errors_New "context deadline exceeded")) quiet.

(** Buildbucket refuses the start of a legacy build. *)
Definition start_refused : Env :=
  with_bb_Start
    (fun _ _ _ _ =>
       Reply (Some {| Message := "build 42 has been canceled";
                      Reason := "BUILD_IS_COMPLETED" |}))
    quiet.

(** A REQUESTED job at a revision that its repository does not have. *)
Definition unknown_revision_job : Job :=
  set_Revision "deadbeef" (sample_job JOB_STATUS_REQUESTED).








(** A call that is not a batch of heartbeats. *)
Definition no_heartbeat (ev : Event) : Prop :=
  match ev with
  | BB_HeartbeatBatch _ => False
  | _ => True
  end.

(** A call that, if it is a batch of heartbeats, asks for every lease of the
    batch until [expiration]. *)
Definition beats_until (expiration : Z) (ev : Event) : Prop :=
  match ev with
  | BB_HeartbeatBatch hbs =>
      Forall (fun hb => hb_LeaseExpirationTs hb = expiration) hbs
  | _ => True
  end.

(** * Properties *)

(** ** Reasoning about computations *)

Lemma bind_unfold {A B : Type} (m : M A) (f : A -> M B) (w : World) :
  (m ≫= f) w = match m w with Ret a w' => f a w' | Panic w' => Panic w' end.
Proof. reflexivity. Qed.

Lemma ret_unfold {A : Type} (a : A) (w : World) : (mret a : M A) w = Ret a w.
Proof. reflexivity. Qed.

Lemma wp_ret {A : Type} (a : A) w (Q : A -> World -> Prop) :
  Q a w -> wp (mret a) w Q.
Proof. intros H. exact H. Qed.

Lemma wp_bind {A B : Type} (m : M A) (f : A -> M B) w (Q : B -> World -> Prop) :
  wp m w (fun a w' => wp (f a) w' Q) -> wp (m ≫= f) w Q.
Proof. unfold wp. rewrite bind_unfold. destruct (m w); auto. Qed.

Lemma wp_mono {A : Type} (m : M A) w (Q Q' : A -> World -> Prop) :
  wp m w Q -> (forall a w', Q a w' -> Q' a w') -> wp m w Q'.
Proof. unfold wp. destruct (m w); auto. Qed.

Lemma wp_elim {A : Type} (m : M A) w (Q : A -> World -> Prop) :
  wp m w Q -> exists a w', m w = Ret a w' /\ Q a w'.
Proof. unfold wp. destruct (m w); [eauto | tauto]. Qed.

Lemma wp_intro {A : Type} (m : M A) w a w' (Q : A -> World -> Prop) :
  m w = Ret a w' -> Q a w' -> wp m w Q.
Proof. unfold wp. intros ->. auto. Qed.

Lemma wp_gets {A : Type} (f : World -> A) w (Q : A -> World -> Prop) :
  Q (f w) w -> wp (gets f) w Q.
Proof. auto. Qed.

Lemma wp_update (f : World -> World) w (Q : unit -> World -> Prop) :
  Q tt (f w) -> wp (update f) w Q.
Proof. auto. Qed.

Lemma wp_call {A : Type} ev (answer : list Event -> A) w (Q : A -> World -> Prop) :
  Q (answer (log w)) (set_log (log w ++ [ev]) w) -> wp (call ev answer) w Q.
Proof. auto. Qed.

Lemma wp_load p j w (Q : Job -> World -> Prop) :
  heap w !! p = Some j -> Q j w -> wp (load p) w Q.
Proof. unfold wp, load. intros ->. auto. Qed.

Lemma wp_modify p f j w (Q : unit -> World -> Prop) :
  heap w !! p = Some j -> Q tt (set_heap (<[p := f j]> (heap w)) w) ->
  wp (modify p f) w Q.
Proof. unfold wp, modify. intros ->. auto. Qed.

Lemma wp_deref {A : Type} (o : option A) a w (Q : A -> World -> Prop) :
  o = Some a -> Q a w -> wp (deref o) w Q.
Proof. intros ->. auto. Qed.

Lemma wp_inv {A : Type} (m : M A) w a w' (Q : A -> World -> Prop) :
  wp m w Q -> m w = Ret a w' -> Q a w'.
Proof. unfold wp. intros H E. now rewrite E in H. Qed.

Lemma wp_eq {A : Type} (m : M A) w r (Q : A -> World -> Prop) :
  m w = r -> match r with Ret a w' => Q a w' | Panic _ => False end -> wp m w Q.
Proof. unfold wp. now intros ->. Qed.

Ltac wp_step :=
  lazymatch goal with
  | |- wp (mbind _ _) _ _ => apply wp_bind
  | |- wp (mret _) _ _ => apply wp_ret
  | |- wp (call _ _) _ _ => apply wp_call
  | |- wp (gets _) _ _ => apply wp_gets
  | |- wp (update _) _ _ => apply wp_update
  | |- wp history _ _ => apply wp_gets
  end.

Ltac wp_steps := repeat wp_step.

Ltac wp_red := cbv beta iota delta [skerr.Wrapf skerr.Fmt skerr.Wrap].

(** ** The job cache *)

Lemma allocAll_spec js : forall w,
  allocAll js w
  = Ret (seq (length (heap w)) (length js)) (set_heap (heap w ++ js) w).
Proof.
  induction js as [|j js IH]; intros w; simpl.
  - rewrite ret_unfold, app_nil_r. destruct w; reflexivity.
  - rewrite bind_unfold. unfold alloc at 1. rewrite bind_unfold, IH. simpl.
    rewrite ret_unfold, length_app. simpl. rewrite <- app_assoc. simpl.
    replace (length (heap w) + 1)%nat with (S (length (heap w))) by lia.
    reflexivity.
Qed.

Lemma kept_iff j :
  kept j = true <->
  (BuildbucketLeaseKey j <> 0 \/ BuildbucketToken j <> "")
  /\ Status j <> JOB_STATUS_REQUESTED.
Proof.
  unfold kept.
  rewrite andb_true_iff, orb_true_iff, !negb_true_iff, Z.eqb_neq,
    String.eqb_neq, bool_decide_eq_false. tauto.
Qed.

Lemma getActiveTryJobs_loop_spec jobs : forall rv w,
  Forall (fun p => is_Some (heap w !! p)) jobs ->
  getActiveTryJobs_loop jobs rv w
  = Ret (rv ++ List.filter
                 (fun p => match heap w !! p with
                           | Some j => kept j
                           | None => false
                           end) jobs) w.
Proof.
  induction jobs as [|p jobs IH]; intros rv w Hv; simpl.
  - now rewrite app_nil_r.
  - inversion Hv as [|? ? [j Hj] Hv']; subst.
    rewrite bind_unfold. unfold load. rewrite Hj. fold (kept j).
    destruct (kept j); rewrite IH by assumption.
    + now rewrite <- app_assoc.
    + reflexivity.
Qed.

Lemma wp_jCache_Update E w (Q : option error -> World -> Prop) :
  (forall e, jCache_Update_err E (log w) = Some e ->
     Q (Some e) (set_log (log w ++ [JCache_Update]) w)) ->
  (jCache_Update_err E (log w) = None ->
     Q None (set_jCache (seq (length (heap w)) (length (db w)))
               (set_heap (heap w ++ db w)
                  (set_log (log w ++ [JCache_Update]) w)))) ->
  wp (jCache_Update E) w Q.
Proof.
  intros He Hn. unfold jCache_Update. wp_steps.
  destruct (jCache_Update_err E (log w)) as [e|]; wp_steps.
  - now apply He.
  - eapply wp_intro; [apply allocAll_spec|]. wp_steps. now apply Hn.
Qed.

Lemma getActiveTryJobs_wp E w :
  wp (getActiveTryJobs E) w (fun r w' =>
    match r with
    | (rv, None) =>
        Forall (fun p => is_Some (heap w' !! p)) (jCache w') /\
        rv = List.filter (fun p => match heap w' !! p with
                                   | Some j => kept j
                                   | None => false
                                   end) (jCache w')
    | (rv, Some e) => rv = [] /\ jCache_Update_err E (log w) = Some e
    end).
Proof.
  unfold getActiveTryJobs. wp_step. apply wp_jCache_Update.
  - intros e He. wp_steps. auto.
  - intros _. wp_step. unfold jCache_GetAllCachedJobs. wp_step. wp_step.
    assert (Hv : Forall (fun p => is_Some ((heap w ++ db w) !! p))
                   (seq (length (heap w)) (length (db w)))).
    { apply Forall_forall. intros p Hp. apply elem_of_seq in Hp.
      apply lookup_lt_is_Some. rewrite length_app. lia. }
    eapply wp_intro; [apply getActiveTryJobs_loop_spec; exact Hv|].
    wp_steps. simpl. auto.
Qed.

Lemma getActiveTryJobs_returns E w :
  exists r w', getActiveTryJobs E w = Ret r w'.
Proof.
  destruct (wp_elim _ _ _ (getActiveTryJobs_wp E w)) as (r & w' & H & _).
  eauto.
Qed.

(** C5, as amended.  [getActiveTryJobs] returns, and when it returns no
    error a job of the cache is in its result if and only if it holds a
    non-zero lease key or a non-empty update token, and, in either case, its
    status is not REQUESTED: the status is asked of the jobs with a lease key
    too.  When the update of the cache fails the result is empty. *)
Theorem getActiveTryJobs_active E w :
  exists rv err w',
    getActiveTryJobs E w = Ret (rv, err) w' /\
    (err = None ->
     forall p j, p ∈ jCache w' -> heap w' !! p = Some j ->
       (p ∈ rv <->
        (BuildbucketLeaseKey j <> 0 \/ BuildbucketToken j <> "")
        /\ Status j <> JOB_STATUS_REQUESTED)) /\
    (err <> None -> rv = []).
Proof.
  destruct (wp_elim _ _ _ (getActiveTryJobs_wp E w))
    as ([rv err] & w' & Hrun & Hpost).
  exists rv, err, w'. split; [exact Hrun|].
  destruct err as [e|]; split.
  - discriminate.
  - intros _. now destruct Hpost.
  - intros _ p j Hp Hj. destruct Hpost as [_ ->].
    rewrite <- kept_iff, !list_elem_of_In, filter_In, Hj, <- list_elem_of_In.
    tauto.
  - congruence.
Qed.

(** ** Canceling jobs locally *)

Lemma localCancelJobs_loop_spec E reasons jobs : forall idx w,
  Forall (fun p => is_Some (heap w !! p)) jobs ->
  NoDup jobs ->
  (idx + length jobs <= length reasons)%nat ->
  wp (localCancelJobs_loop E idx jobs reasons) w (fun _ w' =>
    db w' = db w /\ jCache w' = jCache w /\
    length (heap w') = length (heap w) /\
    log w' = log w ++ replicate (length jobs) Clock_Now /\
    (forall q, q ∉ jobs -> heap w' !! q = heap w !! q) /\
    (forall i p j, jobs !! i = Some p -> heap w !! p = Some j ->
       exists j' reason,
         heap w' !! p = Some j' /\ reasons !! (idx + i)%nat = Some reason /\
         canceled_from j j' reason
           (now_Now E (log w ++ replicate i Clock_Now)))).
Proof.
  induction jobs as [|p jobs IH]; intros idx w Hv Hnd Hlen; simpl.
  - wp_step. repeat split; auto.
    + now rewrite app_nil_r.
    + intros i p j H. discriminate.
  - inversion Hv as [|? ? [jp Hjp] Hv']; subst.
    apply NoDup_cons in Hnd as [Hp Hnd].
    simpl in Hlen.
    destruct (lookup_lt_is_Some_2 reasons idx ltac:(lia)) as [reason Hr].
    assert (Hlt : (p < length (heap w))%nat)
      by (apply lookup_lt_is_Some; eauto).
    wp_step. unfold at_index. eapply wp_deref; [exact Hr|].
    wp_step. eapply wp_modify; [exact Hjp|].
    wp_step. eapply wp_modify;
      [simpl; apply list_lookup_insert_eq; exact Hlt|].
    wp_step. eapply wp_modify;
      [simpl; apply list_lookup_insert_eq; rewrite length_insert; exact Hlt|].
    wp_step. unfold Now. wp_step.
    wp_step. eapply wp_modify;
      [simpl; apply list_lookup_insert_eq; rewrite !length_insert; exact Hlt|].
    simpl. rewrite !list_insert_insert_eq.
    set (jp' := set_Finished _ _).
    set (w1 := set_heap _ _).
    assert (Hh1 : heap w1 = <[p := jp']> (heap w)) by reflexivity.
    assert (Hdb1 : db w1 = db w) by reflexivity.
    assert (Hc1 : jCache w1 = jCache w) by reflexivity.
    assert (Hlog1 : log w1 = log w ++ [Clock_Now]) by reflexivity.
    clearbody w1.
    eapply wp_mono.
    { apply (IH (S idx) w1).
      - eapply Forall_impl; [exact Hv'|]. intros q Hq. simpl in *.
        apply lookup_lt_is_Some. rewrite Hh1, length_insert.
        now apply lookup_lt_is_Some.
      - exact Hnd.
      - lia. }
    intros _ w' (Hdb & Hc & Hl & Hlog & Hframe & Hjobs).
    repeat split; try congruence.
    + now rewrite Hl, Hh1, length_insert.
    + now rewrite Hlog, Hlog1, <- app_assoc.
    + intros q Hq. apply not_elem_of_cons in Hq as [Hne Hq].
      rewrite (Hframe q Hq), Hh1. now apply list_lookup_insert_ne.
    + intros [|i] q j Hi Hj; simpl in Hi.
      * injection Hi as <-. rewrite Hjp in Hj. injection Hj as <-.
        exists jp', reason. split; [|split].
        -- rewrite (Hframe p Hp), Hh1. now apply list_lookup_insert_eq.
        -- now rewrite Nat.add_0_r.
        -- simpl. rewrite app_nil_r. repeat split; reflexivity.
      * assert (Hne : p <> q).
        { intros ->. apply Hp. eapply list_elem_of_lookup_2; eauto. }
        destruct (Hjobs i q j Hi) as (j' & r & H1 & H2 & H3).
        { rewrite Hh1. now rewrite list_lookup_insert_ne. }
        exists j', r. split; [exact H1|]. split.
        -- now replace (idx + S i)%nat with (S idx + i)%nat by lia.
        -- rewrite Hlog1, <- app_assoc in H3. exact H3.
Qed.

Lemma loadAll_spec ps : forall w,
  Forall (fun p => is_Some (heap w !! p)) ps ->
  exists js, loadAll ps w = Ret js w /\
             Forall2 (fun p j => heap w !! p = Some j) ps js.
Proof.
  induction ps as [|p ps IH]; intros w Hv; simpl.
  - exists []. split; [reflexivity | constructor].
  - inversion Hv as [|? ? [j Hj] Hv']; subst.
    destruct (IH w Hv') as (js & Hrun & Hjs).
    exists (j :: js). split; [|constructor; auto].
    rewrite bind_unfold. unfold load. rewrite Hj.
    rewrite bind_unfold, Hrun. reflexivity.
Qed.

Lemma wp_loadAll ps w (Q : list Job -> World -> Prop) :
  Forall (fun p => is_Some (heap w !! p)) ps ->
  (forall js, Forall2 (fun p j => heap w !! p = Some j) ps js -> Q js w) ->
  wp (loadAll ps) w Q.
Proof.
  intros Hv HQ. destruct (loadAll_spec ps w Hv) as (js & Hrun & Hjs).
  eapply wp_intro; eauto.
Qed.

Lemma wp_db_PutJobsInChunks E ps w (Q : option error -> World -> Prop) :
  Forall (fun p => is_Some (heap w !! p)) ps ->
  (forall js err w',
     Forall2 (fun p j => heap w !! p = Some j) ps js ->
     heap w' = heap w -> jCache w' = jCache w ->
     log w' = log w ++ [DB_PutJobsInChunks js] ->
     err = db_PutJobsInChunks_err E (log w) js ->
     db w' = match err with
             | Some _ => db w
             | None => fold_left (fun d j => jobdb.upsert j d) js (db w)
             end ->
     Q err w') ->
  wp (db_PutJobsInChunks E ps) w Q.
Proof.
  intros Hv HQ. unfold db_PutJobsInChunks. wp_step.
  apply wp_loadAll; [exact Hv|]. intros js Hjs. wp_steps.
  destruct (db_PutJobsInChunks_err E (log w) js) as [e|] eqn:He; wp_steps.
  - apply (HQ js); auto; now rewrite He.
  - apply (HQ js); auto; now rewrite He.
Qed.

(** C10.  [localCancelJobs], given as many reasons as jobs, sets four fields
    of every job it is passed: the lease key to zero, the status to CANCELED,
    the status details to the reason of the job and the finished time to the
    current time, which is the clock as it is read for that job: the clock is
    read once for every job, in the order of the jobs, and nothing else is
    called before the write.  Every other field, the update token among them,
    keeps its value, no other job object is touched, and the batch handed to
    the database holds the jobs as they then are, so with their tokens. *)
Theorem localCancelJobs_frame E jobs reasons w :
  length jobs = length reasons ->
  Forall (fun p => is_Some (heap w !! p)) jobs ->
  NoDup jobs ->
  exists err w' js,
    localCancelJobs E jobs reasons w = Ret err w' /\
    log w' = log w ++ replicate (length jobs) Clock_Now
                   ++ [DB_PutJobsInChunks js] /\
    (forall q, q ∉ jobs -> heap w' !! q = heap w !! q) /\
    (forall i p j, jobs !! i = Some p -> heap w !! p = Some j ->
       exists j' reason,
         heap w' !! p = Some j' /\ js !! i = Some j' /\
         reasons !! i = Some reason /\
         BuildbucketLeaseKey j' = 0 /\
         Status j' = JOB_STATUS_CANCELED /\
         StatusDetails j' = reason /\
         Finished j' = now_Now E (log w ++ replicate i Clock_Now) /\
         BuildbucketToken j' = BuildbucketToken j /\
         other_fields_equal j j').
Proof.
  intros Hlen Hv Hnd.
  enough (Hwp : wp (localCancelJobs E jobs reasons) w (fun err w' =>
    exists js,
      log w' = log w ++ replicate (length jobs) Clock_Now
                     ++ [DB_PutJobsInChunks js] /\
      (forall q, q ∉ jobs -> heap w' !! q = heap w !! q) /\
      (forall i p j, jobs !! i = Some p -> heap w !! p = Some j ->
         exists j' reason,
           heap w' !! p = Some j' /\ js !! i = Some j' /\
           reasons !! i = Some reason /\
           BuildbucketLeaseKey j' = 0 /\
           Status j' = JOB_STATUS_CANCELED /\
           StatusDetails j' = reason /\
           Finished j' = now_Now E (log w ++ replicate i Clock_Now) /\
           BuildbucketToken j' = BuildbucketToken j /\
           other_fields_equal j j'))).
  { destruct (wp_elim _ _ _ Hwp) as (err & w' & Hrun & js & H).
    exists err, w', js. tauto. }
  unfold localCancelJobs.
  assert (Hsame : (length jobs =? length reasons)%nat = true)
    by now apply Nat.eqb_eq.
  rewrite Hsame. simpl. wp_step.
  eapply wp_mono.
  { apply (localCancelJobs_loop_spec E reasons jobs 0 w Hv Hnd). lia. }
  intros _ w1 (Hdb & Hc & Hl & Hlog & Hframe & Hjobs).
  assert (Hv1 : Forall (fun p => is_Some (heap w1 !! p)) jobs).
  { eapply Forall_impl; [exact Hv|]. intros q Hq. simpl in *.
    apply lookup_lt_is_Some. rewrite Hl. now apply lookup_lt_is_Some. }
  wp_step. apply wp_db_PutJobsInChunks; [exact Hv1|].
  intros js err w2 Hjs Hh2 Hc2 Hlog2 _ _.
  assert (Hfinal : forall w3, heap w3 = heap w2 -> log w3 = log w2 ->
    exists js0,
      log w3 = log w ++ replicate (length jobs) Clock_Now
                     ++ [DB_PutJobsInChunks js0] /\
      (forall q, q ∉ jobs -> heap w3 !! q = heap w !! q) /\
      (forall i p j, jobs !! i = Some p -> heap w !! p = Some j ->
         exists j' reason,
           heap w3 !! p = Some j' /\ js0 !! i = Some j' /\
           reasons !! i = Some reason /\
           BuildbucketLeaseKey j' = 0 /\
           Status j' = JOB_STATUS_CANCELED /\
           StatusDetails j' = reason /\
           Finished j' = now_Now E (log w ++ replicate i Clock_Now) /\
           BuildbucketToken j' = BuildbucketToken j /\
           other_fields_equal j j')).
  { intros w3 Hh3 Hlog3. exists js. repeat split.
    - now rewrite Hlog3, Hlog2, Hlog, <- app_assoc.
    - intros q Hq. rewrite Hh3, Hh2. now apply Hframe.
    - intros i p j Hi Hj.
      destruct (Hjobs i p j Hi Hj) as (j' & r & H1 & H2 & H3).
      exists j', r. rewrite Hh3, Hh2.
      destruct H3 as (? & ? & ? & ? & Hother).
      split; [exact H1|]. split.
      { destruct (Forall2_lookup_l _ _ _ _ _ Hjs Hi) as (j2 & Hj2 & Hp2).
        congruence. }
      split; [exact H2|]. repeat (split; [assumption|]).
      split; [apply Hother | exact Hother]. }
  destruct err as [e|]; wp_steps.
  - now apply Hfinal.
  - unfold jCache_AddJobs. wp_steps. now apply Hfinal.
Qed.

Lemma localCancelJobs_mismatch E jobs reasons w :
  length jobs <> length reasons ->
  localCancelJobs E jobs reasons w
  = Ret (skerr.Fmt "expected jobs and reasons to have the same length") w.
Proof.
  intros H. unfold localCancelJobs.
  apply Nat.eqb_neq in H. now rewrite H.
Qed.

(** ** Computations that only make calls *)

Lemma set_log_nil w : set_log (log w ++ []) w = w.
Proof. rewrite app_nil_r. now destruct w. Qed.

Lemma emits_ret {A : Type} (a : A) w (Q : A -> list Event -> Prop) :
  Q a [] -> emits (mret a) w Q.
Proof. intros H. exists a, []. now rewrite set_log_nil. Qed.

Lemma emits_call {A : Type} ev (answer : list Event -> A) w
    (Q : A -> list Event -> Prop) :
  Q (answer (log w)) [ev] -> emits (call ev answer) w Q.
Proof. intros H. exists (answer (log w)), [ev]. auto. Qed.

Lemma emits_bind {A B : Type} (m : M A) (f : A -> M B) w
    (Q : B -> list Event -> Prop) :
  emits m w (fun a evs =>
    emits (f a) (set_log (log w ++ evs) w) (fun b evs' => Q b (evs ++ evs'))) ->
  emits (m ≫= f) w Q.
Proof.
  intros (a & evs & Hm & b & evs' & Hf & HQ).
  exists b, (evs ++ evs'). split; [|exact HQ].
  rewrite bind_unfold, Hm, Hf. simpl. now rewrite app_assoc.
Qed.

Lemma emits_mono {A : Type} (m : M A) w (Q Q' : A -> list Event -> Prop) :
  emits m w Q -> (forall a evs, Q a evs -> Q' a evs) -> emits m w Q'.
Proof. intros (a & evs & Hm & HQ) H. exists a, evs. auto. Qed.

Lemma emits_log {A : Type} (m : M A) w h (Q : A -> list Event -> Prop) :
  emits m (set_log h w) Q -> log (set_log h w) = h -> emits m (set_log h w) Q.
Proof. auto. Qed.

Lemma wp_emits {A : Type} (m : M A) w (Q : A -> World -> Prop) :
  emits m w (fun a evs => Q a (set_log (log w ++ evs) w)) -> wp m w Q.
Proof. intros (a & evs & Hm & HQ). eapply wp_intro; eauto. Qed.

Ltac emits_step :=
  lazymatch goal with
  | |- emits (mbind _ _) _ _ => apply emits_bind
  | |- emits (mret _) _ _ => apply emits_ret
  | |- emits (call _ _) _ _ => apply emits_call
  | |- emits (match ?x with _ => _ end) _ _ => destruct x eqn:?
  | |- emits (if ?x then _ else _) _ _ => destruct x eqn:?
  | |- emits (let '(_, _) := ?x in _) _ _ => destruct x eqn:?
  end.

(** The calls that tell Buildbucket that a job has finished. *)
Lemma sendPubSub_emits E L j w :
  emits (sendPubSub E L j) w (fun _ _ => True).
Proof. unfold sendPubSub. repeat emits_step; auto. Qed.

Lemma jobFinished_emits E L j w :
  emits (jobFinished E L j) w (fun _ _ => True).
Proof.
  unfold jobFinished, cancelBuild, updateBuild, buildSucceededV1, buildFailed,
    sendPubSub.
  repeat emits_step; auto.
Qed.

(** ** The completion reconciler *)

Lemma updateJobs_finished_spec E L finished : forall errs insert w,
  Forall (fun p => is_Some (heap w !! p)) finished ->
  NoDup finished ->
  wp (updateJobs_finished E L finished errs insert) w (fun r w' =>
    db w' = db w /\ jCache w' = jCache w /\
    length (heap w') = length (heap w) /\
    (exists evs, log w' = log w ++ evs) /\
    (forall q, q ∉ finished -> heap w' !! q = heap w !! q) /\
    exists new,
      snd r = insert ++ new /\
      (forall q, q ∈ new -> q ∈ finished) /\
      (forall p j, p ∈ finished -> heap w !! p = Some j ->
         exists w0 err w0',
           (exists evs, log w0 = log w ++ evs) /\
           jobFinished E L j w0 = Ret err w0' /\
           match err with
           | None => p ∈ new /\ heap w' !! p = Some (cleared j)
           | Some _ => (p ∉ new) /\ heap w' !! p = Some j
           end)).
Proof.
  induction finished as [|p finished IH]; intros errs insert w Hv Hnd; simpl.
  - wp_step. do 3 (split; [reflexivity|]).
    split; [exists []; now rewrite app_nil_r|]. split; [auto|].
    exists []. split; [simpl; now rewrite app_nil_r|].
    split; [intros q Hq; inversion Hq | intros p j Hp; inversion Hp].
  - inversion Hv as [|? ? [jp Hjp] Hv']; subst.
    apply NoDup_cons in Hnd as [Hp Hnd].
    assert (Hlt : (p < length (heap w))%nat)
      by (apply lookup_lt_is_Some; eauto).
    wp_step. eapply wp_load; [exact Hjp|].
    wp_step.
    destruct (jobFinished_emits E L jp w) as (err & evs & Hrun & _).
    eapply wp_intro; [exact Hrun|].
    set (w1 := set_log (log w ++ evs) w) in *.
    destruct err as [e|].
    + (* the notification failed *)
      eapply wp_mono; [apply (IH _ insert w1 Hv' Hnd)|].
      intros r w' (Hdb & Hc & Hl & (evs' & Hlog) & Hframe & new & Hr & Hsub & Hjobs).
      do 3 (split; [assumption|]).
      split; [exists (evs ++ evs'); rewrite Hlog; simpl; now rewrite app_assoc|].
      split.
      { intros q Hq. apply not_elem_of_cons in Hq as [_ Hq]. now apply Hframe. }
      exists new. split; [exact Hr|]. split.
      { intros q Hq. apply elem_of_cons. right. now apply Hsub. }
      intros q j Hq Hj. apply elem_of_cons in Hq as [->|Hq].
      * rewrite Hjp in Hj. injection Hj as <-.
        exists w, (Some e), w1. split; [exists []; now rewrite app_nil_r|].
        split; [exact Hrun|]. split.
        -- intros Hin. apply Hp. now apply Hsub.
        -- rewrite (Hframe p Hp). exact Hjp.
      * destruct (Hjobs q j Hq Hj) as (w0 & err2 & w0' & [evs2 Hl0] & Hrun2 & Hres).
        exists w0, err2, w0'. split; [|split; assumption].
        exists (evs ++ evs2). rewrite Hl0. simpl. now rewrite app_assoc.
    + (* the notification succeeded *)
      wp_step. eapply wp_modify; [exact Hjp|].
      wp_step. eapply wp_modify;
        [simpl; apply list_lookup_insert_eq; exact Hlt|].
      simpl. rewrite list_insert_insert_eq. fold (cleared jp).
      set (w2 := set_heap _ _).
      assert (Hh2 : heap w2 = <[p := cleared jp]> (heap w)) by reflexivity.
      assert (Hdb2 : db w2 = db w) by reflexivity.
      assert (Hc2 : jCache w2 = jCache w) by reflexivity.
      assert (Hlog2 : log w2 = log w ++ evs) by reflexivity.
      assert (Hv2 : Forall (fun q => is_Some (heap w2 !! q)) finished).
      { eapply Forall_impl; [exact Hv'|]. intros q Hq. simpl in Hq.
        apply lookup_lt_is_Some. rewrite Hh2, length_insert.
        now apply lookup_lt_is_Some. }
      eapply wp_mono; [apply (IH errs (insert ++ [p]) w2 Hv2 Hnd)|].
      clearbody w2.
      intros r w' (Hdb & Hc & Hl & (evs' & Hlog) & Hframe & new & Hr & Hsub & Hjobs).
      split; [congruence|]. split; [congruence|].
      split; [now rewrite Hl, Hh2, length_insert|].
      split; [exists (evs ++ evs'); rewrite Hlog, Hlog2; now rewrite app_assoc|].
      split.
      { intros q Hq. apply not_elem_of_cons in Hq as [Hne Hq].
        rewrite (Hframe q Hq), Hh2. now apply list_lookup_insert_ne. }
      exists (p :: new). split; [now rewrite Hr, <- app_assoc|]. split.
      { intros q Hq. apply elem_of_cons in Hq as [->|Hq];
          apply elem_of_cons; auto. }
      intros q j Hq Hj. apply elem_of_cons in Hq as [->|Hq].
      * rewrite Hjp in Hj. injection Hj as <-.
        exists w, None, w1. split; [exists []; now rewrite app_nil_r|].
        split; [exact Hrun|]. split.
        -- apply elem_of_cons. now left.
        -- rewrite (Hframe p Hp), Hh2. now apply list_lookup_insert_eq.
      * assert (Hne : p <> q) by (intros ->; contradiction).
        destruct (Hjobs q j Hq) as (w0 & err2 & w0' & [evs2 Hl0] & Hrun2 & Hres).
        { rewrite Hh2. now rewrite list_lookup_insert_ne. }
        exists w0, err2, w0'. split.
        { exists (evs ++ evs2). rewrite Hl0, Hlog2. now rewrite app_assoc. }
        split; [exact Hrun2|].
        destruct err2; destruct Hres as [Hin Hheap]; split; auto.
        -- intros Hc'. apply elem_of_cons in Hc' as [->|Hc']; auto.
        -- apply elem_of_cons. now right.
Qed.

Lemma Contains_append_l a s substr :
  Contains s substr = true -> Contains (a +:+ s) substr = true.
Proof.
  intros H. induction a as [|c a IH]; simpl; [exact H|].
  rewrite IH. apply orb_true_r.
Qed.

Lemma Contains_Wrapf e ctx substr :
  Contains (Error e) substr = true ->
  match skerr.Wrapf (Some e) ctx with
  | Some e' => Contains (Error e') substr = true
  | None => False
  end.
Proof.
  intros H. simpl. unfold Error. simpl. fold (Error e).
  apply Contains_append_l. now apply Contains_append_l.
Qed.






Lemma updateJobs_divide_spec jobs : forall finished u1 u2 w,
  Forall (fun p => is_Some (heap w !! p)) jobs ->
  exists finished' u1' u2',
    updateJobs_divide jobs finished u1 u2 w
    = Ret (finished ++ finished', u1 ++ u1', u2 ++ u2') w /\
    finished' = List.filter (fun p => match heap w !! p with
                                      | Some j => Done j
                                      | None => false
                                      end) jobs.
Proof.
  induction jobs as [|p jobs IH]; intros finished u1 u2 w Hv; simpl.
  - exists [], [], []. rewrite !app_nil_r. split; reflexivity.
  - inversion Hv as [|? ? [j Hj] Hv']; subst.
    rewrite bind_unfold. unfold load. rewrite Hj.
    destruct (Done j).
    + destruct (IH (finished ++ [p]) u1 u2 w Hv') as (f' & a' & b' & Hrun & Hf).
      exists (p :: f'), a', b'. rewrite Hrun, <- app_assoc.
      split; [reflexivity | now rewrite Hf].
    + destruct (isBBv2 j).
      * destruct (IH finished u1 (u2 ++ [p]) w Hv') as (f' & a' & b' & Hrun & Hf).
        exists f', a', (p :: b'). rewrite Hrun, <- app_assoc.
        split; [reflexivity | exact Hf].
      * destruct (IH finished (u1 ++ [p]) u2 w Hv') as (f' & a' & b' & Hrun & Hf).
        exists f', (p :: a'), b'. rewrite Hrun, <- app_assoc.
        split; [reflexivity | exact Hf].
Qed.

(** The finished jobs that [updateJobs] hands to its reconciler are distinct
    job objects, terminal and active. *)
Lemma updateJobs_finished_jobs E w jobs w1 :
  getActiveTryJobs E w = Ret (jobs, None) w1 ->
  exists finished u1 u2,
    updateJobs_divide jobs [] [] [] w1 = Ret (finished, u1, u2) w1 /\
    NoDup finished /\
    Forall (fun p => exists j, heap w1 !! p = Some j /\ Done j = true /\
                               kept j = true) finished.
Proof.
  intros Hrun.
  pose proof (wp_inv _ _ _ _ _ (getActiveTryJobs_wp E w) Hrun) as Hact.
  cbv beta iota in Hact. destruct Hact as [Hv Hjobs].
  assert (Hnd : NoDup (jCache w1)).
  { assert (Hc : wp (getActiveTryJobs E) w (fun r w' =>
              r.2 = None -> NoDup (jCache w'))).
    { unfold getActiveTryJobs. wp_step. apply wp_jCache_Update.
      - intros e He. wp_steps. discriminate.
      - intros _. wp_step. unfold jCache_GetAllCachedJobs. wp_step. wp_step.
        assert (Hv0 : Forall (fun p => is_Some ((heap w ++ db w) !! p))
                        (seq (length (heap w)) (length (db w)))).
        { apply Forall_forall. intros p Hp. apply elem_of_seq in Hp.
          apply lookup_lt_is_Some. rewrite length_app. lia. }
        eapply wp_intro; [apply getActiveTryJobs_loop_spec; exact Hv0|].
        wp_steps. intros _. simpl. apply NoDup_seq. }
    apply (wp_inv _ _ _ _ _ Hc Hrun). reflexivity. }
  assert (Hvj : Forall (fun p => is_Some (heap w1 !! p)) jobs).
  { rewrite Hjobs. apply Forall_forall. intros p Hp.
    apply list_elem_of_In, filter_In in Hp as [Hp _].
    rewrite Forall_forall in Hv. apply Hv. now apply list_elem_of_In. }
  destruct (updateJobs_divide_spec jobs [] [] [] w1 Hvj)
    as (finished & u1 & u2 & Hdiv & Hf).
  exists finished, u1, u2. split; [exact Hdiv|].
  assert (Hndj : NoDup jobs).
  { rewrite Hjobs. apply NoDup_ListNoDup, List.NoDup_filter.
    now apply NoDup_ListNoDup. }
  split.
  - rewrite Hf. apply NoDup_ListNoDup, List.NoDup_filter.
    now apply NoDup_ListNoDup.
  - rewrite Hf. apply Forall_forall. intros p Hp.
    apply list_elem_of_In, filter_In in Hp as [Hp Hd].
    rewrite Hjobs in Hp. apply filter_In in Hp as [_ Hk].
    destruct (heap w1 !! p) as [j|]; [|discriminate]. eauto.
Qed.

(** ** Heartbeats *)

Lemma loadAll_eq ps js w :
  Forall2 (fun p j => heap w !! p = Some j) ps js -> loadAll ps w = Ret js w.
Proof.
  intros Hjs.
  assert (Hv : Forall (fun p => is_Some (heap w !! p)) ps).
  { clear -Hjs. induction Hjs; constructor; eauto. }
  destruct (loadAll_spec ps w Hv) as (js' & Hrun & Hjs').
  rewrite Hrun. f_equal.
  clear -Hjs Hjs'. revert js' Hjs'.
  induction Hjs; intros js' Hjs'; inversion Hjs'; subst; [reflexivity|].
  f_equal; [congruence | auto].
Qed.

Lemma send_results_spec jobs results : forall i retry cj cr w,
  (i + length results <= length jobs)%nat ->
  wp (send_results i results jobs retry cj cr) w (fun r w' =>
    w' = w /\
    (forall q, q ∈ r.1.1 -> q ∈ retry \/ q ∈ jobs) /\
    (forall q, q ∈ r.1.2 -> q ∈ cj \/ q ∈ jobs) /\
    (length cj = length cr -> length r.1.2 = length r.2)).
Proof.
  induction results as [|result results IH]; intros i retry cj cr w Hlen; simpl.
  - wp_step. simpl. auto.
  - simpl in Hlen.
    destruct (lookup_lt_is_Some_2 jobs i ltac:(lia)) as [job Hjob].
    assert (Hin : job ∈ jobs) by (eapply list_elem_of_lookup_2; eauto).
    destruct (hbr_Error result) as [resultError|].
    2: { apply IH. lia. }
    destruct (String.eqb (Reason resultError) _).
    { apply IH. lia. }
    destruct (String.eqb (Reason resultError) _).
    + wp_step. unfold at_index. eapply wp_deref; [exact Hjob|].
      eapply wp_mono; [apply IH; lia|].
      intros [[r1 r2] r3] w' (-> & H1 & H2 & H3). simpl in *.
      repeat split; auto.
      intros q Hq. destruct (H1 q Hq) as [Hq'|]; auto.
      apply elem_of_app in Hq' as [|Hq']; auto.
      apply list_elem_of_singleton in Hq'. subst. auto.
    + wp_step. unfold at_index. eapply wp_deref; [exact Hjob|].
      eapply wp_mono; [apply IH; lia|].
      intros [[r1 r2] r3] w' (-> & H1 & H2 & H3). simpl in *.
      repeat split; auto.
      * intros q Hq. destruct (H2 q Hq) as [Hq'|]; auto.
        apply elem_of_app in Hq' as [|Hq']; auto.
        apply list_elem_of_singleton in Hq'. subst. auto.
      * intros Hl. apply H3. rewrite !length_app. simpl. lia.
Qed.

(** [localCancelJobs] does not panic when there are as many reasons as jobs
    (the jobs need not be distinct) and leaves the heap its size. *)
Lemma localCancelJobs_loop_returns E reasons jobs : forall idx w,
  Forall (fun p => is_Some (heap w !! p)) jobs ->
  (idx + length jobs <= length reasons)%nat ->
  wp (localCancelJobs_loop E idx jobs reasons) w (fun _ w' =>
    length (heap w') = length (heap w)).
Proof.
  induction jobs as [|p jobs IH]; intros idx w Hv Hlen; simpl.
  - wp_step. reflexivity.
  - inversion Hv as [|? ? [jp Hjp] Hv']; subst. simpl in Hlen.
    destruct (lookup_lt_is_Some_2 reasons idx ltac:(lia)) as [reason Hr].
    assert (Hlt : (p < length (heap w))%nat)
      by (apply lookup_lt_is_Some; eauto).
    wp_step. unfold at_index. eapply wp_deref; [exact Hr|].
    wp_step. eapply wp_modify; [exact Hjp|].
    wp_step. eapply wp_modify;
      [simpl; apply list_lookup_insert_eq; exact Hlt|].
    wp_step. eapply wp_modify;
      [simpl; apply list_lookup_insert_eq; rewrite length_insert; exact Hlt|].
    wp_step. unfold Now. wp_step.
    wp_step. eapply wp_modify;
      [simpl; apply list_lookup_insert_eq; rewrite !length_insert; exact Hlt|].
    simpl. rewrite !list_insert_insert_eq.
    eapply wp_mono.
    { apply IH; [|lia]. eapply Forall_impl; [exact Hv'|].
      intros q Hq. simpl in *. apply lookup_lt_is_Some.
      rewrite length_insert. now apply lookup_lt_is_Some. }
    simpl. intros _ w' ->. now rewrite length_insert.
Qed.

Lemma localCancelJobs_returns E jobs reasons w :
  Forall (fun p => is_Some (heap w !! p)) jobs ->
  wp (localCancelJobs E jobs reasons) w (fun _ w' =>
    length (heap w') = length (heap w)).
Proof.
  intros Hv. unfold localCancelJobs.
  destruct (Nat.eqb_spec (length jobs) (length reasons)) as [Hlen|Hlen]; simpl.
  2: { wp_step. reflexivity. }
  wp_step. eapply wp_mono;
    [apply (localCancelJobs_loop_returns E reasons jobs 0 w Hv); lia|].
  intros [] w1 Hl. simpl.
  wp_step. apply wp_db_PutJobsInChunks.
  { eapply Forall_impl; [exact Hv|]. intros q Hq. simpl in *.
    apply lookup_lt_is_Some. rewrite Hl. now apply lookup_lt_is_Some. }
  intros js err w2 _ Hh2 _ _ _ _.
  destruct err; wp_steps; [congruence|].
  unfold jCache_AddJobs. wp_steps. simpl. congruence.
Qed.

(** [tryLeaseV1Build] returns an error or an answer of Buildbucket, never
    both. *)
Lemma tryLeaseV1Build_emits E id w :
  emits (tryLeaseV1Build E id) w (fun r evs =>
    (exists expiration, evs = [Clock_Now; BB_Lease id expiration]) /\
    match r with
    | (leaseKey, bbError, Some _) => leaseKey = 0 /\ bbError = None
    | (_, _, None) => True
    end).
Proof.
  unfold tryLeaseV1Build, Now. repeat emits_step; simpl; eauto.
Qed.

(** The loop of [send] that leases again never cancels: the condition of its
    cancel branch asks for a transport error and an answer of Buildbucket at
    once, which [tryLeaseV1Build] never returns.  Whatever the lease call
    gives, the lists of jobs and builds to cancel come back as they went in,
    and no job is touched but the ones that are leased again. *)
Lemma send_retry_spec E retry : forall cj cr cb w,
  Forall (fun p => is_Some (heap w !! p)) retry ->
  wp (send_retry E retry cj cr cb) w (fun r w' =>
    r = (cj, cr, cb) /\
    length (heap w') = length (heap w) /\
    db w' = db w /\ jCache w' = jCache w /\
    (forall q, q ∉ retry -> heap w' !! q = heap w !! q) /\
    exists evs, log w' = log w ++ evs /\
      Forall (fun ev => ev = Clock_Now \/ exists id ex, ev = BB_Lease id ex) evs).
Proof.
  induction retry as [|p retry IH]; intros cj cr cb w Hv; simpl.
  - wp_step. repeat split; auto. exists []. now rewrite app_nil_r.
  - inversion Hv as [|? ? [jp Hjp] Hv']; subst.
    wp_step. eapply wp_load; [exact Hjp|].
    wp_step.
    destruct (tryLeaseV1Build_emits E (BuildbucketBuildId jp) w)
      as ([[leaseKey bbError] err] & evs & Hrun & [ex ->] & Hres).
    eapply wp_intro; [exact Hrun|].
    assert (Hdead : notnil err && notnil bbError = false).
    { destruct err; [|reflexivity]. destruct Hres as [_ ->]. reflexivity. }
    cbv beta iota. rewrite Hdead.
    wp_step. eapply wp_modify; [exact Hjp|].
    set (w2 := set_heap _ _).
    assert (Hh2 : heap w2 = <[p := set_BuildbucketLeaseKey leaseKey jp]> (heap w))
      by reflexivity.
    assert (Hdb2 : db w2 = db w) by reflexivity.
    assert (Hc2 : jCache w2 = jCache w) by reflexivity.
    assert (Hlog2 : log w2 = log w ++ [Clock_Now; BB_Lease (BuildbucketBuildId jp) ex])
      by reflexivity.
    clearbody w2.
    eapply wp_mono.
    { apply (IH cj cr cb w2). eapply Forall_impl; [exact Hv'|].
      intros q Hq. simpl in *. apply lookup_lt_is_Some.
      rewrite Hh2, length_insert. now apply lookup_lt_is_Some. }
    intros r w' (-> & Hl & Hdb & Hc & Hframe & evs & Hlog & Hevs).
    split; [reflexivity|]. split; [now rewrite Hl, Hh2, length_insert|].
    split; [congruence|]. split; [congruence|]. split.
    + intros q Hq. apply not_elem_of_cons in Hq as [Hne Hq].
      rewrite (Hframe q Hq), Hh2. now apply list_lookup_insert_ne.
    + exists ([Clock_Now; BB_Lease (BuildbucketBuildId jp) ex] ++ evs).
      split; [now rewrite Hlog, Hlog2, <- app_assoc|].
      apply Forall_app. split; [|exact Hevs].
      constructor; [now left|]. constructor; [right; eauto|constructor].
Qed.

Lemma remoteCancelV1Build_emits E L id msg w :
  emits (remoteCancelV1Build E L id msg) w (fun _ _ => True).
Proof. unfold remoteCancelV1Build. repeat emits_step; auto. Qed.

Lemma send_cancel_emits E L cancelBuilds : forall errs w,
  emits (send_cancel E L cancelBuilds errs) w (fun errs' _ =>
    exists more, errs' = errs ++ more).
Proof.
  induction cancelBuilds as [|id rest IH]; intros errs w; simpl.
  - emits_step. exists []. now rewrite app_nil_r.
  - emits_step. eapply emits_mono; [apply remoteCancelV1Build_emits|].
    intros err evs _. eapply emits_mono; [apply IH|].
    intros errs' evs' [more ->]. simpl.
    destruct (skerr.Wrapf err _); simpl; eauto.
    rewrite <- app_assoc. eauto.
Qed.

Lemma append_error_extends errs err : exists more, append_error errs err = errs ++ more.
Proof.
  destruct err; simpl; eauto. exists []. now rewrite app_nil_r.
Qed.

(** [send] does not panic. *)
Lemma send_returns E L expiration jobs errs w :
  Forall (fun p => is_Some (heap w !! p)) jobs ->
  wp (send E L expiration jobs errs) w (fun errs' w' =>
    length (heap w') = length (heap w) /\ exists more, errs' = errs ++ more).
Proof.
  intros Hv. unfold send.
  wp_step. apply wp_loadAll; [exact Hv|]. intros js Hjs.
  wp_step. wp_step.
  destruct (bb_HeartbeatBatch E (log w) _) as [results|e].
  2: { wp_step. split; [reflexivity|]. apply append_error_extends. }
  destruct (Nat.eqb_spec (length results) (length jobs)) as [Hlen|Hlen]; simpl.
  2: { wp_step. split; [reflexivity|]. eauto. }
  set (w1 := set_log _ w).
  assert (Hv1 : Forall (fun p => is_Some (heap w1 !! p)) jobs) by exact Hv.
  assert (Hl1 : length (heap w1) = length (heap w)) by reflexivity.
  clearbody w1.
  wp_step. eapply wp_mono; [apply send_results_spec; lia|].
  intros [[retry cj] cr] w1' (-> & Hretry & Hcj & Hlencj). simpl in *.
  assert (Hvr : Forall (fun p => is_Some (heap w1 !! p)) retry).
  { apply Forall_forall. intros q Hq. rewrite Forall_forall in Hv1.
    destruct (Hretry q Hq) as [Hq'|Hq']; [inversion Hq' | auto]. }
  assert (Hvc : Forall (fun p => is_Some (heap w1 !! p)) cj).
  { apply Forall_forall. intros q Hq. rewrite Forall_forall in Hv1.
    destruct (Hcj q Hq) as [Hq'|Hq']; [inversion Hq' | auto]. }
  wp_step.
  eapply (wp_mono _ _ (fun r w2 =>
    r.1.1 = cj /\ r.1.2 = cr /\ length (heap w2) = length (heap w1))).
  { destruct (0 <? length retry)%nat.
    - eapply wp_mono; [apply send_retry_spec; exact Hvr|].
      intros r w2 (-> & Hl & _). simpl. auto.
    - wp_step. simpl. auto. }
  intros [[cj' cr'] cb] w2 (Hcj' & Hcr' & Hl2). simpl in *. subst cj' cr'.
  assert (Hvc2 : Forall (fun p => is_Some (heap w2 !! p)) cj).
  { eapply Forall_impl; [exact Hvc|]. intros q Hq. simpl in *.
    apply lookup_lt_is_Some. rewrite Hl2. now apply lookup_lt_is_Some. }
  wp_step.
  eapply (wp_mono _ _ (fun errs' w3 =>
    length (heap w3) = length (heap w2) /\ exists more, errs' = errs ++ more)).
  { destruct (0 <? length cj)%nat.
    - wp_step. eapply wp_mono; [apply localCancelJobs_returns; exact Hvc2|].
      intros err w3 Hl3. wp_step. split; [exact Hl3|].
      apply append_error_extends.
    - wp_step. split; [reflexivity|]. exists []. now rewrite app_nil_r. }
  intros errs' w3 (Hl3 & more & ->).
  destruct (0 <? length cb)%nat.
  - apply wp_emits. eapply emits_mono; [apply send_cancel_emits|].
    intros errs'' evs [more' ->]. simpl. split; [congruence|].
    exists (more ++ more'). now rewrite app_assoc.
  - wp_step. split; [congruence|]. eauto.
Qed.

Lemma bind_ext {A B : Type} (m : M A) (f g : A -> M B) w :
  (forall a w', f a w' = g a w') -> (m ≫= f) w = (m ≫= g) w.
Proof. intros H. rewrite !bind_unfold. destruct (m w); auto. Qed.

Lemma batch_size_min jobs :
  batch_size jobs = Nat.min LEASE_BATCH_SIZE (length jobs).
Proof.
  unfold batch_size.
  destruct (Nat.ltb_spec (length jobs) LEASE_BATCH_SIZE); lia.
Qed.

Lemma batch_size_pos jobs : jobs <> [] -> (0 < batch_size jobs)%nat.
Proof.
  intros H. rewrite batch_size_min. unfold LEASE_BATCH_SIZE.
  destruct jobs; [contradiction | simpl; lia].
Qed.

(** The loop over the batches ends because the jobs run out, not the rounds:
    with at least as many rounds as jobs, the number of rounds does not
    matter. *)
Lemma sendHeartbeats_batches_rounds E L expiration : forall n m jobs errs w,
  (length jobs <= n)%nat -> (length jobs <= m)%nat ->
  sendHeartbeats_batches E L n expiration jobs errs w
  = sendHeartbeats_batches E L m expiration jobs errs w.
Proof.
  induction n as [|n IH]; intros m jobs errs w Hn Hm.
  - destruct jobs; [|simpl in Hn; lia]. destruct m; reflexivity.
  - destruct m as [|m].
    { destruct jobs; [|simpl in Hm; lia]. reflexivity. }
    cbn [sendHeartbeats_batches].
    destruct (Nat.ltb_spec 0 (length jobs)) as [Hpos|]; [|reflexivity].
    fold (batch_size jobs).
    assert (Hb : (0 < batch_size jobs)%nat).
    { apply batch_size_pos. intros ->. simpl in Hpos. lia. }
    apply bind_ext. intros errs' w'.
    apply IH; rewrite length_drop; lia.
Qed.

Lemma sendHeartbeats_batches_returns E L expiration : forall rounds jobs errs w,
  Forall (fun p => is_Some (heap w !! p)) jobs ->
  wp (sendHeartbeats_batches E L rounds expiration jobs errs) w
    (fun errs' w' =>
       length (heap w') = length (heap w) /\ exists more, errs' = errs ++ more).
Proof.
  induction rounds as [|rounds IH]; intros jobs errs w Hv;
    cbn [sendHeartbeats_batches].
  - wp_step. split; [reflexivity|]. exists []. now rewrite app_nil_r.
  - destruct (0 <? length jobs)%nat.
    2: { wp_step. split; [reflexivity|]. exists []. now rewrite app_nil_r. }
    fold (batch_size jobs). wp_step.
    eapply wp_mono.
    { apply send_returns. now apply Forall_take. }
    intros errs1 w1 (Hl1 & more1 & ->).
    eapply wp_mono.
    { apply IH. apply Forall_drop. eapply Forall_impl; [exact Hv|].
      intros q Hq. simpl in *. apply lookup_lt_is_Some. rewrite Hl1.
      now apply lookup_lt_is_Some. }
    intros errs2 w2 (Hl2 & more2 & ->). split; [congruence|].
    exists (more1 ++ more2). now rewrite app_assoc.
Qed.

Lemma insert_by_id_perm x l : insert_by_id x l ≡ₚ x :: l.
Proof.
  induction l as [|y l IH]; simpl; [reflexivity|].
  destruct (snd y <=? snd x); [|reflexivity].
  rewrite IH. apply Permutation_swap.
Qed.

Lemma sort_by_id_perm l : sort_by_id l ≡ₚ l.
Proof.
  unfold sort_by_id.
  enough (H : forall acc, fold_left (fun acc x => insert_by_id x acc) l acc
                          ≡ₚ acc ++ l).
  { now rewrite H. }
  induction l as [|x l IH]; intros acc; simpl.
  - now rewrite app_nil_r.
  - rewrite IH, insert_by_id_perm. simpl. apply Permutation_middle.
Qed.

Lemma sortJobs_spec jobs w :
  Forall (fun p => is_Some (heap w !! p)) jobs ->
  exists sorted, sortJobs jobs w = Ret sorted w /\ sorted ≡ₚ jobs.
Proof.
  intros Hv. unfold sortJobs.
  destruct (loadAll_spec jobs w Hv) as (js & Hrun & Hjs).
  rewrite bind_unfold, Hrun. eexists. split; [reflexivity|].
  rewrite sort_by_id_perm. rewrite fst_zip; [reflexivity|].
  rewrite length_fmap. apply Forall2_length in Hjs. lia.
Qed.

(** [sendHeartbeats] returns, whatever Buildbucket answers. *)
Lemma sendHeartbeats_returns E L jobs w :
  Forall (fun p => is_Some (heap w !! p)) jobs ->
  exists r w', sendHeartbeats E L jobs w = Ret r w'.
Proof.
  intros Hv.
  enough (Hwp : wp (sendHeartbeats E L jobs) w (fun _ _ => True)).
  { destruct (wp_elim _ _ _ Hwp) as (r & w' & H & _). eauto. }
  unfold sendHeartbeats.
  destruct (sortJobs_spec jobs w Hv) as (sorted & Hrun & Hperm).
  wp_step. eapply wp_intro; [exact Hrun|].
  wp_step. unfold Now. wp_step. wp_step.
  eapply wp_mono.
  { apply sendHeartbeats_batches_returns. simpl. now rewrite Hperm. }
  intros errs w' _. destruct (0 <? length errs)%nat; wp_step; exact I.
Qed.

(** C7.  When the result list of a heartbeat batch does not have the length
    of the batch, [send] records one error for the batch and returns: no
    result of the batch is processed (no job object, database row or cache
    entry changes, and no call but the heartbeat itself is made), nothing
    panics, and the loop of [sendHeartbeats] goes on with the jobs after the
    batch and returns with the error among its errors. *)
Theorem send_mismatch E L expiration jobs errs w js results rounds :
  let n := Nat.min LEASE_BATCH_SIZE (length jobs) in
  let batch := take n jobs in
  let w' :=
    set_log (log w ++ [BB_HeartbeatBatch (heartbeats_of expiration js)]) w in
  jobs <> [] ->
  Forall (fun p => is_Some (heap w !! p)) jobs ->
  Forall2 (fun p j => heap w !! p = Some j) batch js ->
  bb_HeartbeatBatch E (log w) (heartbeats_of expiration js) = Reply results ->
  length results <> length batch ->
  exists e,
    send E L expiration batch errs w = Ret (errs ++ [e]) w' /\
    sendHeartbeats_batches E L (S rounds) expiration jobs errs w
    = sendHeartbeats_batches E L rounds expiration (drop n jobs)
        (errs ++ [e]) w' /\
    exists errs' w'',
      sendHeartbeats_batches E L (S rounds) expiration jobs errs w
      = Ret errs' w'' /\ e ∈ errs'.
Proof.
  intros n batch w' Hne Hv Hjs Hresp Hlen.
  set (e := errors_New
              ("Heartbeat result has incorrect number of jobs ("
               +:+ fmt_d (Z.of_nat (length results)) +:+ " vs "
               +:+ fmt_d (Z.of_nat (length batch)) +:+ ")")).
  assert (Hsend : send E L expiration batch errs w = Ret (errs ++ [e]) w').
  { unfold send. rewrite bind_unfold, (loadAll_eq _ _ _ Hjs).
    fold (heartbeats_of expiration js).
    rewrite bind_unfold. unfold call at 1. rewrite Hresp.
    apply Nat.eqb_neq in Hlen. rewrite Hlen. reflexivity. }
  assert (Hloop :
    sendHeartbeats_batches E L (S rounds) expiration jobs errs w
    = sendHeartbeats_batches E L rounds expiration (drop n jobs)
        (errs ++ [e]) w').
  { cbn [sendHeartbeats_batches].
    assert (Hnz : (0 <? length jobs)%nat = true).
    { apply Nat.ltb_lt. destruct jobs; [contradiction | simpl; lia]. }
    rewrite Hnz. fold (batch_size jobs). rewrite batch_size_min.
    fold n. fold batch. rewrite bind_unfold, Hsend. reflexivity. }
  exists e. split; [exact Hsend|]. split; [exact Hloop|].
  rewrite Hloop.
  assert (Hv' : Forall (fun p => is_Some (heap w' !! p)) (drop n jobs)).
  { apply Forall_drop. exact Hv. }
  destruct (wp_elim _ _ _
              (sendHeartbeats_batches_returns E L expiration rounds
                 (drop n jobs) (errs ++ [e]) w' Hv'))
    as (errs' & w'' & Hrun & _ & more & ->).
  exists ((errs ++ [e]) ++ more), w''. split; [exact Hrun|].
  apply elem_of_app. left. apply elem_of_app. right.
  now apply list_elem_of_singleton.
Qed.

(** Results without an error change nothing in the loop of [send] over the
    results. *)
Lemma send_results_no_error results jobs : forall i retry cj cr w,
  Forall (fun r => hbr_Error r = None) results ->
  send_results i results jobs retry cj cr w = Ret (retry, cj, cr) w.
Proof.
  induction results as [|r results IH]; intros i retry cj cr w Hq; simpl.
  - reflexivity.
  - inversion Hq as [|? ? Hr Hq']; subst. rewrite Hr. now apply IH.
Qed.

(** With one LEASE_EXPIRED result among results without an error, the loop
    over the results asks for one new lease, for the job at the index of that
    result. *)
Lemma send_results_one_expired pre result post resultError jobs p :
  forall i retry cj cr w,
  Forall (fun r => hbr_Error r = None) pre ->
  Forall (fun r => hbr_Error r = None) post ->
  hbr_Error result = Some resultError ->
  Reason resultError = BUILDBUCKET_API_ERROR_REASON_LEASE_EXPIRED ->
  jobs !! (i + length pre)%nat = Some p ->
  send_results i (pre ++ result :: post) jobs retry cj cr w
  = Ret (retry ++ [p], cj, cr) w.
Proof.
  induction pre as [|r pre IH]; intros i retry cj cr w Hpre Hpost He Hr Hp;
    simpl.
  - rewrite He, Hr. simpl. rewrite bind_unfold. unfold at_index, deref.
    rewrite Nat.add_0_r in Hp. rewrite Hp.
    now apply send_results_no_error.
  - inversion Hpre as [|? ? Hr0 Hpre']; subst. rewrite Hr0.
    apply IH; auto. simpl in Hp. now rewrite <- Nat.add_succ_comm in Hp.
Qed.

(** C2.  A batch in which Buildbucket rejects exactly one heartbeat, that of
    job [p], with LEASE_EXPIRED, the other results carrying no error: [send]
    asks for one new lease, for the build of [p], and whatever that lease
    gives, a failure in transport or a refusal of Buildbucket included, it
    records no error, cancels nothing (no write to the database, no cancel
    sent to Buildbucket, the status of [p] as it was) and stores the lease
    key that came back in [p], which is zero when the lease failed in
    transport.  No other job object changes. *)
Theorem send_release_never_cancels
    E L expiration jobs js errs w pre result post resultError p j
    leaseKey bbError err w2 :
  let hb := BB_HeartbeatBatch (heartbeats_of expiration js) in
  Forall2 (fun p j => heap w !! p = Some j) jobs js ->
  bb_HeartbeatBatch E (log w) (heartbeats_of expiration js)
  = Reply (pre ++ result :: post) ->
  length (pre ++ result :: post) = length jobs ->
  Forall (fun r => hbr_Error r = None) pre ->
  Forall (fun r => hbr_Error r = None) post ->
  hbr_Error result = Some resultError ->
  Reason resultError = BUILDBUCKET_API_ERROR_REASON_LEASE_EXPIRED ->
  jobs !! length pre = Some p ->
  heap w !! p = Some j ->
  tryLeaseV1Build E (BuildbucketBuildId j) (set_log (log w ++ [hb]) w)
  = Ret (leaseKey, bbError, err) w2 ->
  (exists lease_expiration,
     send E L expiration jobs errs w
     = Ret errs
         (set_heap (<[p := set_BuildbucketLeaseKey leaseKey j]> (heap w))
            (set_log (log w ++ [hb; Clock_Now;
                                BB_Lease (BuildbucketBuildId j)
                                  lease_expiration]) w)))
  /\ (err <> None -> leaseKey = 0 /\ bbError = None).
Proof.
  intros hb Hjs Hresp Hlen Hpre Hpost He Hr Hp Hj Hlease.
  destruct (tryLeaseV1Build_emits E (BuildbucketBuildId j)
              (set_log (log w ++ [hb]) w))
    as (r & evs & Hrun & [ex ->] & Hres).
  rewrite Hlease in Hrun. injection Hrun as <- ->.
  assert (Hdead : notnil err && notnil bbError = false).
  { destruct err; [|reflexivity]. destruct Hres as [_ ->]. reflexivity. }
  split.
  2: { intros Herr. destruct err; [exact Hres | contradiction]. }
  exists ex.
  unfold send. rewrite bind_unfold, (loadAll_eq _ _ _ Hjs).
  fold (heartbeats_of expiration js). fold hb.
  rewrite bind_unfold. unfold call at 1. rewrite Hresp.
  apply Nat.eqb_eq in Hlen. rewrite Hlen. cbn [negb].
  rewrite bind_unfold.
  rewrite (send_results_one_expired pre result post resultError jobs p);
    auto.
  cbv beta iota. cbn [app length Nat.ltb Nat.leb].
  rewrite bind_unfold. cbn [send_retry].
  rewrite bind_unfold. unfold load at 1. cbn [heap set_log]. rewrite Hj.
  rewrite bind_unfold, Hlease. cbv beta iota. rewrite Hdead.
  rewrite bind_unfold. unfold modify at 1. cbn [heap set_log]. rewrite Hj.
  rewrite ret_unfold. cbv beta iota. cbn [length Nat.ltb Nat.leb].
  rewrite bind_unfold, ret_unfold. cbv beta iota.
  cbn [length Nat.ltb Nat.leb]. rewrite ret_unfold.
  f_equal. destruct w; simpl. rewrite <- app_assoc. reflexivity.
Qed.

(** ** Starting a job *)

Lemma same_identity_refl j : same_identity j j.
Proof. repeat split. Qed.

Lemma prepared_refl P job j w :
  heap w !! job = Some j -> prepared P job j w w.
Proof.
  intros Hj. repeat split; auto.
  - exists j. split; [exact Hj | apply same_identity_refl].
  - exists []. now rewrite app_nil_r.
Qed.

Lemma prepared_call P job j w w1 ev :
  prepared P job j w w1 -> P ev ->
  prepared P job j w (set_log (log w1 ++ [ev]) w1).
Proof.
  intros (Hdb & Hc & Hl & Hf & Hj & evs & Hlog & Hevs) HP.
  repeat split; auto.
  exists (evs ++ [ev]). split.
  - simpl. now rewrite Hlog, app_assoc.
  - apply Forall_app. split; [exact Hevs | now constructor].
Qed.

Lemma prepared_modify P job j w w1 j1 f :
  prepared P job j w w1 -> heap w1 !! job = Some j1 ->
  (forall x, same_identity j x -> same_identity j (f x)) ->
  prepared P job j w (set_heap (<[job := f j1]> (heap w1)) w1).
Proof.
  intros (Hdb & Hc & Hl & Hf & (j' & Hj' & Hid) & evs & Hlog & Hevs) Hj1 Hpres.
  assert (Hlt : (job < length (heap w1))%nat)
    by (apply lookup_lt_is_Some; eauto).
  split; [exact Hdb|]. split; [exact Hc|].
  split; [simpl; now rewrite length_insert|].
  split; [intros q Hq; simpl; rewrite list_lookup_insert_ne; auto|].
  split; [|exists evs; auto].
  exists (f j1). split; [simpl; now apply list_lookup_insert_eq|].
  apply Hpres. congruence.
Qed.

Lemma prepared_weaken (P P' : Event -> Prop) job j w w' :
  prepared P job j w w' -> (forall ev, P ev -> P' ev) -> prepared P' job j w w'.
Proof.
  intros (Hdb & Hc & Hl & Hf & Hj & evs & Hlog & Hevs) HP.
  repeat split; auto. exists evs. split; [exact Hlog|].
  eapply Forall_impl; eauto.
Qed.

Lemma wp_load_prepared P job j w w1 (Q : Job -> World -> Prop) :
  prepared P job j w w1 ->
  (forall j1, heap w1 !! job = Some j1 -> same_identity j j1 -> Q j1 w1) ->
  wp (load job) w1 Q.
Proof.
  intros Hp HQ. destruct Hp as (_ & _ & _ & _ & (j' & Hj' & Hid) & _).
  eapply wp_load; eauto.
Qed.

Lemma wp_modify_prepared P job j w w1 f (Q : unit -> World -> Prop) :
  prepared P job j w w1 ->
  (forall x, same_identity j x -> same_identity j (f x)) ->
  (forall w2, prepared P job j w w2 ->
     (forall j1, heap w1 !! job = Some j1 -> heap w2 !! job = Some (f j1)) ->
     Q tt w2) ->
  wp (modify job f) w1 Q.
Proof.
  intros Hp Hpres HQ.
  pose proof Hp as (_ & _ & _ & _ & (j' & Hj' & Hid) & _).
  eapply wp_modify; [exact Hj'|]. apply HQ.
  - eapply prepared_modify; eauto.
  - intros j1 Hj1. simpl. rewrite Hj1 in Hj'. injection Hj' as ->.
    apply list_lookup_insert_eq. apply lookup_lt_is_Some. eauto.
Qed.

Lemma wp_call_prepared {A : Type} P job j w w1 ev (answer : list Event -> A)
    (Q : A -> World -> Prop) :
  prepared P job j w w1 -> P ev ->
  (forall w2, prepared P job j w w2 -> Q (answer (log w1)) w2) ->
  wp (call ev answer) w1 Q.
Proof.
  intros Hp HP HQ. apply wp_call. apply HQ. now apply prepared_call.
Qed.

Lemma same_identity_skip j j' :
  same_identity j j' ->
  skipRepoState (Job_RepoState j') = skipRepoState (Job_RepoState j).
Proof. intros (_ & _ & _ & Hp). unfold skipRepoState. now rewrite Hp. Qed.

Ltac same_id :=
  let x := fresh in
  let H := fresh in
  intros x H; destruct H as (? & ? & ? & ?); repeat split; simpl; assumption.

(** [startJobHelper] does not panic, touches no object but its job, writes
    nothing to the database and calls nothing but Gerrit, the cacher and the
    task configuration cache.  For a job on the denylist of [skipRepoState] it
    returns an error, and then only Gerrit may have been called. *)
Lemma startJobHelper_spec E L t job j w :
  heap w !! job = Some j ->
  wp (startJobHelper E L t job) w (fun err w' =>
    prepared helper_event job j w w' /\
    (skipRepoState (Job_RepoState j) = true ->
     err <> None /\
     prepared (fun ev => exists issue, ev = Gerrit_GetIssueProperties issue)
       job j w w')).
Proof.
  intros Hj.
  set (G := fun ev => exists issue, ev = Gerrit_GetIssueProperties issue).
  assert (HG : forall ev, G ev -> helper_event ev).
  { intros ev [issue ->]. exact I. }
  unfold startJobHelper.
  wp_step. eapply wp_load; [exact Hj|].
  unfold getRepo. destruct (rm t (Repo (Job_RepoState j))) as [repoGraph|].
  2: { wp_red. wp_step.
       split; [apply prepared_refl; exact Hj|].
       intros _. split; [discriminate | apply prepared_refl; exact Hj]. }
  wp_red. wp_step. eapply wp_deref; [reflexivity|]. wp_step.
  (* resolving the revision *)
  eapply (wp_mono _ _ (fun err w1 => prepared G job j w w1)).
  { destruct (String.eqb (Revision (Job_RepoState j)) "").
    - wp_step. unfold getRevision.
      destruct (ParseInt _) as [issueNum|].
      2: { wp_step. wp_red. wp_step. apply prepared_refl; exact Hj. }
      wp_step.
      eapply (wp_call_prepared G job j w w); [apply prepared_refl; exact Hj| |].
      { now exists issueNum. }
      intros w2 Hp2.
      destruct (gerrit_GetIssueProperties E (log w) issueNum) as [branch|e].
      2: { wp_step. wp_red. wp_step. exact Hp2. }
      destruct (repoGraph branch) as [hash|].
      2: { wp_step. wp_red. wp_step. exact Hp2. }
      wp_step. wp_red. wp_step.
      eapply (wp_modify_prepared G job j w); [exact Hp2|same_id|].
      intros w3 Hp3 _. wp_step. exact Hp3.
    - destruct (repoGraph (Revision (Job_RepoState j))) as [hash|].
      2: { wp_step. apply prepared_refl; exact Hj. }
      wp_step.
      eapply (wp_modify_prepared G job j w); [apply prepared_refl; exact Hj|same_id|].
      intros w3 Hp3 _. wp_step. exact Hp3. }
  intros err w1 Hp1.
  destruct err as [e|].
  { wp_step. split; [eapply prepared_weaken; eauto|].
    intros _. split; [discriminate | exact Hp1]. }
  wp_step. eapply wp_load_prepared; [exact Hp1|]. intros j1 Hj1 Hid1.
  rewrite (same_identity_skip _ _ Hid1).
  destruct (skipRepoState (Job_RepoState j)) eqn:Hskip.
  { rewrite orb_true_r. wp_step.
    split; [eapply prepared_weaken; eauto|].
    intros _. split; [discriminate | exact Hp1]. }
  assert (Hp1' : prepared helper_event job j w w1)
    by (eapply prepared_weaken; eauto).
  assert (Hdone : forall (err : option error) w',
    prepared helper_event job j w w' ->
    prepared helper_event job j w w' /\
    (false = true -> err <> None /\ prepared G job j w w')).
  { intros err w' Hp. split; [exact Hp | discriminate]. }
  rewrite orb_false_r.
  destruct (negb (Valid L (Job_RepoState j1)) || negb (IsTryJob L (Job_RepoState j1))).
  { wp_step. now apply Hdone. }
  wp_step.
  eapply (wp_call_prepared helper_event job j w w1); [exact Hp1'|exact I|].
  intros w2 Hp2.
  destruct (chr_GetOrCacheRepoState E (log w1) (Job_RepoState j1)).
  { wp_step. now apply Hdone. }
  wp_step.
  eapply (wp_call_prepared helper_event job j w w2); [exact Hp2|exact I|].
  intros w3 Hp3.
  destruct (taskCfgCache_Get E (log w2) (Job_RepoState j1)) as [[cfg cachedErr]|e].
  2: { wp_step. now apply Hdone. }
  destruct cachedErr as [cachedErr|].
  { wp_step. now apply Hdone. }
  destruct (cfg (Name j1)) as [[deps|e]|].
  2, 3: wp_step; now apply Hdone.
  wp_step. eapply (wp_modify_prepared helper_event job j w); [exact Hp3|same_id|].
  intros w4 Hp4 _.
  wp_step. eapply (wp_modify_prepared helper_event job j w); [exact Hp4|same_id|].
  intros w5 Hp5 _.
  wp_step. unfold jCache_GetJobsByRepoState.
  destruct (jCache_GetJobsByRepoState_err E (Name j1) (Job_RepoState j1)).
  { wp_step. wp_red. wp_step. now apply Hdone. }
  wp_steps. wp_red.
  destruct (0 <? length _)%nat.
  - eapply (wp_modify_prepared helper_event job j w); [exact Hp5|same_id|].
    intros w6 Hp6 _. wp_step. now apply Hdone.
  - now apply Hdone.
Qed.

Lemma wpx_bind {A B : Type} (m : M A) (f : A -> M B) w
    (Q : B -> World -> Prop) (R : World -> Prop) :
  wpx m w (fun a w' => wpx (f a) w' Q R) R -> wpx (m ≫= f) w Q R.
Proof. unfold wpx. rewrite bind_unfold. destruct (m w); auto. Qed.

Lemma wpx_wp {A : Type} (m : M A) w (Q : A -> World -> Prop)
    (R : World -> Prop) :
  wp m w Q -> wpx m w Q R.
Proof. unfold wp, wpx. destruct (m w); tauto. Qed.

Lemma wpx_ret {A : Type} (a : A) w (Q : A -> World -> Prop)
    (R : World -> Prop) :
  Q a w -> wpx (mret a) w Q R.
Proof. auto. Qed.

Lemma wpx_deref {A : Type} (o : option A) w (Q : A -> World -> Prop)
    (R : World -> Prop) :
  match o with Some a => Q a w | None => R w end -> wpx (deref o) w Q R.
Proof. destruct o; auto. Qed.

Lemma wpx_intro {A : Type} (m : M A) w a w' (Q : A -> World -> Prop)
    (R : World -> Prop) :
  m w = Ret a w' -> Q a w' -> wpx m w Q R.
Proof. unfold wpx. now intros ->. Qed.

Lemma wpx_ret_inv {A : Type} (m : M A) w a w' (Q : A -> World -> Prop)
    (R : World -> Prop) :
  wpx m w Q R -> m w = Ret a w' -> Q a w'.
Proof. unfold wpx. intros H Hm. now rewrite Hm in H. Qed.

(** [jobStarted] makes one call, and returns an error or an answer of
    Buildbucket, never both. *)
Lemma jobStarted_emits E L t j w :
  emits (jobStarted E L t j) w (fun r evs =>
    (exists ev, evs = [ev] /\ start_event ev) /\
    (r.2 <> None -> r.1.2 = None)).
Proof.
  unfold jobStarted. repeat emits_step; simpl; split; eauto; try congruence.
  all: eexists; split; [reflexivity | exact I].
Qed.

Lemma find_upsert j rows : jobdb.find (Id j) (jobdb.upsert j rows) = Some j.
Proof.
  unfold jobdb.find. induction rows as [|r rows IH]; simpl.
  - now rewrite String.eqb_refl.
  - destruct (String.eqb (Id r) (Id j)) eqn:Heq; simpl.
    + now rewrite String.eqb_refl.
    + now rewrite Heq.
Qed.

(** [localCancelJobs] for one job. *)
Lemma localCancelJobs_single E job reason j w :
  heap w !! job = Some j ->
  let now := now_Now E (log w) in
  let j' := set_Finished now
              (set_StatusDetails reason
                 (set_Status JOB_STATUS_CANCELED
                    (set_BuildbucketLeaseKey 0 j))) in
  wp (localCancelJobs E [job] [reason]) w (fun err w' =>
    err = db_PutJobsInChunks_err E (log w ++ [Clock_Now]) [j'] /\
    heap w' = <[job := j']> (heap w) /\
    log w' = log w ++ [Clock_Now; DB_PutJobsInChunks [j']] /\
    db w' = match err with
            | Some _ => db w
            | None => jobdb.upsert j' (db w)
            end).
Proof.
  intros Hj now j'.
  assert (Hlt : (job < length (heap w))%nat)
    by (apply lookup_lt_is_Some; eauto).
  unfold localCancelJobs. cbn [length Nat.eqb negb localCancelJobs_loop].
  wp_step. wp_step. unfold at_index. eapply wp_deref; [reflexivity|].
  wp_step. eapply wp_modify; [exact Hj|].
  wp_step. eapply wp_modify;
    [simpl; apply list_lookup_insert_eq; exact Hlt|].
  wp_step. eapply wp_modify;
    [simpl; apply list_lookup_insert_eq; rewrite length_insert; exact Hlt|].
  wp_step. unfold Now. wp_step.
  wp_step. eapply wp_modify;
    [simpl; apply list_lookup_insert_eq; rewrite !length_insert; exact Hlt|].
  cbn [heap log set_heap set_log]. rewrite !list_insert_insert_eq.
  fold now. fold j'. wp_step. wp_step.
  apply wp_db_PutJobsInChunks.
  { constructor; [|constructor]. simpl.
    rewrite list_lookup_insert_eq by exact Hlt. eauto. }
  intros js err w2 Hjs Hh2 Hc2 Hlog2 Herr Hdb2.
  assert (Hjs' : js = [j']).
  { inversion Hjs as [|? ? ? ? Hx Hy]; subst. inversion Hy; subst.
    simpl in Hx. rewrite list_lookup_insert_eq in Hx by exact Hlt.
    now injection Hx as ->. }
  subst js. simpl in Herr, Hdb2, Hlog2, Hh2.
  assert (Hfinal : forall w3, heap w3 = heap w2 -> log w3 = log w2 ->
            db w3 = db w2 ->
            err = db_PutJobsInChunks_err E (log w ++ [Clock_Now]) [j'] /\
            heap w3 = <[job := j']> (heap w) /\
            log w3 = log w ++ [Clock_Now; DB_PutJobsInChunks [j']] /\
            db w3 = match err with
                    | Some _ => db w
                    | None => jobdb.upsert j' (db w)
                    end).
  { intros w3 H1 H2 H3. split; [exact Herr|].
    split; [rewrite H1; exact Hh2|].
    split; [rewrite H2, Hlog2; now rewrite <- app_assoc|].
    rewrite H3, Hdb2. reflexivity. }
  destruct err as [e|]; wp_steps.
  - now apply Hfinal.
  - unfold jCache_AddJobs. wp_steps. now apply Hfinal.
Qed.

Lemma wp_db_PutJob E p j w (Q : option error -> World -> Prop) :
  heap w !! p = Some j ->
  (forall err w' j',
     j' = (if String.eqb (Id j) ""
           then set_Id (db_newId E (log w ++ [DB_PutJob j])) j else j) ->
     err = db_PutJob_err E (log w) j ->
     heap w' = match err with
               | Some _ => heap w
               | None => <[p := j']> (heap w)
               end ->
     jCache w' = jCache w ->
     log w' = log w ++ [DB_PutJob j] ->
     db w' = match err with
             | Some _ => db w
             | None => jobdb.upsert j' (db w)
             end ->
     Q err w') ->
  wp (db_PutJob E p) w Q.
Proof.
  intros Hj HQ.
  assert (Hlt : (p < length (heap w))%nat)
    by (apply lookup_lt_is_Some; eauto).
  unfold db_PutJob. wp_step. eapply wp_load; [exact Hj|].
  wp_step. wp_step.
  destruct (db_PutJob_err E (log w) j) as [e|] eqn:He.
  { wp_step. eapply HQ; reflexivity. }
  wp_step. wp_step. wp_step. cbn [log set_log].
  destruct (String.eqb (Id j) "") eqn:Hid.
  - eapply wp_modify; [exact Hj|]. wp_step.
    eapply wp_load; [simpl; apply list_lookup_insert_eq; exact Hlt|].
    wp_steps. eapply HQ; try reflexivity.
  - wp_step. wp_step. eapply wp_load; [exact Hj|].
    wp_steps. eapply HQ; try reflexivity.
    simpl. now rewrite list_insert_id.
Qed.

(** The last step of [startJob]: update the job and insert into the DB. *)
Lemma startJob_put E job j j3 w w3 (P : Event -> Prop) :
  heap w3 !! job = Some j3 -> Id j3 = Id j -> Id j <> "" ->
  Status j3 <> JOB_STATUS_REQUESTED ->
  db w3 = db w -> (exists evs, log w3 = log w ++ evs /\ Forall P evs) ->
  P (DB_PutJob j3) ->
  wp (err ← db_PutJob E job;
      match err with
      | Some e =>
          j ← load job;
          mret (skerr.Wrapf (Some e)
                  ("failed to insert Job " +:+ Id j +:+ " (build "
                   +:+ fmt_d (BuildbucketBuildId j) +:+ ") into the DB"))
      | None => jCache_AddJobs [job];; mret None
      end) w3 (fun _ w' =>
    advanced_or_untouched j w w' /\
    heap w' = heap w3 /\
    exists evs, log w' = log w ++ evs /\ Forall P evs /\
                DB_PutJob j3 ∈ evs).
Proof.
  intros Hj3 Hid Hne Hst Hdb (evs & Hlog & Hevs) HP.
  wp_step. eapply wp_db_PutJob; [exact Hj3|].
  intros err w4 j' Hj' Herr Hh4 Hc4 Hlog4 Hdb4.
  assert (Hj'3 : j' = j3).
  { rewrite Hj', Hid. apply String.eqb_neq in Hne. now rewrite Hne. }
  clear Hj'. subst j'.
  assert (Hheap : heap w4 = heap w3).
  { rewrite Hh4. destruct err; [reflexivity|]. now apply list_insert_id. }
  assert (Hev : exists evs', log w4 = log w ++ evs' /\ Forall P evs' /\
                             DB_PutJob j3 ∈ evs').
  { exists (evs ++ [DB_PutJob j3]). split; [now rewrite Hlog4, Hlog, app_assoc|].
    split; [apply Forall_app; split; [exact Hevs | now constructor]|].
    apply elem_of_app. right. now apply list_elem_of_singleton. }
  destruct err as [e|].
  - wp_step. eapply wp_load; [rewrite Hheap; exact Hj3|]. wp_step.
    split; [left; congruence|]. split; [exact Hheap | exact Hev].
  - wp_step. unfold jCache_AddJobs. wp_step. wp_step.
    split; [|split; [exact Hheap | exact Hev]].
    right. exists j3. unfold set_jCache. cbn [db].
    rewrite Hdb4, <- Hid. split; [apply find_upsert | exact Hst].
Qed.

Ltac wpx_step :=
  lazymatch goal with
  | |- wpx (mbind _ _) _ _ _ => apply wpx_bind
  | |- wpx (mret _) _ _ _ => apply wpx_ret
  end.

Lemma startJob_spec E L t job j w uj :
  heap w !! job = Some j -> Id j <> "" ->
  db_GetJobById_err E (log w) (Id j) = None ->
  jobdb.find (Id j) (db w) = Some uj ->
  Status uj = JOB_STATUS_REQUESTED ->
  wpx (startJob E L t job) w
    (fun _ w' =>
       advanced_or_untouched j w w' /\
       (skipRepoState (Job_RepoState j) = true ->
        exists j' evs,
          heap w' !! job = Some j' /\ Status j' = JOB_STATUS_MISHAP /\
          log w' = log w ++ evs /\ Forall (rejection_event j) evs /\
          DB_PutJob j' ∈ evs))
    (fun w' =>
       advanced_or_untouched j w w' /\
       skipRepoState (Job_RepoState j) = false).
Proof.
  intros Hj Hne Herr Hfind Hst.
  unfold startJob.
  wpx_step. apply wpx_wp. eapply wp_load; [exact Hj|].
  wpx_step. apply wpx_wp. unfold db_GetJobById.
  wp_step. wp_step. rewrite Herr. wp_step. wp_step. wp_step.
  cbn [db set_log]. rewrite Hfind. cbv beta iota.
  set (w1 := set_log (log w ++ [DB_GetJobById (Id j)]) w).
  assert (Hj1 : heap w1 !! job = Some j) by exact Hj.
  assert (Hdb1 : db w1 = db w) by reflexivity.
  assert (Hlog1 : log w1 = log w ++ [DB_GetJobById (Id j)]) by reflexivity.
  clearbody w1.
  wpx_step. apply wpx_deref.
  rewrite Hst. rewrite bool_decide_eq_true_2 by reflexivity. cbn [negb].
  wpx_step. apply wpx_wp.
  eapply wp_mono; [apply (startJobHelper_spec E L t job j w1 Hj1)|].
  intros err w2 [Hp2 Hskip].
  (* the events of the run so far, if the job is on the denylist *)
  set (P := fun ev => skipRepoState (Job_RepoState j) = true ->
                      rejection_event j ev).
  assert (HpP : prepared P job j w1 w2).
  { destruct (skipRepoState (Job_RepoState j)) eqn:Hs.
    - destruct (Hskip eq_refl) as [_ HpG].
      eapply prepared_weaken; [exact HpG|].
      intros ev [issue ->] _. exact I.
    - eapply prepared_weaken; [exact Hp2|]. intros ev _ Hf. discriminate. }
  assert (Hfinish : forall w', 
    (advanced_or_untouched j w1 w' /\
     exists j3, heap w' !! job = Some j3 /\ Status j3 = JOB_STATUS_MISHAP /\
     exists evs, log w' = log w1 ++ evs /\ Forall P evs /\
                 DB_PutJob j3 ∈ evs) ->
    advanced_or_untouched j w w' /\
    (skipRepoState (Job_RepoState j) = true ->
     exists j' evs,
       heap w' !! job = Some j' /\ Status j' = JOB_STATUS_MISHAP /\
       log w' = log w ++ evs /\ Forall (rejection_event j) evs /\
       DB_PutJob j' ∈ evs)).
  { intros w' (Hadv & j3 & Hj3 & Hs3 & evs & Hlog & Hevs & Hin).
    split.
    { destruct Hadv as [Hsame|Hrow]; [left; congruence | right; exact Hrow]. }
    intros Hs. exists j3, (DB_GetJobById (Id j) :: evs).
    split; [exact Hj3|]. split; [exact Hs3|].
    split; [rewrite Hlog, Hlog1, <- app_assoc; reflexivity|].
    split; [|apply elem_of_cons; now right].
    constructor; [reflexivity|].
    eapply Forall_impl; [exact Hevs|]. intros ev Hev. now apply Hev. }
  destruct err as [e|].
  - (* the job could not be prepared: MISHAP *)
    wpx_step. apply wpx_wp. wp_step.
    eapply (wp_modify_prepared P job j w1 w2); [exact HpP|same_id|].
    intros w3 Hp3 Hst3. wp_step.
    eapply (wp_modify_prepared P job j w1 w3); [exact Hp3|same_id|].
    intros w4 Hp4 Hst4. wp_step.
    destruct HpP as (_ & _ & _ & _ & (j2 & Hj2 & Hid2) & _).
    specialize (Hst3 j2 Hj2). specialize (Hst4 _ Hst3).
    set (j4 := set_StatusDetails _ _) in Hst4.
    destruct Hp4 as (Hdb4 & _ & _ & _ & _ & Hev4).
    assert (Hid4 : Id j4 = Id j) by (destruct Hid2 as [H _]; exact H).
    apply wpx_wp.
    eapply wp_mono.
    { apply (startJob_put E job j j4 w1 w4 P Hst4 Hid4 Hne);
        [unfold j4; simpl; discriminate | exact Hdb4 | exact Hev4 |].
      intros _. split; [exact Hid4 | reflexivity]. }
    intros r w' (Hadv & Hheap & evs & Hlog & Hevs & Hin).
    apply Hfinish. split; [exact Hadv|].
    exists j4. split; [now rewrite Hheap|]. split; [reflexivity|]. eauto.
  - (* the job is prepared: IN_PROGRESS, and Buildbucket is told *)
    assert (Hs : skipRepoState (Job_RepoState j) = false).
    { destruct (skipRepoState (Job_RepoState j)); [|reflexivity].
      destruct (Hskip eq_refl) as [Hc _]. now contradiction Hc. }
    assert (Hdone : forall w', advanced_or_untouched j w1 w' ->
      advanced_or_untouched j w w' /\
      (skipRepoState (Job_RepoState j) = true ->
       exists j' evs,
         heap w' !! job = Some j' /\ Status j' = JOB_STATUS_MISHAP /\
         log w' = log w ++ evs /\ Forall (rejection_event j) evs /\
         DB_PutJob j' ∈ evs)).
    { intros w' Hadv. split; [|rewrite Hs; discriminate].
      destruct Hadv as [Hsame|Hrow]; [left; congruence | right; exact Hrow]. }
    assert (Hdone' : forall w', advanced_or_untouched j w1 w' ->
      advanced_or_untouched j w w' /\
      skipRepoState (Job_RepoState j) = false).
    { intros w' Hadv. split; [|exact Hs].
      destruct Hadv as [Hsame|Hrow]; [left; congruence | right; exact Hrow]. }
    clear Hfinish HpP P Hskip.
    set (T := fun _ : Event => True).
    assert (HpT : prepared T job j w1 w2).
    { eapply prepared_weaken; [exact Hp2|]. intros; exact I. }
    clear Hp2.
    wpx_step. wpx_step. apply wpx_wp.
    eapply (wp_modify_prepared T job j w1 w2); [exact HpT|same_id|].
    intros w3 Hp3 Hst3.
    destruct HpT as (_ & _ & _ & _ & (j2 & Hj2 & Hid2) & _).
    specialize (Hst3 j2 Hj2).
    set (j3 := set_Status JOB_STATUS_IN_PROGRESS j2) in Hst3.
    assert (Hid3 : Id j3 = Id j) by (destruct Hid2 as [H _]; exact H).
    wpx_step. apply wpx_wp. eapply wp_load; [exact Hst3|].
    wpx_step. apply wpx_wp.
    destruct (jobStarted_emits E L t j3 w3)
      as ([[bbToken bbError] err] & evs & Hrun & _ & Hnever).
    eapply wp_intro; [exact Hrun|]. cbv beta iota.
    set (w4 := set_log (log w3 ++ evs) w3).
    assert (Hj4 : heap w4 !! job = Some j3) by exact Hst3.
    assert (Hdb4 : db w4 = db w1) by (destruct Hp3 as [H _]; exact H).
    assert (Hev4 : exists evs', log w4 = log w1 ++ evs' /\ Forall T evs').
    { destruct Hp3 as (_ & _ & _ & _ & _ & evs3 & Hl3 & _).
      exists (evs3 ++ evs). split; [simpl; now rewrite Hl3, app_assoc|].
      apply Forall_forall. intros; exact I. }
    clearbody w4. clear Hrun Hp3.
    destruct (isBuildAlreadyStartedError err || notnil bbError) eqn:Hcancel.
    + (* the job and the build are out of sync: cancel *)
      wpx_step.
      assert (Hreason : exists cancelReason,
        (if isBuildAlreadyStartedError err
         then mret ("StartBuild has already been called for this Job, "
                    +:+ "but the Job was not correctly updated and "
                    +:+ "cannot continue.")
         else bbe ← deref bbError;
              mret ("Buildbucket rejected Start with: " +:+ Reason bbe))
          w4 = Ret cancelReason w4).
      { destruct (isBuildAlreadyStartedError err); [eexists; reflexivity|].
        destruct bbError as [bbe|]; [eexists; reflexivity | discriminate]. }
      destruct Hreason as [cancelReason Hreason].
      eapply wpx_intro; [exact Hreason|].
      wpx_step. apply wpx_wp.
      eapply wp_mono; [apply (localCancelJobs_single E job cancelReason j3 w4 Hj4)|].
      cbv zeta.
      set (jc := set_Finished _ _).
      intros cancelErr w5 (_ & Hh5 & _ & Hdb5).
      assert (Hadv : advanced_or_untouched j w1 w5).
      { destruct cancelErr; [left; congruence|].
        right. exists jc. rewrite Hdb5, <- Hid3.
        split; [apply (find_upsert jc) | discriminate]. }
      assert (Hlt : (job < length (heap w4))%nat)
        by (apply lookup_lt_is_Some; eauto).
      wpx_step. apply wpx_wp.
      eapply wp_load; [rewrite Hh5; now apply list_lookup_insert_eq|].
      destruct cancelErr; wpx_step; apply wpx_deref;
        (destruct bbError as [bbe|]; [wpx_step; wpx_step; now apply Hdone
                                      | now apply Hdone']).
    + (* Buildbucket accepted the start, or the call failed *)
      destruct err as [e|].
      * wpx_step. wpx_step. apply Hdone. left. exact Hdb4.
      * apply wpx_wp.
        eapply (wp_mono _ _ (fun a w5 =>
          a = None /\ db w5 = db w1 /\
          (exists j5, heap w5 !! job = Some j5 /\ Id j5 = Id j /\
                      Status j5 = JOB_STATUS_IN_PROGRESS) /\
          exists evs', log w5 = log w1 ++ evs' /\ Forall T evs')).
        { destruct (negb (String.eqb bbToken "")).
          - wp_step. eapply wp_modify; [exact Hj4|]. wp_step.
            split; [reflexivity|]. split; [exact Hdb4|]. split; [|exact Hev4].
            eexists. split; [simpl; apply list_lookup_insert_eq;
                             apply lookup_lt_is_Some; eauto|].
            split; [exact Hid3 | reflexivity].
          - wp_step. wp_step.
            split; [reflexivity|]. split; [exact Hdb4|]. split; [|exact Hev4].
            exists j3. split; [exact Hj4|]. split; [exact Hid3 | reflexivity]. }
        intros a w5 (-> & Hdb5 & (j5 & Hj5 & Hid5 & Hst5) & Hev5).
        apply wpx_wp. eapply wp_mono.
        { apply (startJob_put E job j j5 w1 w5 T Hj5 Hid5 Hne);
            [rewrite Hst5; discriminate | exact Hdb5 | exact Hev5 | exact I]. }
        intros r w' (Hadv & _). now apply Hdone.
Qed.

(** [startJob] re-reads the job and returns when the read fails or the row is
    no longer REQUESTED: it then makes no other call and changes nothing. *)
Lemma startJob_reread E L t job w j :
  heap w !! job = Some j ->
  (db_GetJobById_err E (log w) (Id j) <> None \/
   exists row, jobdb.find (Id j) (db w) = Some row /\
               Status row <> JOB_STATUS_REQUESTED) ->
  exists r,
    startJob E L t job w
    = Ret r (set_log (log w ++ [DB_GetJobById (Id j)]) w) /\
    (db_GetJobById_err E (log w) (Id j) = None -> r = None).
Proof.
  intros Hj Hcase.
  enough (Hwp : wp (startJob E L t job) w (fun r w' =>
            w' = set_log (log w ++ [DB_GetJobById (Id j)]) w /\
            (db_GetJobById_err E (log w) (Id j) = None -> r = None))).
  { destruct (wp_elim _ _ _ Hwp) as (r & w' & Hrun & -> & Hr). eauto. }
  unfold startJob. wp_step. eapply wp_load; [exact Hj|].
  wp_step. unfold db_GetJobById. wp_step. wp_step.
  destruct (db_GetJobById_err E (log w) (Id j)) as [e|] eqn:He.
  { wp_step. wp_red. wp_step. split; [reflexivity | discriminate]. }
  destruct Hcase as [Hc|(row & Hfind & Hst)]; [contradiction|].
  wp_step. wp_step. wp_step. cbn [db set_log]. rewrite Hfind. cbv beta iota.
  wp_step. eapply wp_deref; [reflexivity|].
  rewrite bool_decide_eq_false_2 by exact Hst. cbn [negb].
  wp_step. split; reflexivity.
Qed.

(** C6.  [startJob] first reads the job again from the database by its id.
    When the row it reads is not REQUESTED, it returns no error at once: the
    read is its only call (no start is sent to Buildbucket) and it writes
    nothing.  Hence of two triggers for the same job, run one after the
    other, at most one advances the job: if the first has written the row of
    the job, the row is no longer REQUESTED and the second only reads it. *)
Theorem startJob_at_most_once E L t job w j :
  heap w !! job = Some j ->
  Id j <> "" ->
  (forall uj,
     db_GetJobById_err E (log w) (Id j) = None ->
     jobdb.find (Id j) (db w) = Some uj ->
     Status uj <> JOB_STATUS_REQUESTED ->
     startJob E L t job w
     = Ret None (set_log (log w ++ [DB_GetJobById (Id j)]) w))
  /\
  (forall r1 w1 job2 j2,
     startJob E L t job w = Ret r1 w1 ->
     heap w1 !! job2 = Some j2 -> Id j2 = Id j ->
     db w1 = db w \/
     exists r2,
       startJob E L t job2 w1
       = Ret r2 (set_log (log w1 ++ [DB_GetJobById (Id j)]) w1)).
Proof.
  intros Hj Hne. split.
  - intros uj Herr Hfind Hst.
    destruct (startJob_reread E L t job w j Hj) as (r & Hrun & Hr); [eauto|].
    now rewrite Hrun, (Hr Herr).
  - intros r1 w1 job2 j2 Hrun Hj2 Hid.
    assert (Hadv : advanced_or_untouched j w w1).
    { destruct (db_GetJobById_err E (log w) (Id j)) as [e|] eqn:Herr.
      { destruct (startJob_reread E L t job w j Hj) as (r & Hrun' & _).
        { left. rewrite Herr. discriminate. }
        rewrite Hrun in Hrun'. injection Hrun' as _ ->. now left. }
      destruct (jobdb.find (Id j) (db w)) as [uj|] eqn:Hfind.
      2: { (* no row: the read gives nil and startJob panics *)
           exfalso. revert Hrun. unfold startJob.
           rewrite bind_unfold. unfold load. rewrite Hj.
           rewrite bind_unfold. unfold db_GetJobById.
           rewrite bind_unfold. unfold call at 1. rewrite Herr.
           rewrite bind_unfold. unfold gets at 1. cbn [db set_log].
           rewrite Hfind. rewrite ret_unfold. cbv beta iota.
           rewrite bind_unfold. discriminate. }
      destruct (decide (Status uj = JOB_STATUS_REQUESTED)) as [Hst|Hst].
      - pose proof (startJob_spec E L t job j w uj Hj Hne Herr Hfind Hst) as Hs.
        apply (wpx_ret_inv _ _ _ _ _ _ Hs Hrun).
      - destruct (startJob_reread E L t job w j Hj) as (r & Hrun' & _); [eauto|].
        rewrite Hrun in Hrun'. injection Hrun' as _ ->. now left. }
    destruct Hadv as [Hsame|(row & Hrow & Hst)]; [now left|].
    right. rewrite <- Hid in *.
    destruct (startJob_reread E L t job2 w1 j2 Hj2) as (r2 & Hrun2 & _); eauto.
Qed.

(** C4, as amended.  The denylist of [skipRepoState] is applied when a job is
    started, not at intake: [startJob] marks a REQUESTED job whose repo-state
    is on the denylist as MISHAP and writes it to the database; its only
    calls are the read of the job, possibly the lookup of the change in
    Gerrit, and that write, so Buildbucket gets neither a lease call nor a
    start notification from it. *)
Theorem startJob_rejects_denylisted E L t job w j uj :
  heap w !! job = Some j ->
  Id j <> "" ->
  db_GetJobById_err E (log w) (Id j) = None ->
  jobdb.find (Id j) (db w) = Some uj ->
  Status uj = JOB_STATUS_REQUESTED ->
  skipRepoState (Job_RepoState j) = true ->
  exists r w' j' evs,
    startJob E L t job w = Ret r w' /\
    heap w' !! job = Some j' /\ Status j' = JOB_STATUS_MISHAP /\
    log w' = log w ++ evs /\ Forall (rejection_event j) evs /\
    DB_PutJob j' ∈ evs.
Proof.
  intros Hj Hne Herr Hfind Hst Hskip.
  pose proof (startJob_spec E L t job j w uj Hj Hne Herr Hfind Hst) as Hs.
  unfold wpx in Hs. destruct (startJob E L t job w) as [r w'|w'].
  - destruct Hs as [_ Hs]. destruct (Hs Hskip) as (j' & evs & H).
    exists r, w', j', evs. split; [reflexivity | exact H].
  - destruct Hs as [_ Hs]. congruence.
Qed.

(** C3.  When the start notification fails with the error of Buildbucket for
    a second StartBuild, [startJob] cancels the job locally and then reads
    the message of an answer of Buildbucket that is nil: it panics. *)
Theorem startJob_already_started_panics
    E L t job w j uj w2 j2 bbToken bbError err w4 :
  heap w !! job = Some j ->
  db_GetJobById_err E (log w) (Id j) = None ->
  jobdb.find (Id j) (db w) = Some uj ->
  Status uj = JOB_STATUS_REQUESTED ->
  startJobHelper E L t job (set_log (log w ++ [DB_GetJobById (Id j)]) w)
  = Ret None w2 ->
  heap w2 !! job = Some j2 ->
  jobStarted E L t (set_Status JOB_STATUS_IN_PROGRESS j2)
    (set_heap (<[job := set_Status JOB_STATUS_IN_PROGRESS j2]> (heap w2)) w2)
  = Ret (bbToken, bbError, err) w4 ->
  isBuildAlreadyStartedError err = true ->
  exists w' j',
    startJob E L t job w = Panic w' /\
    heap w' !! job = Some j' /\ Status j' = JOB_STATUS_CANCELED.
Proof.
  intros Hj Herr Hfind Hst Hhelper Hj2 Hstarted Halready.
  enough (Hx : wpx (startJob E L t job) w (fun _ _ => False) (fun w' =>
            exists j', heap w' !! job = Some j' /\
                       Status j' = JOB_STATUS_CANCELED)).
  { unfold wpx in Hx. destruct (startJob E L t job w) as [r w'|w'];
      [contradiction|]. destruct Hx as (j' & Hx). eauto. }
  assert (Hlt : (job < length (heap w2))%nat)
    by (apply lookup_lt_is_Some; eauto).
  unfold startJob.
  wpx_step. apply wpx_wp. eapply wp_load; [exact Hj|].
  wpx_step. apply wpx_wp. unfold db_GetJobById.
  wp_step. wp_step. rewrite Herr. wp_step. wp_step. wp_step.
  cbn [db set_log]. rewrite Hfind. cbv beta iota.
  wpx_step. apply wpx_deref.
  rewrite Hst. rewrite bool_decide_eq_true_2 by reflexivity. cbn [negb].
  wpx_step. eapply wpx_intro; [exact Hhelper|].
  wpx_step. wpx_step. apply wpx_wp. eapply wp_modify; [exact Hj2|].
  wpx_step. apply wpx_wp.
  eapply wp_load; [simpl; now apply list_lookup_insert_eq|].
  wpx_step. eapply wpx_intro; [exact Hstarted|]. cbv beta iota.
  rewrite Halready. cbn [orb].
  (* an error came back, so the answer of Buildbucket is nil *)
  destruct (jobStarted_emits E L t (set_Status JOB_STATUS_IN_PROGRESS j2)
              (set_heap (<[job := set_Status JOB_STATUS_IN_PROGRESS j2]>
                           (heap w2)) w2))
    as (r & evs & Hrun & _ & Hnil).
  rewrite Hstarted in Hrun. injection Hrun as <- Hw4.
  assert (HbbError : bbError = None).
  { apply Hnil. simpl. destruct err; [discriminate | discriminate Halready]. }
  subst bbError.
  assert (Hj4 : heap w4 !! job = Some (set_Status JOB_STATUS_IN_PROGRESS j2)).
  { rewrite Hw4. simpl. now apply list_lookup_insert_eq. }
  wpx_step. wpx_step. wpx_step. apply wpx_wp.
  eapply wp_mono; [apply (localCancelJobs_single E job _ _ w4 Hj4)|].
  cbv zeta. intros cancelErr w5 (_ & Hh5 & _ & _).
  assert (Hlt4 : (job < length (heap w4))%nat)
    by (apply lookup_lt_is_Some; eauto).
  wpx_step. apply wpx_wp.
  eapply wp_load; [rewrite Hh5; now apply list_lookup_insert_eq|].
  destruct cancelErr; wpx_step; apply wpx_deref;
    (eexists; split; [rewrite Hh5; now apply list_lookup_insert_eq
                      | reflexivity]).
Qed.

(** ** Intake *)

Lemma emits_gets {A : Type} (f : World -> A) w (Q : A -> list Event -> Prop) :
  Q (f w) [] -> emits (gets f) w Q.
Proof. intros H. exists (f w), []. now rewrite set_log_nil. Qed.

Ltac emits_step' :=
  first [ emits_step
        | lazymatch goal with
          | |- emits (gets _) _ _ => apply emits_gets
          end ].

Ltac not_put_events :=
  simpl; repeat (constructor; try exact I).

Lemma findJobForBuild_emits E id w :
  emits (findJobForBuild E id) w (fun r evs =>
    Forall not_put evs /\
    match r with
    | (Some j, None) =>
        j ∈ db w /\ BuildbucketBuildId j = id
    | _ => True
    end).
Proof.
  unfold findJobForBuild, Now, db_SearchJobs.
  repeat emits_step'; (split; [not_put_events|]); try exact I.
  match goal with
  | H : jobdb.search _ _ _ _ = j :: _ |- _ =>
      assert (Hin : In j (jobdb.search id
                (now_Now E (log w) - 4 * 24 * 3600 * second)
                (now_Now E (log w)) (db w)))
        by (simpl in H; rewrite H; now left)
  end.
  unfold jobdb.search in Hin. apply filter_In in Hin.
  destruct Hin as [Hin Hc]. split; [now apply list_elem_of_In|].
  apply andb_true_iff in Hc as [Hc _]. apply andb_true_iff in Hc as [Hc _].
  now apply Z.eqb_eq.
Qed.

Lemma findJobForBuild_log E id w r w1 :
  findJobForBuild E id w = Ret r w1 ->
  exists start end_,
    w1 = set_log (log w ++ [Clock_Now; DB_SearchJobs id start end_]) w.
Proof.
  assert (H : emits (findJobForBuild E id) w (fun _ evs =>
            exists start end_, evs = [Clock_Now; DB_SearchJobs id start end_])).
  { unfold findJobForBuild, Now, db_SearchJobs.
    repeat emits_step'; simpl; eauto. }
  destruct H as (a & evs & Hrun & start & end_ & ->).
  intros Hr. rewrite Hrun in Hr. injection Hr as _ <-. eauto.
Qed.

Lemma tryLeaseV1Build_not_put E id w :
  emits (tryLeaseV1Build E id) w (fun r evs =>
    Forall not_put evs /\
    exists expiration, evs = [Clock_Now; BB_Lease id expiration]).
Proof.
  eapply emits_mono; [apply tryLeaseV1Build_emits|].
  intros r evs [[ex ->] _]. split; [not_put_events | eauto].
Qed.

Lemma remoteCancelV1Build_not_put E L id msg w :
  emits (remoteCancelV1Build E L id msg) w (fun _ evs => Forall not_put evs).
Proof.
  unfold remoteCancelV1Build. repeat emits_step; not_put_events.
Qed.

Lemma lookup_snoc {A : Type} (l : list A) (x : A) :
  (l ++ [x]) !! length l = Some x.
Proof. induction l; simpl; auto. Qed.

Lemma insert_snoc {A : Type} (l : list A) (x y : A) :
  <[length l := y]> (l ++ [x]) = l ++ [y].
Proof. induction l; simpl; [reflexivity | now f_equal]. Qed.

Lemma wpx_emits {A : Type} (m : M A) w (Q : A -> World -> Prop)
    (R : World -> Prop) :
  emits m w (fun a evs => Q a (set_log (log w ++ evs) w)) -> wpx m w Q R.
Proof. intros H. apply wpx_wp. now apply wp_emits. Qed.

Lemma intake_stamped_before E L buildId w0 w' j :
  0 < TS_RESOLUTION L -> intake_stamped E L buildId w0 w' j ->
  Requested j < Created j.
Proof.
  intros Hts (s & e & probe & ex & rest & build & requested & _ & _ & _ & _
              & _ & ->).
  destruct (Z.ltb_spec (FixTimestamp L requested) (Created j)); lia.
Qed.

Lemma not_put_absent evs j : Forall not_put evs -> DB_PutJob j ∉ evs.
Proof.
  intros H Hin. rewrite Forall_forall in H. exact (H _ Hin).
Qed.

Lemma intake_result_idle E L buildId w0 w' evs :
  heap w' = heap w0 -> db w' = db w0 -> log w' = log w0 ++ evs ->
  Forall not_put evs -> intake_result E L buildId w0 w'.
Proof.
  intros Hh Hdb Hlog Hevs. split; [|split; now left].
  exists evs. split; [exact Hlog|]. intros j Hj.
  now apply not_put_absent in Hj.
Qed.

Lemma remoteCancelV1Build_calls E L id msg w :
  emits (remoteCancelV1Build E L id msg) w (fun _ evs =>
    evs = [BB_Cancel id (Truncate L msg maxCancelReasonLen)]).
Proof. unfold remoteCancelV1Build. repeat emits_step; reflexivity. Qed.

Lemma insertNewJobV1_create_stamped
    E L t buildId build w0 w1 start end_ probe :
  let hg := log w0 ++ [Clock_Now; DB_SearchJobs buildId start end_] in
  heap w1 = heap w0 -> db w1 = db w0 ->
  log w1 = hg ++ BB2_GetBuild buildId :: probe ->
  (probe = [] \/
   exists ex0 msg,
     probe = [Clock_Now; BB_Lease buildId ex0; BB_Cancel buildId msg]) ->
  bb2_GetBuild E hg buildId = Reply build ->
  wpx (insertNewJobV1_create E L t buildId build) w1
    (fun _ w' => intake_result E L buildId w0 w')
    (fun w' => intake_result E L buildId w0 w').
Proof.
  intros hg Hh1 Hdb1 Hlog1 Hprobe Hbuild.
  set (evs1 := [Clock_Now; DB_SearchJobs buildId start end_;
                BB2_GetBuild buildId] ++ probe).
  assert (Hlog1' : log w1 = log w0 ++ evs1).
  { rewrite Hlog1. unfold hg, evs1. now rewrite <- !app_assoc. }
  assert (Hnp1 : Forall not_put evs1).
  { unfold evs1. apply Forall_app. split; [not_put_events|].
    destruct Hprobe as [->|(ex0 & msg & ->)]; not_put_events. }
  assert (Hidle : forall evs, Forall not_put evs ->
            intake_result E L buildId w0 (set_log (log w1 ++ evs) w1)).
  { intros evs Hevs. apply (intake_result_idle E L buildId w0 _ (evs1 ++ evs));
      [exact Hh1 | exact Hdb1 | |].
    - simpl. now rewrite Hlog1', <- app_assoc.
    - apply Forall_app. now split. }
  assert (Hrefl : intake_result E L buildId w0 w1)
    by (apply (intake_result_idle E L buildId w0 w1 evs1); assumption).
  assert (Hcancel : forall id msg,
    wpx (remoteCancelV1Build E L id msg) w1
      (fun _ w' => intake_result E L buildId w0 w')
      (fun w' => intake_result E L buildId w0 w')).
  { intros id msg. apply wpx_emits.
    eapply emits_mono; [apply remoteCancelV1Build_not_put|].
    intros ? evs Hevs. now apply Hidle. }
  unfold insertNewJobV1_create.
  wpx_step. apply wpx_deref. destruct (b_Input build) as [input|]; [|exact Hrefl].
  destruct input as [|gerritChange [|]]; try apply Hcancel.
  destruct (projectRepoMapping t (gc_Project gerritChange)) as [repoUrl|];
    [|apply Hcancel].
  destruct (ptypes_Timestamp L (b_CreateTime build)) as [requested|e] eqn:Hts;
    [|apply Hcancel].
  wpx_step. apply wpx_deref.
  destruct (b_Builder build) as [builder|]; [|exact Hrefl].
  wpx_step. apply wpx_wp. unfold Now. wp_step.
  set (created := now_Now E (log w1)).
  wpx_step. apply wpx_wp. unfold alloc.
  set (j0 := newJob _ _ _ _ _).
  eapply wp_intro; [reflexivity|].
  set (w2 := set_heap _ _).
  assert (Hh2 : heap w2 = heap w0 ++ [j0]) by (simpl; now rewrite Hh1).
  assert (Hdb2 : db w2 = db w0) by exact Hdb1.
  assert (Hlog2 : log w2 = log w1 ++ [Clock_Now]) by reflexivity.
  clearbody w2.
  change (length (heap (set_log (log w1 ++ [Clock_Now]) w1)))
    with (length (heap w1)).
  rewrite Hh1.
  wpx_step. apply wpx_wp.
  eapply wp_load; [rewrite Hh2; apply lookup_snoc|].
  (* the times of the job are put in order *)
  wpx_step. apply wpx_wp.
  eapply (wp_mono _ _ (fun _ w3 => exists j1,
    heap w3 = heap w0 ++ [j1] /\ db w3 = db w0 /\
    log w3 = log w1 ++ [Clock_Now] /\
    Created j1 = FixTimestamp L created /\
    Requested j1 = if FixTimestamp L requested <? Created j1
                   then FixTimestamp L requested
                   else Created j1 - TS_RESOLUTION L)).
  { destruct (Z.ltb_spec (Requested j0) (Created j0)) as [Hlt|Hge]; cbn [negb].
    - wp_step. exists j0. split; [exact Hh2|]. split; [exact Hdb2|].
      split; [exact Hlog2|]. split; [reflexivity|].
      simpl in Hlt. apply Z.ltb_lt in Hlt. simpl. now rewrite Hlt.
    - eapply wp_modify; [rewrite Hh2; apply lookup_snoc|].
      eexists. split; [simpl; rewrite Hh2; apply insert_snoc|].
      split; [exact Hdb2|]. split; [exact Hlog2|]. split; [reflexivity|].
      simpl in Hge. apply Z.ltb_ge in Hge. simpl. now rewrite Hge. }
  intros _ w3 (j1 & Hh3 & Hdb3 & Hlog3 & Hc1 & Hr1).
  (* the lease *)
  wpx_step. apply wpx_emits.
  eapply emits_mono; [apply tryLeaseV1Build_not_put|].
  intros [[leaseKey bbError] err] evs [_ [ex ->]]. cbv beta iota.
  set (w4 := set_log (log w3 ++ [Clock_Now; BB_Lease buildId ex]) w3).
  assert (Hh4 : heap w4 = heap w0 ++ [j1]) by exact Hh3.
  assert (Hdb4 : db w4 = db w0) by exact Hdb3.
  assert (Hlog4 : log w4 = log w0 ++ evs1 ++ [Clock_Now; Clock_Now;
                                             BB_Lease buildId ex]).
  { unfold w4. simpl. rewrite Hlog3, Hlog1', <- !app_assoc. reflexivity. }
  assert (Hnp4 : Forall not_put (evs1 ++ [Clock_Now; Clock_Now;
                                          BB_Lease buildId ex])).
  { apply Forall_app. split; [exact Hnp1 | not_put_events]. }
  clearbody w4.
  assert (Hst : forall w' rest j,
    log w' = log w4 ++ rest ->
    Created j = Created j1 -> Requested j = Requested j1 ->
    intake_stamped E L buildId w0 w' j).
  { intros w' rest j Hlog' Hcj Hrj.
    exists start, end_, probe, ex, rest, build, requested. cbv zeta.
    fold hg. split; [exact Hprobe|]. split.
    { rewrite Hlog', Hlog4. unfold evs1, hg. rewrite <- !app_assoc.
      reflexivity. }
    split; [exact Hbuild|]. split; [exact Hts|].
    rewrite Hcj, Hrj, <- Hlog1. split; [exact Hc1 | exact Hr1]. }
  assert (Hfin : forall w' rest jx,
    log w' = log w4 ++ rest ->
    heap w' = heap w0 ++ [jx] ->
    Created jx = Created j1 -> Requested jx = Requested j1 ->
    (forall j, DB_PutJob j ∈ rest ->
       Created j = Created j1 /\ Requested j = Requested j1) ->
    (db w' = db w0 \/
     exists jr, db w' = jobdb.upsert jr (db w0) /\
                Created jr = Created j1 /\ Requested jr = Requested j1) ->
    intake_result E L buildId w0 w').
  { intros w' rest jx Hlog' Hh' Hcx Hrx Hputs Hdb'. split; [|split].
    - exists ((evs1 ++ [Clock_Now; Clock_Now; BB_Lease buildId ex]) ++ rest).
      split; [now rewrite Hlog', Hlog4, <- !app_assoc|].
      intros j Hj. apply elem_of_app in Hj as [Hj|Hj].
      + now apply not_put_absent in Hj.
      + destruct (Hputs j Hj). now apply (Hst w' rest).
    - right. exists jx. split; [exact Hh'|]. now apply (Hst w' rest).
    - destruct Hdb' as [Hsame|(jr & Hd & Hcr & Hrr)]; [now left|].
      right. exists jr. split; [exact Hd|]. now apply (Hst w' rest). }
  assert (Hend4 : intake_result E L buildId w0 w4).
  { apply (Hfin w4 [] j1); auto.
    - now rewrite app_nil_r.
    - intros j Hj. inversion Hj. }
  assert (Hcancel4 : forall id msg,
    wpx (remoteCancelV1Build E L id msg) w4
      (fun _ w' => intake_result E L buildId w0 w')
      (fun w' => intake_result E L buildId w0 w')).
  { intros id msg. apply wpx_emits.
    eapply emits_mono; [apply remoteCancelV1Build_not_put|].
    intros ? evs Hevs. apply (Hfin _ evs j1); auto.
    intros j Hj. now apply not_put_absent in Hj. }
  destruct err as [e|]; [wpx_step; exact Hend4|].
  destruct bbError as [bbe|].
  { destruct (String.eqb (Reason bbe) _);
      [wpx_step; exact Hend4 | apply Hcancel4]. }
  destruct (leaseKey =? 0); [apply Hcancel4|].
  (* the job is written *)
  wpx_step. apply wpx_wp.
  eapply wp_modify; [rewrite Hh4; apply lookup_snoc|].
  set (j5 := set_BuildbucketLeaseKey leaseKey j1).
  set (w5 := set_heap _ w4).
  assert (Hh5 : heap w5 = heap w0 ++ [j5])
    by (simpl; rewrite Hh4; apply insert_snoc).
  assert (Hdb5 : db w5 = db w0) by exact Hdb4.
  assert (Hlog5 : log w5 = log w4) by reflexivity.
  clearbody w5.
  wpx_step. apply wpx_wp.
  eapply wp_db_PutJob; [rewrite Hh5; apply lookup_snoc|].
  intros err w6 j6 Hj6 _ Hh6 _ Hlog6 Hdb6.
  assert (Ht6 : Created j6 = Created j1 /\ Requested j6 = Requested j1).
  { rewrite Hj6. destruct (String.eqb (Id j5) ""); split; reflexivity. }
  clear Hj6.
  assert (Hput : forall rest j,
    Forall not_put rest -> DB_PutJob j ∈ DB_PutJob j5 :: rest ->
    Created j = Created j1 /\ Requested j = Requested j1).
  { intros rest j Hrest Hj. apply elem_of_cons in Hj as [[= ->]|Hj].
    - split; reflexivity.
    - now apply not_put_absent in Hj. }
  destruct err as [e|].
  - (* the write failed: the build is canceled *)
    apply wpx_emits.
    eapply emits_mono; [apply remoteCancelV1Build_not_put|].
    intros ? evs' Hevs'.
    apply (Hfin _ (DB_PutJob j5 :: evs') j5).
    + simpl. now rewrite Hlog6, Hlog5, <- app_assoc.
    + simpl. congruence.
    + reflexivity.
    + reflexivity.
    + intros j Hj. now apply (Hput evs').
    + left. simpl. congruence.
  - apply wpx_wp. unfold jCache_AddJobs. wp_steps.
    apply (Hfin _ [DB_PutJob j5] j6).
    + simpl. now rewrite Hlog6, Hlog5.
    + simpl. rewrite Hh6, Hh5. apply insert_snoc.
    + apply Ht6.
    + apply Ht6.
    + intros j Hj. apply (Hput [] j); [constructor | exact Hj].
    + right. exists j6. split; [simpl; congruence | exact Ht6].
Qed.

Lemma insertNewJobV1_stamped E L t buildId w :
  wpx (insertNewJobV1 E L t buildId) w
    (fun _ w' => intake_result E L buildId w w')
    (fun w' => intake_result E L buildId w w').
Proof.
  unfold insertNewJobV1.
  destruct (findJobForBuild_emits E buildId w)
    as ([existingJob err] & evs0 & Hfind & Hevs0 & _).
  destruct (findJobForBuild_log E buildId w _ _ Hfind) as (start & end_ & Hw1).
  wpx_step. eapply wpx_intro; [exact Hfind|]. rewrite Hw1.
  set (hg := log w ++ [Clock_Now; DB_SearchJobs buildId start end_]).
  set (w1 := set_log hg w).
  assert (Hi1 : forall w' evs,
            heap w' = heap w -> db w' = db w -> log w' = hg ++ evs ->
            Forall not_put evs -> intake_result E L buildId w w').
  { intros w' evs Hh Hd Hl Hevs.
    apply (intake_result_idle E L buildId w _
             ([Clock_Now; DB_SearchJobs buildId start end_] ++ evs));
      [exact Hh | exact Hd | |].
    - rewrite Hl. unfold hg. now rewrite <- app_assoc.
    - apply Forall_app. split; [not_put_events | exact Hevs]. }
  assert (Hend1 : intake_result E L buildId w w1).
  { apply (intake_result_idle E L buildId w _
             [Clock_Now; DB_SearchJobs buildId start end_]);
      [reflexivity | reflexivity | reflexivity | not_put_events]. }
  destruct err as [e|]; [wpx_step; exact Hend1|].
  destruct existingJob; [wpx_step; exact Hend1|].
  wpx_step. apply wpx_wp. wp_step.
  change (log w1) with hg.
  set (w2 := set_log (hg ++ [BB2_GetBuild buildId]) w1).
  assert (Hend2 : intake_result E L buildId w w2).
  { apply (Hi1 _ [BB2_GetBuild buildId]);
      [reflexivity | reflexivity | reflexivity | not_put_events]. }
  destruct (bb2_GetBuild E hg buildId) as [build|e] eqn:Hbuild;
    [|wpx_step; exact Hend2].
  assert (Hprobe :
    wpx ('(_, bbError, err) ← tryLeaseV1Build E buildId;
         if notnil err || notnil bbError
         then mret None
         else
           err ← remoteCancelV1Build E L buildId
                   ("Unexpected status "
                    +:+ BuildStatus_String (b_Status build));
           match err with
           | Some _ => mret None
           | None => insertNewJobV1_create E L t buildId build
           end) w2
      (fun _ w' => intake_result E L buildId w w')
      (fun w' => intake_result E L buildId w w')).
  { wpx_step. apply wpx_emits.
    eapply emits_mono; [apply tryLeaseV1Build_not_put|].
    intros [[leaseKey bbError] err] evs3 [_ [ex0 ->]]. cbv beta iota.
    set (w3 := set_log (log w2 ++ [Clock_Now; BB_Lease buildId ex0]) w2).
    assert (Hend3 : intake_result E L buildId w w3).
    { apply (Hi1 _ [BB2_GetBuild buildId; Clock_Now; BB_Lease buildId ex0]);
        [reflexivity | reflexivity | | not_put_events].
      simpl. now rewrite <- app_assoc. }
    destruct (notnil err || notnil bbError); [wpx_step; exact Hend3|].
    wpx_step. apply wpx_emits.
    eapply emits_mono; [apply remoteCancelV1Build_calls|].
    intros err4 evs4 ->.
    set (msg := Truncate L _ maxCancelReasonLen).
    set (w4 := set_log (log w3 ++ [BB_Cancel buildId msg]) w3).
    assert (Hend4 : intake_result E L buildId w w4).
    { apply (Hi1 _ [BB2_GetBuild buildId; Clock_Now; BB_Lease buildId ex0;
                    BB_Cancel buildId msg]);
        [reflexivity | reflexivity | | not_put_events].
      simpl. now rewrite <- !app_assoc. }
    destruct err4; [wpx_step; exact Hend4|].
    apply (insertNewJobV1_create_stamped E L t buildId build w w4 start end_
             [Clock_Now; BB_Lease buildId ex0; BB_Cancel buildId msg]);
      [reflexivity | reflexivity | | right; eauto | exact Hbuild].
    unfold w4, w3, w2, hg. cbn [log set_log]. rewrite <- !app_assoc.
    reflexivity. }
  destruct (b_Status build); [|exact Hprobe|exact Hprobe].
  apply (insertNewJobV1_create_stamped E L t buildId build w w2 start end_ []);
    [reflexivity | reflexivity | reflexivity | now left | exact Hbuild].
Qed.

(** C9.  Every job record that [insertNewJobV1] writes to the database has
    its [Requested] time strictly before its [Created] time, and so have the
    job object it creates and the row it adds.  [Created] is the clock as the
    intake reads it for the job, fixed, and [Requested] is the fixed creation
    time of the build as Buildbucket returned it to this intake when that is
    before [Created]; when the creation time of the build is not before the
    creation time of the job, [Requested] is [Created] minus one unit of the
    resolution of timestamps.  The times are put in order when the job
    object is made, so also when the lease that follows fails or the job is
    never written; [w'] is the state in which the intake ends, whether it
    returns or stops at a nil pointer. *)
Theorem insertNewJobV1_requested_before_created E L t buildId w w' :
  0 < TS_RESOLUTION L ->
  final (insertNewJobV1 E L t buildId w) = w' ->
  (exists evs,
     log w' = log w ++ evs /\
     forall j, DB_PutJob j ∈ evs ->
       Requested j < Created j /\ intake_stamped E L buildId w w' j) /\
  (forall p j, (length (heap w) <= p)%nat -> heap w' !! p = Some j ->
     Requested j < Created j /\ intake_stamped E L buildId w w' j) /\
  (forall row, row ∈ db w' ->
     row ∈ db w \/
     (Requested row < Created row /\ intake_stamped E L buildId w w' row)).
Proof.
  intros Hts Hrun.
  assert (Hout : intake_result E L buildId w w').
  { pose proof (insertNewJobV1_stamped E L t buildId w) as H. unfold wpx in H.
    destruct (insertNewJobV1 E L t buildId w); simpl in Hrun; now subst. }
  clear Hrun. destruct Hout as ((evs & Hlog & Hevs) & Hheap & Hdb).
  split; [|split].
  - exists evs. split; [exact Hlog|]. intros j Hj.
    pose proof (Hevs j Hj) as Ht.
    split; [now apply (intake_stamped_before E L buildId w w') | exact Ht].
  - intros p j Hp Hj. destruct Hheap as [Hsame|(jx & Hh & Ht)].
    + rewrite Hsame in Hj. apply lookup_lt_Some in Hj. lia.
    + rewrite Hh in Hj. apply lookup_app_Some in Hj as [Hj|[_ Hj]].
      * apply lookup_lt_Some in Hj. lia.
      * destruct (p - length (heap w))%nat; [|now destruct n].
        injection Hj as <-.
        split; [now apply (intake_stamped_before E L buildId w w') | exact Ht].
  - intros row Hrow. destruct Hdb as [Hsame|(jx & Hd & Ht)].
    + left. now rewrite <- Hsame.
    + rewrite Hd in Hrow. clear Hd.
      induction (db w) as [|r0 rows IH]; simpl in Hrow.
      * apply list_elem_of_singleton in Hrow as ->.
        right. split; [now apply (intake_stamped_before E L buildId w w')
                      | exact Ht].
      * destruct (String.eqb (Id r0) (Id jx)).
        -- apply elem_of_cons in Hrow as [->|Hrow].
           ++ right. split; [now apply (intake_stamped_before E L buildId w w')
                            | exact Ht].
           ++ left. apply elem_of_cons. now right.
        -- apply elem_of_cons in Hrow as [->|Hrow].
           ++ left. apply elem_of_cons. now left.
           ++ destruct (IH Hrow) as [Hin|Hgood]; [|now right].
              left. apply elem_of_cons. now right.
Qed.

(** ** Cleanup of builds that Buildbucket still holds as started *)

Lemma sendPubSub_publishes E L j w :
  emits (sendPubSub E L j) w (fun _ evs => Forall is_publish evs).
Proof.
  unfold sendPubSub. repeat emits_step; simpl; repeat constructor.
Qed.

Lemma cancelBuild_emits E L j reason w :
  emits (cancelBuild E L j reason) w (fun _ evs =>
    exists published,
      evs = BB2_CancelBuild (BuildbucketBuildId j) reason :: published /\
      Forall is_publish published).
Proof.
  unfold cancelBuild. emits_step. emits_step.
  destruct (bb2_CancelBuild E (log w) _ reason).
  - emits_step. exists []. split; [reflexivity | constructor].
  - emits_step. eapply emits_mono; [apply sendPubSub_publishes|].
    intros err evs Hevs. emits_step. exists evs.
    split; [simpl; now rewrite app_nil_r | exact Hevs].
Qed.

Lemma updateBuild_emits E L j w :
  emits (updateBuild E L j) w (fun _ evs =>
    exists published,
      evs = BB2_UpdateBuild (BuildbucketBuildId j) (Status j)
              (StatusDetails j) (BuildbucketToken j) :: published /\
      Forall is_publish published).
Proof.
  unfold updateBuild. emits_step. emits_step.
  destruct (bb2_UpdateBuild E (log w) _ _ _ _).
  - emits_step. exists []. split; [reflexivity | constructor].
  - emits_step. eapply emits_mono; [apply sendPubSub_publishes|].
    intros err evs Hevs. emits_step. exists evs.
    split; [simpl; now rewrite app_nil_r | exact Hevs].
Qed.






(** ** The properties at work *)

(** Finds an element in a list that computes. *)
Ltac find_in :=
  apply list_elem_of_In; vm_compute;
  repeat (first [left; reflexivity | right]).

Lemma valid_one_job (j : Job) :
  Forall (fun p => is_Some (heap (one_job_world j) !! p)) [0%nat].
Proof. constructor; [eexists; reflexivity | constructor]. Defined.

(** C5, as the claim groups it: a REQUESTED job that holds a lease key is in
    the cache and satisfies "non-zero lease key, or non-empty token and not
    REQUESTED", yet [getActiveTryJobs] leaves it out. *)
Lemma getActiveTryJobs_or_and_counterexample :
  exists rv w' p j,
    getActiveTryJobs quiet (world_of [] [sample_job JOB_STATUS_REQUESTED])
    = Ret (rv, None) w' /\
    p ∈ jCache w' /\ heap w' !! p = Some j /\
    ~ (p ∈ rv <->
       BuildbucketLeaseKey j <> 0
       \/ BuildbucketToken j <> "" /\ Status j <> JOB_STATUS_REQUESTED).
Proof.
  eexists _, _, 0%nat, _. split; [vm_compute; reflexivity|].
  split; [apply list_elem_of_singleton; reflexivity|].
  split; [reflexivity|].
  intros [_ H]. assert (Hin : 0%nat ∈ @nil ptr) by (apply H; left; discriminate).
  inversion Hin.
Qed.

(** C5, as amended, at work: a job in progress that holds a lease key is
    active. *)
Lemma getActiveTryJobs_active_witness :
  exists rv w',
    getActiveTryJobs quiet (world_of [] [sample_job JOB_STATUS_IN_PROGRESS])
    = Ret (rv, None) w' /\
    0%nat ∈ rv.
Proof.
  destruct (getActiveTryJobs_active quiet
              (world_of [] [sample_job JOB_STATUS_IN_PROGRESS]))
    as (rv & err & w' & Hrun & Hok & _).
  assert (Herr : err = None).
  { vm_compute in Hrun. now injection Hrun as _ <- _. }
  subst err. exists rv, w'. split; [exact Hrun|].
  vm_compute in Hrun. injection Hrun as Hrv Hw'. subst w'.
  apply (Hok eq_refl 0%nat (sample_job JOB_STATUS_IN_PROGRESS)).
  - apply list_elem_of_singleton. reflexivity.
  - reflexivity.
  - split; [left|]; discriminate.
Defined.

(** C10 at work: one job of the asynchronous protocol is canceled and keeps
    its token. *)
Lemma localCancelJobs_frame_witness :
  exists err w' j',
    localCancelJobs quiet [0%nat] ["Buildbucket rejected heartbeat"]
      (one_job_world (sample_job_v2 JOB_STATUS_IN_PROGRESS "tok1"))
    = Ret err w' /\
    heap w' !! 0%nat = Some j' /\
    Status j' = JOB_STATUS_CANCELED /\ BuildbucketToken j' = "tok1".
Proof.
  destruct (localCancelJobs_frame quiet [0%nat]
              ["Buildbucket rejected heartbeat"]
              (one_job_world (sample_job_v2 JOB_STATUS_IN_PROGRESS "tok1")))
    as (err & w' & js & Hrun & _ & _ & Hjobs).
  - reflexivity.
  - apply valid_one_job.
  - apply NoDup_singleton.
  - destruct (Hjobs 0%nat 0%nat
                (sample_job_v2 JOB_STATUS_IN_PROGRESS "tok1") eq_refl eq_refl)
      as (j' & reason & Hj' & _ & _ & _ & Hst & _ & _ & Htok & _).
    exists err, w', j'. auto.
Defined.



(** C7 at work: Buildbucket answers a batch of one heartbeat with no
    result. *)
Lemma send_mismatch_witness :
  exists e,
    send short_heartbeat_results sample_lib 0 [0%nat] []
      (one_job_world (sample_job JOB_STATUS_IN_PROGRESS))
    = Ret [e]
        (set_log [BB_HeartbeatBatch
                    (heartbeats_of 0 [sample_job JOB_STATUS_IN_PROGRESS])]
           (one_job_world (sample_job JOB_STATUS_IN_PROGRESS))).
Proof.
  destruct (send_mismatch short_heartbeat_results sample_lib 0 [0%nat] []
              (one_job_world (sample_job JOB_STATUS_IN_PROGRESS))
              [sample_job JOB_STATUS_IN_PROGRESS] [] 0%nat)
    as (e & Hsend & _).
  - discriminate.
  - apply valid_one_job.
  - constructor; [reflexivity | constructor].
  - reflexivity.
  - simpl. discriminate.
  - exists e. exact Hsend.
Defined.

(** C6 at work: a job that is IN_PROGRESS in the database is not started
    again. *)
Lemma startJob_at_most_once_witness :
  startJob quiet sample_lib sample_integrator 0%nat
    (world_of [sample_job JOB_STATUS_REQUESTED]
       [sample_job JOB_STATUS_IN_PROGRESS])
  = Ret None
      (set_log [DB_GetJobById "job1"]
         (world_of [sample_job JOB_STATUS_REQUESTED]
            [sample_job JOB_STATUS_IN_PROGRESS])).
Proof.
  apply (proj1 (startJob_at_most_once quiet sample_lib sample_integrator
                  0%nat
                  (world_of [sample_job JOB_STATUS_REQUESTED]
                     [sample_job JOB_STATUS_IN_PROGRESS])
                  (sample_job JOB_STATUS_REQUESTED)
                  eq_refl ltac:(discriminate))
           (sample_job JOB_STATUS_IN_PROGRESS)).
  - reflexivity.
  - reflexivity.
  - discriminate.
Defined.

(** C4, as amended, at work: the job for patchset 1 of change 527502 becomes
    a MISHAP. *)
Lemma startJob_rejects_denylisted_witness :
  exists r w' j',
    startJob quiet sample_lib sample_integrator 0%nat
      (one_job_world denylisted_job) = Ret r w' /\
    heap w' !! 0%nat = Some j' /\ Status j' = JOB_STATUS_MISHAP.
Proof.
  destruct (startJob_rejects_denylisted quiet sample_lib sample_integrator
              0%nat (one_job_world denylisted_job)
              denylisted_job denylisted_job)
    as (r & w' & j' & evs & Hrun & Hj' & Hst & _).
  - reflexivity.
  - discriminate.
  - reflexivity.
  - reflexivity.
  - reflexivity.
  - reflexivity.
  - exists r, w', j'. auto.
Defined.

(** C4 as the claim states it: intake leases the build for patchset 1 of
    change 527502 and creates a job for it. *)
Lemma insertNewJobV1_denylisted_counterexample :
  exists w' expiration j,
    insertNewJobV1 denylisted_build_pending sample_lib sample_integrator 42
      (world_of [] [])
    = Ret None w' /\
    BB_Lease 42 expiration ∈ log w' /\
    j ∈ db w' /\ BuildbucketBuildId j = 42 /\
    Status j = JOB_STATUS_REQUESTED /\
    skipRepoState (Job_RepoState j) = true.
Proof.
  eexists _, _, _. split; [vm_compute; reflexivity|].
  split; [find_in|]. split; [find_in|]. repeat split.
Qed.

(** C9 at work: the build was created ten seconds ago. *)
Lemma insertNewJobV1_requested_before_created_witness :
  Forall (fun row => Requested row < Created row)
    (db (final (insertNewJobV1 quiet sample_lib sample_integrator 42
                  (world_of [] [])))).
Proof.
  apply Forall_forall. intros row Hrow.
  destruct (insertNewJobV1_requested_before_created quiet sample_lib
              sample_integrator 42 (world_of [] [])
              (final (insertNewJobV1 quiet sample_lib sample_integrator 42
                        (world_of [] []))))
    as (_ & _ & Hdb).
  - reflexivity.
  - reflexivity.
  - destruct (Hdb row Hrow) as [Hin|[Hlt _]]; [inversion Hin | exact Hlt].
Defined.

(** C2 at work: the heartbeat of build 42 is rejected with LEASE_EXPIRED and
    the lease that follows fails in transport; the job stays IN_PROGRESS with
    lease key zero. *)
Lemma send_release_never_cancels_witness :
  exists w' j',
    send lease_lost_in_transport sample_lib 1700003600000000 [0%nat] []
      (one_job_world (sample_job JOB_STATUS_IN_PROGRESS))
    = Ret [] w' /\
    heap w' !! 0%nat = Some j' /\
    Status j' = JOB_STATUS_IN_PROGRESS /\ BuildbucketLeaseKey j' = 0 /\
    db w' = db (one_job_world (sample_job JOB_STATUS_IN_PROGRESS)).
Proof.
  set (j := sample_job JOB_STATUS_IN_PROGRESS).
  set (w := one_job_world j).
  set (E := lease_lost_in_transport).
  set (ts := 1700003600000000).
  set (o := tryLeaseV1Build E (BuildbucketBuildId j)
              (set_log (log w ++ [BB_HeartbeatBatch (heartbeats_of ts [j])])
                 w)).
  destruct (send_release_never_cancels E sample_lib ts [0%nat] [j] [] w
              [] {| hbr_Error := Some lease_expired |} [] lease_expired
              0%nat j
              (value (0, None, None) o).1.1 (value (0, None, None) o).1.2
              (value (0, None, None) o).2 (final o))
    as [[ex Hsend] Hkey].
  - constructor; [reflexivity | constructor].
  - reflexivity.
  - reflexivity.
  - constructor.
  - constructor.
  - reflexivity.
  - reflexivity.
  - reflexivity.
  - reflexivity.
  - vm_compute. reflexivity.
  - destruct Hkey as [Hkey _]; [vm_compute; discriminate|].
    eexists _, _. split; [exact Hsend|].
    split; [reflexivity|]. split; [reflexivity|]. split; [exact Hkey|].
    reflexivity.
Defined.

(** The same through [sendHeartbeats], with the lease failing in transport
    and with the lease refused by Buildbucket: no error is returned, the job
    is not canceled, its lease key becomes zero, and the heartbeat and the
    lease are the only calls. *)
Example sendHeartbeats_failed_release_not_canceled :
  sendHeartbeats lease_lost_in_transport sample_lib [0%nat]
    (one_job_world (sample_job JOB_STATUS_IN_PROGRESS))
  = Ret None after_failed_release
  /\
  sendHeartbeats lease_lost_and_refused sample_lib [0%nat]
    (one_job_world (sample_job JOB_STATUS_IN_PROGRESS))
  = Ret None after_failed_release.
Proof. split; vm_compute; reflexivity. Qed.

(** The first half of C2 in a batch of two jobs: the heartbeat of build 42 is
    rejected with LEASE_EXPIRED and the lease is granted again; the job of
    build 42 gets the new key, the job of build 41 is left as it was. *)
Example sendHeartbeats_releases_the_expired_job_only :
  let j41 := other_job JOB_STATUS_IN_PROGRESS in
  let j42 := sample_job JOB_STATUS_IN_PROGRESS in
  let o := sendHeartbeats lease_expired_for_42 sample_lib [0%nat; 1%nat]
             (world_of [j42; j41] [j42; j41]) in
  value (Some (errors_New "")) o = None /\
  heap (final o) = [set_BuildbucketLeaseKey 9 j42; j41] /\
  List.filter (fun ev => match ev with BB_Lease _ _ => true | _ => false end)
    (log (final o)) = [BB_Lease 42 1700001800000000].
Proof. vm_compute. repeat split. Qed.

(** C3 at work: Buildbucket has recorded a StartBuild for the build of a job
    of the asynchronous protocol. *)
Lemma startJob_already_started_panics_witness :
  exists w' j',
    startJob start_already_recorded sample_lib sample_integrator 0%nat
      (one_job_world (sample_job_v2 JOB_STATUS_REQUESTED ""))
    = Panic w' /\
    heap w' !! 0%nat = Some j' /\ Status j' = JOB_STATUS_CANCELED.
Proof.
  set (j := sample_job_v2 JOB_STATUS_REQUESTED "").
  set (w := one_job_world j).
  set (E := start_already_recorded).
  set (o2 := startJobHelper E sample_lib sample_integrator 0%nat
               (set_log (log w ++ [DB_GetJobById (Id j)]) w)).
  set (j2 := match heap (final o2) !! 0%nat with Some x => x | None => j end).
  set (o4 := jobStarted E sample_lib sample_integrator
               (set_Status JOB_STATUS_IN_PROGRESS j2)
               (set_heap (<[0%nat := set_Status JOB_STATUS_IN_PROGRESS j2]>
                            (heap (final o2))) (final o2))).
  apply (startJob_already_started_panics E sample_lib sample_integrator
           0%nat w j j (final o2) j2
           (value ("", None, None) o4).1.1 (value ("", None, None) o4).1.2
           (value ("", None, None) o4).2 (final o4)).
  - reflexivity.
  - reflexivity.
  - reflexivity.
  - reflexivity.
  - vm_compute. reflexivity.
  - vm_compute. reflexivity.
  - vm_compute. reflexivity.
  - vm_compute. reflexivity.
Defined.


(** The scenario of the cleanup as a whole: the search finds build 43, whose
    job is CANCELED without a token; one [CancelBuild] goes out, and no
    [UpdateBuild]. *)
Example buildbucketCleanup_cancels_without_token :
  let j := sample_job_v2 JOB_STATUS_CANCELED "" in
  let o := buildbucketCleanup stale_build_found sample_lib sample_integrator
             (world_of [] [j]) in
  value (Some (errors_New "")) o = None /\
  List.filter (fun ev => match ev with
                         | BB2_CancelBuild _ _ | BB2_UpdateBuild _ _ _ _ => true
                         | _ => false
                         end) (log (final o))
  = [BB2_CancelBuild 43 "We no longer have an update token for this build"].
Proof. vm_compute. split; reflexivity. Qed.


(** The scenario of the reconciler: a job of the asynchronous protocol has
    finished with SUCCESS and token tok1, and Buildbucket answers
    [UpdateBuild] with "cannot update an ended build"; the token is cleared
    and the job is written with an empty token. *)
Example updateJobs_already_ended_scenario :
  let j := sample_job_v2 JOB_STATUS_SUCCESS "tok1" in
  let o := updateJobs build_already_ended sample_lib (world_of [] [j]) in
  value (Some (errors_New "")) o = None /\
  db (final o) = [set_BuildbucketToken "" j].
Proof. vm_compute. split; reflexivity. Qed.

(** * Further properties of the package *)

(** ** Topics and updates *)

Lemma string_app_cons c (s r : string) :
  String c s +:+ r = String c (s +:+ r).
Proof. reflexivity. Qed.

Lemma string_app_empty_r (s : string) : s +:+ "" = s.
Proof.
  induction s as [|c s IH]; [reflexivity|].
  rewrite string_app_cons. now rewrite IH.
Qed.

Lemma strip_prefix_Some pre : forall s r,
  strip_prefix pre s = Some r <-> s = pre +:+ r.
Proof.
  induction pre as [|a pre IH]; intros s r; simpl.
  - split; [now intros [= ->] | now intros ->].
  - rewrite string_app_cons. destruct s as [|b s].
    + split; discriminate.
    + destruct (Ascii.eqb a b) eqn:Hab.
      * apply Ascii.eqb_eq in Hab as ->. rewrite IH.
        split; [now intros -> | now intros [= ->]].
      * apply Ascii.eqb_neq in Hab. split; [discriminate|].
        intros [= -> _]. now destruct Hab.
Qed.

Lemma span_topic_app a : forall b,
  topic_chars a = true ->
  match b with
  | EmptyString => True
  | String c _ => topic_char c = false
  end ->
  span_topic (a +:+ b) = (a, b).
Proof.
  induction a as [|c a IH]; intros b Ha Hb.
  - change ("" +:+ b) with b.
    destruct b as [|c b]; [reflexivity|]. simpl. now rewrite Hb.
  - simpl in Ha. apply andb_true_iff in Ha as [Hc Ha].
    rewrite string_app_cons. simpl. rewrite Hc, (IH b Ha Hb). reflexivity.
Qed.

Lemma span_topic_inv s : forall a b,
  span_topic s = (a, b) ->
  s = a +:+ b /\ topic_chars a = true /\
  match b with
  | EmptyString => True
  | String c _ => topic_char c = false
  end.
Proof.
  induction s as [|c s IH]; intros a b; simpl.
  - intros [= <- <-]. auto.
  - destruct (topic_char c) eqn:Hc.
    + destruct (span_topic s) as [a' b'] eqn:Hs. intros [= <- <-].
      destruct (IH a' b' eq_refl) as (-> & Ha & Hb).
      rewrite string_app_cons. simpl. rewrite Hc, Ha. auto.
    + intros [= <- <-]. simpl. auto.
Qed.

(** X1.  [pubsubRegex] accepts exactly the fully-qualified topics: it finds
    the groups [p] and [t] in a text if and only if the text is
    "projects/p/topics/t" with [p] and [t] non-empty names over
    [[a-zA-Z_-]]. *)
Theorem pubsubRegex_exact s p t :
  pubsubRegex s = Some (p, t) <->
  s = "projects/" +:+ p +:+ "/topics/" +:+ t /\
  topic_name p = true /\ topic_name t = true.
Proof.
  unfold pubsubRegex. split.
  - destruct (strip_prefix "projects/" s) as [r1|] eqn:H1; [|discriminate].
    apply strip_prefix_Some in H1.
    destruct (span_topic r1) as [project r2] eqn:H2.
    apply span_topic_inv in H2 as (Hr1 & Hp & _).
    destruct project as [|c0 project]; [discriminate|].
    destruct (strip_prefix "/topics/" r2) as [r3|] eqn:H3; [|discriminate].
    apply strip_prefix_Some in H3.
    destruct (span_topic r3) as [tp rest] eqn:H4.
    apply span_topic_inv in H4 as (Hr3 & Ht & _).
    destruct tp as [|c tp]; [discriminate|].
    destruct rest; [|discriminate].
    intros [= <- <-]. subst. split; [|split; assumption].
    now rewrite string_app_empty_r.
  - intros (-> & Hp & Ht).
    assert (H1 : strip_prefix "projects/"
                   ("projects/" +:+ p +:+ "/topics/" +:+ t)
                 = Some (p +:+ "/topics/" +:+ t))
      by now apply strip_prefix_Some.
    rewrite H1.
    assert (H2 : span_topic (p +:+ "/topics/" +:+ t)
                 = (p, "/topics/" +:+ t)).
    { apply span_topic_app; [|reflexivity].
      destruct p; [discriminate | exact Hp]. }
    rewrite H2.
    destruct p as [|c0 p]; [discriminate|].
    assert (H3 : strip_prefix "/topics/" ("/topics/" +:+ t) = Some t)
      by now apply strip_prefix_Some.
    rewrite H3.
    assert (H4 : span_topic t = (t, EmptyString)).
    { rewrite <- (string_app_empty_r t) at 1.
      apply span_topic_app; [|exact I].
      destruct t; [discriminate | exact Ht]. }
    rewrite H4. destruct t; [discriminate | reflexivity].
Qed.

(** [sendPubSub] returns, changes nothing and makes the one call of
    [published]; it returns no error exactly when the job was encoded and
    published. *)
Lemma sendPubSub_run E L j w :
  exists r,
    sendPubSub E L j w = Ret r (set_log (log w ++ published E L j) w) /\
    (r = None <->
     proto_Marshal_err L j = None /\
     pubsub_Publish E (log w) (pubsub_target E j).1 (pubsub_target E j).2
       (BuildbucketBuildId j) = None).
Proof.
  unfold sendPubSub, published, pubsub_target.
  destruct (proto_Marshal_err L j) as [e|] eqn:Hm.
  - eexists. split.
    + rewrite ret_unfold, app_nil_r. destruct w; reflexivity.
    + simpl. split; [discriminate | intros [? _]; discriminate].
  - destruct (pubsubRegex (BuildbucketPubSubTopic j)) as [[p t]|];
      rewrite bind_unfold; unfold call at 1; rewrite ret_unfold; simpl;
      eexists; (split; [reflexivity|]);
      match goal with
      | |- context [pubsub_Publish ?E ?h ?a ?b ?c] =>
          destruct (pubsub_Publish E h a b c)
      end; simpl; split; try tauto; try discriminate;
      intros [_ ?]; discriminate.
Qed.

Lemma sendPubsubUpdates_loop_run E L jobs : forall js errs w,
  Forall2 (fun p j => heap w !! p = Some j) jobs js ->
  exists more,
    sendPubsubUpdates_loop E L jobs errs w
    = Ret (errs ++ more)
        (set_log (log w ++ flat_map (published E L) js) w) /\
    (more = [] <->
     forall pre j post, js = pre ++ j :: post ->
       proto_Marshal_err L j = None /\
       pubsub_Publish E (log w ++ flat_map (published E L) pre)
         (pubsub_target E j).1 (pubsub_target E j).2 (BuildbucketBuildId j)
       = None).
Proof.
  induction jobs as [|p jobs IH]; intros js errs w Hjs.
  - inversion Hjs; subst. exists []. simpl. rewrite !app_nil_r.
    split; [destruct w; reflexivity|].
    split; [|reflexivity]. intros _ pre j post H. now destruct pre.
  - inversion Hjs as [|? j ? js' Hp Hjs']; subst. simpl.
    rewrite bind_unfold. unfold load. rewrite Hp.
    destruct (sendPubSub_run E L j w) as (r & Hrun & Hr).
    rewrite bind_unfold, Hrun.
    destruct (IH js' (append_error errs r)
                (set_log (log w ++ published E L j) w))
      as (more & Hl & Hmore); [exact Hjs'|].
    exists (append_error [] r ++ more). split.
    + rewrite Hl. f_equal.
      * destruct r; simpl; [now rewrite <- app_assoc | reflexivity].
      * simpl. rewrite <- app_assoc. reflexivity.
    + split.
      * intros Hnil. apply app_eq_nil in Hnil as [Hr0 Hm0].
        assert (r = None) as Hrn by (destruct r; [discriminate | reflexivity]).
        intros pre j0 post Hsplit. destruct pre as [|j1 pre].
        -- injection Hsplit as <- _. rewrite app_nil_r. now apply Hr.
        -- injection Hsplit as <- ->.
           destruct (proj1 Hmore Hm0 pre j0 post eq_refl) as [Hm1 Hp1].
           split; [exact Hm1|]. simpl in Hp1. simpl.
           now rewrite app_assoc.
      * intros Hall.
        assert (r = None) as ->.
        { apply Hr. specialize (Hall [] j js' eq_refl).
          simpl in Hall. now rewrite app_nil_r in Hall. }
        simpl. apply Hmore. intros pre j0 post ->.
        destruct (Hall (j :: pre) j0 post eq_refl) as [Hm1 Hp1].
        split; [exact Hm1|]. simpl in Hp1. simpl.
        now rewrite <- app_assoc.
Qed.

Lemma omap_lookup_all (h : list Job) (ps : list ptr) js :
  Forall2 (fun p j => h !! p = Some j) ps js -> omap (h !!.) ps = js.
Proof.
  induction 1 as [|p j ps js Hp _ IH]; [reflexivity|].
  cbn [omap list_omap]. rewrite Hp. cbn. now rewrite IH.
Qed.

Lemma lookup_all_omap (h : list Job) (ps : list ptr) :
  Forall (fun p => is_Some (h !! p)) ps ->
  Forall2 (fun p j => h !! p = Some j) ps (omap (h !!.) ps).
Proof.
  induction 1 as [|p ps [j Hp] _ IH]; [constructor|].
  cbn [omap list_omap]. rewrite Hp. cbn. now constructor.
Qed.

(** X2.  The goroutines of [sendPubsubUpdates] make one call each, so a run
    of the group is a run of its jobs in the order in which the calls are
    made.  In whatever order [order] that is, one update is published for
    every job that can be encoded, whether or not the update of another job
    failed, and nothing else changes: the updates that go out are those of
    the jobs, in the order of the run.  The result is nil exactly when every
    job was encoded and every publish of the run succeeded. *)
Theorem sendPubsubUpdates_publishes_all E L jobs js order w :
  Forall2 (fun p j => heap w !! p = Some j) jobs js ->
  order ≡ₚ jobs ->
  exists r os,
    Forall2 (fun p j => heap w !! p = Some j) order os /\
    os ≡ₚ js /\
    sendPubsubUpdates E L order w
    = Ret r (set_log (log w ++ flat_map (published E L) os) w) /\
    flat_map (published E L) os ≡ₚ flat_map (published E L) js /\
    (r = None <->
     forall pre j post, os = pre ++ j :: post ->
       proto_Marshal_err L j = None /\
       pubsub_Publish E (log w ++ flat_map (published E L) pre)
         (pubsub_target E j).1 (pubsub_target E j).2 (BuildbucketBuildId j)
       = None).
Proof.
  intros Hjs Hperm.
  assert (Hv : Forall (fun p => is_Some (heap w !! p)) order).
  { rewrite Hperm. eapply Forall2_Forall_l; [exact Hjs|].
    apply Forall_forall. intros j _ p Hp. eauto. }
  set (os := omap (heap w !!.) order).
  assert (Hos : Forall2 (fun p j => heap w !! p = Some j) order os)
    by now apply lookup_all_omap.
  assert (Hpos : os ≡ₚ js).
  { unfold os. rewrite Hperm.
    now replace (omap (heap w !!.) jobs) with js
      by (symmetry; exact (omap_lookup_all _ _ _ Hjs)). }
  unfold sendPubsubUpdates.
  destruct (sendPubsubUpdates_loop_run E L order os [] w Hos)
    as (more & Hrun & Hmore).
  rewrite bind_unfold, Hrun. cbn [app].
  assert (Hflat : flat_map (published E L) os
                  ≡ₚ flat_map (published E L) js)
    by now apply Permutation_flat_map.
  destruct more as [|e more]; eexists _, os;
    (split; [exact Hos|]); (split; [exact Hpos|]);
    (split; [reflexivity|]); (split; [exact Hflat|]).
  - split; [intros _; now apply Hmore | reflexivity].
  - split; [discriminate|]. intros H. apply Hmore in H. discriminate.
Qed.

(** ** Heartbeats that change nothing *)

Lemma send_results_benign results jobs : forall i retry cj cr w,
  Forall (fun r => benign r = true) results ->
  send_results i results jobs retry cj cr w = Ret (retry, cj, cr) w.
Proof.
  induction results as [|r results IH]; intros i retry cj cr w Hq; simpl.
  - reflexivity.
  - inversion Hq as [|? ? Hr Hq']; subst. unfold benign in Hr.
    destruct (hbr_Error r) as [e|]; [rewrite Hr|]; now apply IH.
Qed.

(** A batch that fails in transport, or whose results are all benign, leaves
    the jobs as they are. *)
Lemma send_quiet E L expiration jobs js errs w :
  Forall2 (fun p j => heap w !! p = Some j) jobs js ->
  match bb_HeartbeatBatch E (log w) (heartbeats_of expiration js) with
  | Reply results =>
      length results = length jobs -> Forall (fun r => benign r = true) results
  | Failed _ => True
  end ->
  exists more,
    send E L expiration jobs errs w
    = Ret (errs ++ more)
        (set_log (log w ++ [BB_HeartbeatBatch (heartbeats_of expiration js)])
           w) /\
    (more = [] <-> answered E (log w) (heartbeats_of expiration js) = true).
Proof.
  intros Hjs Hb. unfold send, answered.
  rewrite bind_unfold, (loadAll_eq _ _ _ Hjs).
  fold (heartbeats_of expiration js).
  rewrite bind_unfold. unfold call at 1.
  assert (Hlen : length (heartbeats_of expiration js) = length jobs).
  { unfold heartbeats_of. rewrite length_fmap.
    symmetry. eapply Forall2_length, Hjs. }
  destruct (bb_HeartbeatBatch E (log w) (heartbeats_of expiration js))
    as [results|e].
  - rewrite Hlen.
    destruct (Nat.eqb_spec (length results) (length jobs)) as [Heq|Hne].
    + cbn [negb]. rewrite bind_unfold.
      rewrite send_results_benign by auto. cbv beta iota.
      cbn [length Nat.ltb Nat.leb]. rewrite bind_unfold, ret_unfold.
      cbv beta iota. cbn [length Nat.ltb Nat.leb].
      rewrite bind_unfold, ret_unfold. cbv beta iota.
      cbn [length Nat.ltb Nat.leb]. rewrite ret_unfold.
      exists []. rewrite app_nil_r. split; [reflexivity | tauto].
    + cbn [negb]. rewrite ret_unfold. eexists [_]. split; [reflexivity|].
      split; discriminate.
  - rewrite ret_unfold. eexists [_]. split; [reflexivity|].
    split; discriminate.
Qed.

Lemma sendHeartbeats_batches_step E L rounds expiration jobs errs w :
  jobs <> [] ->
  sendHeartbeats_batches E L (S rounds) expiration jobs errs w
  = (errs ← send E L expiration (take (batch_size jobs) jobs) errs;
     sendHeartbeats_batches E L rounds expiration
       (drop (batch_size jobs) jobs) errs) w.
Proof. destruct jobs; [contradiction | reflexivity]. Qed.

Lemma sendHeartbeats_batches_quiet E L expiration :
  (forall h hbs,
     match bb_HeartbeatBatch E h hbs with
     | Reply results =>
         length results = length hbs -> Forall (fun r => benign r = true) results
     | Failed _ => True
     end) ->
  forall rounds jobs js errs w,
  (length jobs <= rounds)%nat ->
  Forall2 (fun p j => heap w !! p = Some j) jobs js ->
  exists more batches,
    sendHeartbeats_batches E L rounds expiration jobs errs w
    = Ret (errs ++ more)
        (set_log (log w ++ (BB_HeartbeatBatch <$> batches)) w) /\
    concat batches = heartbeats_of expiration js /\
    Forall (fun b => (0 < length b <= LEASE_BATCH_SIZE)%nat) batches /\
    (more = [] <->
     forall pre b post, batches = pre ++ b :: post ->
       answered E (log w ++ (BB_HeartbeatBatch <$> pre)) b = true).
Proof.
  intros Hq. induction rounds as [|rounds IH]; intros jobs js errs w Hr Hjs.
  - destruct jobs; [|simpl in Hr; lia]. inversion Hjs; subst.
    exists [], []. simpl. rewrite !app_nil_r.
    split; [destruct w; reflexivity|]. split; [reflexivity|].
    split; [constructor|]. split; [|reflexivity].
    intros _ pre b post H. now destruct pre.
  - destruct jobs as [|p jobs].
    { inversion Hjs; subst. exists [], []. simpl. rewrite !app_nil_r.
      split; [destruct w; reflexivity|]. split; [reflexivity|].
      split; [constructor|]. split; [|reflexivity].
      intros _ pre b post H. now destruct pre. }
    rewrite sendHeartbeats_batches_step by discriminate.
    set (k := batch_size (p :: jobs)).
    assert (Hk : (0 < k <= LEASE_BATCH_SIZE)%nat /\ (k <= length (p :: jobs))%nat).
    { unfold k. rewrite batch_size_min. unfold LEASE_BATCH_SIZE.
      cbn [length]. lia. }
    assert (Hjs1 : Forall2 (fun p j => heap w !! p = Some j)
                     (take k (p :: jobs)) (take k js))
      by now apply Forall2_take.
    assert (Hjs2 : Forall2 (fun p j => heap w !! p = Some j)
                     (drop k (p :: jobs)) (drop k js))
      by now apply Forall2_drop.
    assert (Hlenjs : length js = length (p :: jobs))
      by (symmetry; eapply Forall2_length, Hjs).
    destruct (send_quiet E L expiration (take k (p :: jobs)) (take k js)
                errs w Hjs1) as (more1 & Hsend & Hmore1).
    { specialize (Hq (log w) (heartbeats_of expiration (take k js))).
      destruct (bb_HeartbeatBatch E (log w)
                  (heartbeats_of expiration (take k js))); [|exact I].
      intros Hl. apply Hq. rewrite Hl. unfold heartbeats_of.
      rewrite length_fmap. eapply Forall2_length, Hjs1. }
    rewrite bind_unfold, Hsend.
    set (b1 := heartbeats_of expiration (take k js)) in *.
    set (w1 := set_log (log w ++ [BB_HeartbeatBatch b1]) w).
    destruct (IH (drop k (p :: jobs)) (drop k js) (errs ++ more1) w1)
      as (more2 & batches & Hrun & Hcat & Hsz & Hmore2).
    { rewrite length_drop. simpl in *. lia. }
    { exact Hjs2. }
    exists (more1 ++ more2), (b1 :: batches).
    split; [|split; [|split]].
    + rewrite Hrun. f_equal; [now rewrite app_assoc|].
      unfold w1. simpl. rewrite <- app_assoc. reflexivity.
    + simpl. rewrite Hcat. unfold b1, heartbeats_of.
      rewrite <- fmap_app, take_drop. reflexivity.
    + constructor; [|exact Hsz]. unfold b1, heartbeats_of.
      rewrite length_fmap, length_take. lia.
    + split.
      * intros Hnil. apply app_eq_nil in Hnil as [H1 H2].
        intros pre b post Hsplit. destruct pre as [|b0 pre].
        -- injection Hsplit as <- _. simpl. rewrite app_nil_r. now apply Hmore1.
        -- injection Hsplit as <- ->.
           pose proof (proj1 Hmore2 H2 pre b post eq_refl) as Ha.
           simpl in Ha. simpl. now rewrite <- app_assoc in Ha.
      * intros Hall.
        assert (more1 = []) as ->.
        { apply Hmore1. specialize (Hall [] b1 batches eq_refl).
          simpl in Hall. now rewrite app_nil_r in Hall. }
        simpl. apply Hmore2. intros pre b post ->.
        pose proof (Hall (b1 :: pre) b post eq_refl) as Ha.
        simpl in Ha. simpl. now rewrite <- app_assoc.
Qed.

(** ** The order of the heartbeats *)

Lemma ascending_insert x l :
  ascending (snd <$> l) = true ->
  ascending (snd <$> insert_by_id x l) = true.
Proof.
  induction l as [|y l IH]; [reflexivity|].
  intros H. cbn [insert_by_id].
  destruct (Z.leb_spec (snd y) (snd x)) as [Hle|Hgt].
  - assert (Hl : ascending (snd <$> l) = true).
    { destruct l as [|z l]; [reflexivity|].
      cbn in H. now apply andb_true_iff in H as [_ H]. }
    specialize (IH Hl).
    destruct l as [|z l].
    + cbn. apply andb_true_iff. split; [now apply Z.leb_le | reflexivity].
    + cbn [insert_by_id] in *.
      destruct (snd z <=? snd x).
      * cbn in *. apply andb_true_iff in H as [Hyz _].
        rewrite Hyz. exact IH.
      * cbn in *. apply andb_true_iff. split; [now apply Z.leb_le | exact IH].
  - cbn [fmap list_fmap]. cbn. apply andb_true_iff.
    split; [apply Z.leb_le; lia | exact H].
Qed.

Lemma ascending_sort_by_id l : ascending (snd <$> sort_by_id l) = true.
Proof.
  unfold sort_by_id.
  enough (H : forall acc, ascending (snd <$> acc) = true ->
                ascending (snd <$> fold_left (fun acc x => insert_by_id x acc)
                                     l acc) = true)
    by now apply H.
  induction l as [|x l IH]; intros acc Hacc; simpl; [exact Hacc|].
  apply IH. now apply ascending_insert.
Qed.

(** [sortJobs] returns the pointers in ascending order of the build ids of
    their jobs. *)
Lemma sortJobs_ascending jobs js w :
  Forall2 (fun p j => heap w !! p = Some j) jobs js ->
  exists sorted sjs,
    sortJobs jobs w = Ret sorted w /\
    Forall2 (fun p j => heap w !! p = Some j) sorted sjs /\
    sjs ≡ₚ js /\ ascending (BuildbucketBuildId <$> sjs) = true.
Proof.
  intros Hjs. unfold sortJobs. rewrite bind_unfold, (loadAll_eq _ _ _ Hjs).
  rewrite ret_unfold.
  set (pairs := sort_by_id (zip jobs (BuildbucketBuildId <$> js))).
  assert (Hpairs : Forall (fun pr => exists j, heap w !! pr.1 = Some j /\
                                     BuildbucketBuildId j = pr.2) pairs).
  { unfold pairs. rewrite sort_by_id_perm.
    clear pairs. induction Hjs as [|p j ps js' Hp _ IH]; [constructor|].
    simpl. constructor; [eauto | exact IH]. }
  assert (Hsorted : ascending (snd <$> pairs) = true)
    by apply ascending_sort_by_id.
  assert (Hperm : fst <$> pairs ≡ₚ jobs).
  { unfold pairs. rewrite sort_by_id_perm, fst_zip; [reflexivity|].
    rewrite length_fmap. apply Forall2_length in Hjs. lia. }
  assert (Hload : exists sjs,
            Forall2 (fun p j => heap w !! p = Some j) (fst <$> pairs) sjs /\
            BuildbucketBuildId <$> sjs = snd <$> pairs).
  { clear Hsorted Hperm. induction Hpairs as [|pr prs (j & Hj & Hid) _ IH].
    - exists []. split; [constructor | reflexivity].
    - destruct IH as (sjs & H2 & Hids). exists (j :: sjs).
      split; [now constructor|]. rewrite !fmap_cons. now rewrite Hid, Hids. }
  destruct Hload as (sjs & Hsjs & Hids).
  exists (fst <$> pairs), sjs. split; [reflexivity|]. split; [exact Hsjs|].
  split; [|now rewrite Hids].
  assert (Ho : forall ps l, Forall2 (fun p j => heap w !! p = Some j) ps l ->
                 omap (fun p => heap w !! p) ps = l).
  { clear. intros ps l H. induction H as [|p j ps l Hp _ IH]; [reflexivity|].
    cbn [omap list_omap]. rewrite Hp. cbn. f_equal. exact IH. }
  rewrite <- (Ho _ _ Hsjs), <- (Ho _ _ Hjs). now rewrite Hperm.
Qed.

(** X3.  When every heartbeat call fails in transport or comes back with
    nothing but benign results, [sendHeartbeats] changes no job: it reads
    the clock and sends the heartbeats of all the jobs, in ascending order of
    build id, in batches of at most [LEASE_BATCH_SIZE]; a batch that fails
    does not keep the later ones from being sent, and the result is nil
    exactly when every batch was answered. *)
Theorem sendHeartbeats_sends_all E L jobs js w :
  Forall2 (fun p j => heap w !! p = Some j) jobs js ->
  (forall h hbs,
     match bb_HeartbeatBatch E h hbs with
     | Reply results =>
         length results = length hbs -> Forall (fun r => benign r = true) results
     | Failed _ => True
     end) ->
  let expiration :=
    int64 (Unix (now_Now E (log w) + LEASE_DURATION) * secondsToMicros) in
  exists r sorted batches,
    sendHeartbeats E L jobs w
    = Ret r (set_log (log w ++ Clock_Now :: (BB_HeartbeatBatch <$> batches))
               w) /\
    sorted ≡ₚ js /\ ascending (BuildbucketBuildId <$> sorted) = true /\
    concat batches = heartbeats_of expiration sorted /\
    Forall (fun b => (0 < length b <= LEASE_BATCH_SIZE)%nat) batches /\
    (r = None <->
     forall pre b post, batches = pre ++ b :: post ->
       answered E (log w ++ Clock_Now :: (BB_HeartbeatBatch <$> pre)) b
       = true).
Proof.
  intros Hjs Hq expiration.
  destruct (sortJobs_ascending jobs js w Hjs)
    as (sorted & sjs & Hsort & Hsjs & Hperm & Hasc).
  unfold sendHeartbeats. rewrite bind_unfold, Hsort.
  rewrite bind_unfold. unfold Now, call at 1. fold expiration.
  set (w1 := set_log (log w ++ [Clock_Now]) w).
  destruct (sendHeartbeats_batches_quiet E L expiration Hq
              (length sorted) sorted sjs [] w1)
    as (more & batches & Hrun & Hcat & Hsz & Hmore); [lia | exact Hsjs |].
  rewrite bind_unfold, Hrun. rewrite app_nil_l.
  assert (Hw : set_log (log w1 ++ (BB_HeartbeatBatch <$> batches)) w1
               = set_log (log w ++ Clock_Now :: (BB_HeartbeatBatch <$> batches))
                   w).
  { unfold w1. simpl. now rewrite <- app_assoc. }
  assert (Hans : more = [] <->
            forall pre b post, batches = pre ++ b :: post ->
              answered E (log w ++ Clock_Now :: (BB_HeartbeatBatch <$> pre)) b
              = true).
  { rewrite Hmore. unfold w1. simpl.
    split; intros H pre b post Hs; specialize (H pre b post Hs);
      now rewrite <- app_assoc in *. }
  rewrite Hw.
  destruct more as [|e more]; cbn [length Nat.ltb Nat.leb];
    rewrite ret_unfold; eexists _, sjs, batches;
    (split; [reflexivity|]); repeat (split; [assumption|]).
  - split; [intros _; now apply Hans | reflexivity].
  - split; [discriminate|]. intros H. apply Hans in H. discriminate.
Qed.

(** ** Rejected heartbeats *)

(** X4.  A heartbeat that Buildbucket rejects because the build is completed
    is passed over like an accepted one: when all the results of a batch are
    free of errors or carry the reason BUILD_IS_COMPLETED, [send] records no
    error and no job is canceled, leased again or written; the heartbeat is
    its only call. *)
Theorem send_completed_passed_over E L expiration jobs js errs w results :
  Forall2 (fun p j => heap w !! p = Some j) jobs js ->
  bb_HeartbeatBatch E (log w) (heartbeats_of expiration js) = Reply results ->
  length results = length jobs ->
  Forall (fun r => benign r = true) results ->
  send E L expiration jobs errs w
  = Ret errs
      (set_log (log w ++ [BB_HeartbeatBatch (heartbeats_of expiration js)]) w).
Proof.
  intros Hjs Hresp Hlen Hb.
  destruct (send_quiet E L expiration jobs js errs w Hjs) as (more & Hrun & Hm).
  { now rewrite Hresp. }
  assert (more = []) as ->.
  { apply Hm. unfold answered. rewrite Hresp. apply Nat.eqb_eq.
    rewrite Hlen. unfold heartbeats_of. rewrite length_fmap.
    eapply Forall2_length, Hjs. }
  now rewrite app_nil_r in Hrun.
Qed.

Lemma send_results_one_rejected pre result post resultError jobs p :
  forall i retry cj cr w,
  Forall (fun r => benign r = true) pre ->
  Forall (fun r => benign r = true) post ->
  hbr_Error result = Some resultError ->
  Reason resultError <> BUILDBUCKET_API_ERROR_REASON_COMPLETED ->
  Reason resultError <> BUILDBUCKET_API_ERROR_REASON_LEASE_EXPIRED ->
  jobs !! (i + length pre)%nat = Some p ->
  send_results i (pre ++ result :: post) jobs retry cj cr w
  = Ret (retry, cj ++ [p],
         cr ++ ["Buildbucket rejected heartbeat with: "
                +:+ Reason resultError]) w.
Proof.
  induction pre as [|r pre IH]; intros i retry cj cr w Hpre Hpost He Hc Hx Hp.
  - cbn [app send_results]. rewrite He.
    apply String.eqb_neq in Hc, Hx. rewrite Hc, Hx.
    rewrite bind_unfold. unfold at_index, deref.
    cbn [length] in Hp. rewrite Nat.add_0_r in Hp. rewrite Hp.
    now apply send_results_benign.
  - inversion Hpre as [|? ? Hr0 Hpre']; subst.
    cbn [app send_results]. unfold benign in Hr0.
    cbn [length] in Hp. rewrite <- Nat.add_succ_comm in Hp.
    destruct (hbr_Error r) as [e|]; [rewrite Hr0|]; now apply IH.
Qed.

(** X5.  A heartbeat that Buildbucket rejects for a reason other than
    BUILD_IS_COMPLETED and LEASE_EXPIRED, the other results of the batch
    being benign: [send] cancels the job locally, with the reason of
    Buildbucket in its status details, and hands it to the database; it asks
    for no new lease and sends no cancel to Buildbucket, and it records an
    error only if the write fails. *)
Theorem send_rejected_canceled_locally
    E L expiration jobs js errs w pre result post resultError p j :
  let hb := BB_HeartbeatBatch (heartbeats_of expiration js) in
  let j' :=
    set_Finished (now_Now E (log w ++ [hb]))
      (set_StatusDetails
         ("Buildbucket rejected heartbeat with: " +:+ Reason resultError)
         (set_Status JOB_STATUS_CANCELED (set_BuildbucketLeaseKey 0 j))) in
  let err := db_PutJobsInChunks_err E (log w ++ [hb; Clock_Now]) [j'] in
  Forall2 (fun p j => heap w !! p = Some j) jobs js ->
  bb_HeartbeatBatch E (log w) (heartbeats_of expiration js)
  = Reply (pre ++ result :: post) ->
  length (pre ++ result :: post) = length jobs ->
  Forall (fun r => benign r = true) pre ->
  Forall (fun r => benign r = true) post ->
  hbr_Error result = Some resultError ->
  Reason resultError <> BUILDBUCKET_API_ERROR_REASON_COMPLETED ->
  Reason resultError <> BUILDBUCKET_API_ERROR_REASON_LEASE_EXPIRED ->
  jobs !! length pre = Some p ->
  heap w !! p = Some j ->
  exists w',
    send E L expiration jobs errs w = Ret (append_error errs err) w' /\
    heap w' = <[p := j']> (heap w) /\
    log w' = log w ++ [hb; Clock_Now; DB_PutJobsInChunks [j']] /\
    db w' = match err with
            | Some _ => db w
            | None => jobdb.upsert j' (db w)
            end.
Proof.
  intros hb j' err Hjs Hresp Hlen Hpre Hpost He Hc Hx Hp Hj.
  set (w1 := set_log (log w ++ [hb]) w).
  set (reason := "Buildbucket rejected heartbeat with: " +:+ Reason resultError).
  pose proof (localCancelJobs_single E p reason j w1 Hj) as Hcancel.
  cbv zeta in Hcancel.
  destruct (wp_elim _ _ _ Hcancel) as (cerr & w' & Hrun & Hcerr & Hh & Hl & Hd).
  exists w'.
  assert (Hcerr' : cerr = err).
  { rewrite Hcerr. unfold err, w1. simpl. now rewrite <- app_assoc. }
  split; [|split; [|split]].
  - unfold send. rewrite bind_unfold, (loadAll_eq _ _ _ Hjs).
    fold (heartbeats_of expiration js). fold hb.
    rewrite bind_unfold. unfold call at 1. rewrite Hresp.
    apply Nat.eqb_eq in Hlen. rewrite Hlen. cbn [negb].
    rewrite bind_unfold.
    rewrite (send_results_one_rejected pre result post resultError jobs p);
      auto.
    cbv beta iota. cbn [app length Nat.ltb Nat.leb].
    rewrite bind_unfold, ret_unfold. cbv beta iota.
    cbn [length Nat.ltb Nat.leb].
    rewrite bind_unfold, bind_unfold. fold w1. fold reason. rewrite Hrun.
    rewrite ret_unfold. cbn [length Nat.ltb Nat.leb]. rewrite ret_unfold.
    now rewrite Hcerr'.
  - exact Hh.
  - rewrite Hl. unfold w1. simpl. now rewrite <- app_assoc.
  - rewrite Hd, Hcerr'. reflexivity.
Qed.

(** ** The outcomes of [startJob] *)

(** The steps of [startJob] up to the result of [startJobHelper], for a job
    whose row is REQUESTED. *)
Ltac startJob_enter Hj Herr Hfind Hst Hhelper :=
  unfold startJob;
  wp_step; eapply wp_load; [exact Hj|];
  wp_step; unfold db_GetJobById;
  wp_step; wp_step; rewrite Herr; wp_step; wp_step; wp_step;
  cbn [db set_log]; rewrite Hfind; cbv beta iota;
  wp_step; eapply wp_deref; [reflexivity|];
  rewrite Hst; rewrite bool_decide_eq_true_2 by reflexivity; cbn [negb];
  wp_step; eapply wp_intro; [exact Hhelper|].

(** The write that ends [startJob], for a job object [j3]. *)
Lemma startJob_write E job j3 w3 :
  heap w3 !! job = Some j3 ->
  let perr := db_PutJob_err E (log w3) j3 in
  let j' := if String.eqb (Id j3) ""
            then set_Id (db_newId E (log w3 ++ [DB_PutJob j3])) j3 else j3 in
  wp (err ← db_PutJob E job;
      match err with
      | Some e =>
          j ← load job;
          mret (skerr.Wrapf (Some e)
                  ("failed to insert Job " +:+ Id j +:+ " (build "
                   +:+ fmt_d (BuildbucketBuildId j) +:+ ") into the DB"))
      | None => jCache_AddJobs [job];; mret None
      end) w3 (fun r w' =>
    log w' = log w3 ++ [DB_PutJob j3] /\
    match perr with
    | Some pe =>
        r = skerr.Wrapf (Some pe)
              ("failed to insert Job " +:+ Id j3 +:+ " (build "
               +:+ fmt_d (BuildbucketBuildId j3) +:+ ") into the DB") /\
        heap w' = heap w3 /\ db w' = db w3 /\ jCache w' = jCache w3
    | None =>
        r = None /\ heap w' = <[job := j']> (heap w3) /\
        db w' = jobdb.upsert j' (db w3) /\ job ∈ jCache w'
    end).
Proof.
  intros Hj3 perr j'.
  assert (Hlt : (job < length (heap w3))%nat)
    by (apply lookup_lt_is_Some; eauto).
  wp_step. eapply wp_db_PutJob; [exact Hj3|].
  intros err w4 j4 Hj4 Herr Hh4 Hc4 Hlog4 Hdb4.
  fold perr in Herr. fold j' in Hj4. subst j4.
  destruct perr as [pe|]; subst err.
  - wp_step. eapply wp_load; [rewrite Hh4; exact Hj3|]. wp_step.
    repeat split; assumption.
  - wp_step. unfold jCache_AddJobs. wp_step. wp_step.
    split; [exact Hlog4|]. split; [reflexivity|].
    split; [exact Hh4|]. split; [exact Hdb4|].
    cbn [jCache set_jCache]. apply elem_of_app. right.
    now apply list_elem_of_singleton.
Qed.

(** X6.  When a job whose row is REQUESTED cannot be prepared, whatever the
    error of [startJobHelper], [startJob] marks the job as MISHAP with the
    text of the original error, cut at 1024 characters, in its status
    details, and writes it to the database; Buildbucket is not notified, and
    [startJob] returns nil unless that write fails. *)
Theorem startJob_mishap E L t job w j uj e w2 j2 :
  let w1 := set_log (log w ++ [DB_GetJobById (Id j)]) w in
  let j3 :=
    set_StatusDetails
      (Truncate L ("Failed to start Job: " +:+ Error (skerr.Unwrap e)) 1024)
      (set_Status JOB_STATUS_MISHAP j2) in
  let j' := if String.eqb (Id j3) ""
            then set_Id (db_newId E (log w2 ++ [DB_PutJob j3])) j3 else j3 in
  heap w !! job = Some j ->
  db_GetJobById_err E (log w) (Id j) = None ->
  jobdb.find (Id j) (db w) = Some uj ->
  Status uj = JOB_STATUS_REQUESTED ->
  startJobHelper E L t job w1 = Ret (Some e) w2 ->
  heap w2 !! job = Some j2 ->
  exists r w' evs,
    startJob E L t job w = Ret r w' /\
    log w' = log w ++ DB_GetJobById (Id j) :: evs ++ [DB_PutJob j3] /\
    Forall helper_event evs /\
    match db_PutJob_err E (log w2) j3 with
    | Some pe =>
        r <> None /\ db w' = db w2 /\
        heap w' = <[job := j3]> (heap w2)
    | None =>
        r = None /\ db w' = jobdb.upsert j' (db w2) /\
        heap w' = <[job := j']> (heap w2)
    end.
Proof.
  intros w1 j3 j' Hj Herr Hfind Hst Hhelper Hj2.
  assert (Hevs : exists evs, log w2 = log w ++ DB_GetJobById (Id j) :: evs /\
                             Forall helper_event evs).
  { pose proof (startJobHelper_spec E L t job j w1 Hj) as Hs.
    destruct (wp_inv _ _ _ _ _ Hs Hhelper)
      as [(_ & _ & _ & _ & _ & evs & Hl & He) _].
    exists evs. split; [|exact He]. rewrite Hl. unfold w1. simpl.
    now rewrite <- app_assoc. }
  destruct Hevs as (evs & Hlog2 & Hevs).
  assert (Hlt : (job < length (heap w2))%nat)
    by (apply lookup_lt_is_Some; eauto).
  enough (Hwp : wp (startJob E L t job) w (fun r w' =>
    log w' = log w2 ++ [DB_PutJob j3] /\
    match db_PutJob_err E (log w2) j3 with
    | Some pe =>
        r <> None /\ db w' = db w2 /\ heap w' = <[job := j3]> (heap w2)
    | None =>
        r = None /\ db w' = jobdb.upsert j' (db w2) /\
        heap w' = <[job := j']> (heap w2)
    end)).
  { destruct (wp_elim _ _ _ Hwp) as (r & w' & H1 & H2 & H3).
    exists r, w', evs. split; [exact H1|]. split; [|split; assumption].
    rewrite H2, Hlog2. rewrite <- app_assoc. reflexivity. }
  startJob_enter Hj Herr Hfind Hst Hhelper.
  wp_step. wp_step. eapply wp_modify; [exact Hj2|].
  wp_step. eapply wp_modify; [simpl; now apply list_lookup_insert_eq|].
  wp_step. cbn [heap set_heap]. rewrite list_insert_insert_eq.
  fold j3.
  match goal with |- wp _ ?w0 _ => set (w3 := w0) end.
  assert (Hj3 : heap w3 !! job = Some j3)
    by (simpl; now apply list_lookup_insert_eq).
  eapply wp_mono; [apply (startJob_write E job j3 w3 Hj3)|].
  cbv zeta. intros r w' [Hlog Hcase].
  change (log w3) with (log w2) in *. split; [exact Hlog|].
  fold j' in Hcase.
  destruct (db_PutJob_err E (log w2) j3) as [pe|].
  - destruct Hcase as (-> & Hh & Hd & _). repeat split; try assumption.
    discriminate.
  - destruct Hcase as (-> & Hh & Hd & _). split; [reflexivity|].
    split; [exact Hd|]. rewrite Hh. simpl. now rewrite list_insert_insert_eq.
Qed.

(** What [startJobHelper] leaves as it found it. *)
Lemma startJobHelper_keeps E L t job j w1 r w2 :
  heap w1 !! job = Some j ->
  startJobHelper E L t job w1 = Ret r w2 ->
  db w2 = db w1 /\
  exists evs, log w2 = log w1 ++ evs /\ Forall helper_event evs.
Proof.
  intros Hj Hrun.
  pose proof (startJobHelper_spec E L t job j w1 Hj) as Hs.
  destruct (wp_inv _ _ _ _ _ Hs Hrun) as [(Hdb & _ & _ & _ & _ & Hev) _].
  auto.
Qed.

(** X7.  When the start notification of a prepared job fails with an error
    that is not the one of a second StartBuild, [startJob] returns that
    error, wrapped, and writes nothing: the row of the job is still
    REQUESTED, so the job is taken up again, while the job object in memory
    already says IN_PROGRESS. *)
Theorem startJob_notification_fails
    E L t job w j uj w2 j2 bbToken bbError e0 w4 :
  let w1 := set_log (log w ++ [DB_GetJobById (Id j)]) w in
  let j3 := set_Status JOB_STATUS_IN_PROGRESS j2 in
  heap w !! job = Some j ->
  db_GetJobById_err E (log w) (Id j) = None ->
  jobdb.find (Id j) (db w) = Some uj ->
  Status uj = JOB_STATUS_REQUESTED ->
  startJobHelper E L t job w1 = Ret None w2 ->
  heap w2 !! job = Some j2 ->
  jobStarted E L t j3 (set_heap (<[job := j3]> (heap w2)) w2)
  = Ret (bbToken, bbError, Some e0) w4 ->
  isBuildAlreadyStartedError (Some e0) = false ->
  startJob E L t job w
  = Ret (skerr.Wrapf (Some e0)
           ("failed to send job-started notification for " +:+ job_build j3))
        w4 /\
  heap w4 !! job = Some j3 /\
  db w4 = db w /\ jobdb.find (Id j) (db w4) = Some uj /\
  Forall (fun ev => match ev with
                    | DB_PutJob _ | DB_PutJobsInChunks _ => False
                    | _ => True
                    end) (drop (length (log w)) (log w4)).
Proof.
  intros w1 j3 Hj Herr Hfind Hst Hhelper Hj2 Hstarted Hnot.
  assert (Hlt : (job < length (heap w2))%nat)
    by (apply lookup_lt_is_Some; eauto).
  destruct (startJobHelper_keeps E L t job j w1 None w2 Hj Hhelper)
    as (Hdb2 & evs2 & Hlog2 & Hevs2).
  destruct (jobStarted_emits E L t j3
              (set_heap (<[job := j3]> (heap w2)) w2))
    as (r & evs & Hrun & (ev & -> & Hev) & Hnil).
  rewrite Hstarted in Hrun. injection Hrun as <- Hw4.
  assert (HbbError : bbError = None) by (apply Hnil; discriminate).
  subst bbError.
  assert (Hrun : wp (startJob E L t job) w (fun r w' =>
            r = skerr.Wrapf (Some e0)
                  ("failed to send job-started notification for "
                   +:+ job_build j3) /\ w' = w4)).
  { startJob_enter Hj Herr Hfind Hst Hhelper.
    wp_step. wp_step. eapply wp_modify; [exact Hj2|].
    wp_step. eapply wp_load; [simpl; now apply list_lookup_insert_eq|].
    wp_step. eapply wp_intro; [exact Hstarted|]. cbv beta iota.
    rewrite Hnot. cbn [orb notnil]. wp_step. wp_step. auto. }
  destruct (wp_elim _ _ _ Hrun) as (r & w' & Heq & -> & ->).
  split; [exact Heq|].
  split; [rewrite Hw4; simpl; now apply list_lookup_insert_eq|].
  assert (Hdb4 : db w4 = db w) by (rewrite Hw4; simpl; exact Hdb2).
  split; [exact Hdb4|]. split; [now rewrite Hdb4|].
  rewrite Hw4. cbn [log set_log set_heap]. rewrite Hlog2. unfold w1.
  cbn [log set_log]. rewrite <- !app_assoc, drop_app_length.
  constructor; [exact I|]. apply Forall_app. split.
  - eapply Forall_impl; [exact Hevs2|]. intros x Hx. now destruct x.
  - constructor; [now destruct ev | constructor].
Qed.

(** X8.  When Buildbucket answers the start notification of a prepared job
    with an error of its own, [startJob] cancels the job locally, with the
    reason of Buildbucket in the status details, hands it to the database
    and returns an error that carries the message of Buildbucket, quoted as
    [%q] does; it returns an error also when the cancel has been written.
    The message is a text of the ASCII range. *)
Theorem startJob_start_rejected
    E L t job w j uj w2 j2 bbToken bbe err w4 :
  let w1 := set_log (log w ++ [DB_GetJobById (Id j)]) w in
  let j3 := set_Status JOB_STATUS_IN_PROGRESS j2 in
  let j5 :=
    set_Finished (now_Now E (log w4))
      (set_StatusDetails ("Buildbucket rejected Start with: " +:+ Reason bbe)
         (set_Status JOB_STATUS_CANCELED (set_BuildbucketLeaseKey 0 j3))) in
  let cerr := db_PutJobsInChunks_err E (log w4 ++ [Clock_Now]) [j5] in
  let failed rest :=
    "failed to start " +:+ job_build j3 +:+ " with "
    +:+ quoted (Message bbe) +:+ rest in
  heap w !! job = Some j ->
  db_GetJobById_err E (log w) (Id j) = None ->
  jobdb.find (Id j) (db w) = Some uj ->
  Status uj = JOB_STATUS_REQUESTED ->
  startJobHelper E L t job w1 = Ret None w2 ->
  heap w2 !! job = Some j2 ->
  jobStarted E L t j3 (set_heap (<[job := j3]> (heap w2)) w2)
  = Ret (bbToken, Some bbe, err) w4 ->
  ascii_text (Message bbe) = true ->
  exists w',
    startJob E L t job w
    = Ret (match cerr with
           | Some ce =>
               skerr.Wrapf (Some ce) (failed " and failed to cancel job")
           | None => skerr.Fmt (failed "")
           end) w' /\
    heap w' = <[job := j5]> (heap w4) /\
    log w' = log w4 ++ [Clock_Now; DB_PutJobsInChunks [j5]] /\
    db w' = match cerr with
            | Some _ => db w
            | None => jobdb.upsert j5 (db w)
            end.
Proof.
  intros w1 j3 j5 cerr failed Hj Herr Hfind Hst Hhelper Hj2 Hstarted _.
  assert (Hlt : (job < length (heap w2))%nat)
    by (apply lookup_lt_is_Some; eauto).
  destruct (startJobHelper_keeps E L t job j w1 None w2 Hj Hhelper)
    as (Hdb2 & _).
  destruct (jobStarted_emits E L t j3
              (set_heap (<[job := j3]> (heap w2)) w2))
    as (r & evs & Hrun & _ & Hnil).
  rewrite Hstarted in Hrun. injection Hrun as <- Hw4.
  assert (Herr0 : err = None).
  { destruct err as [e0|]; [|reflexivity].
    assert (Hc : Some bbe = None) by (apply Hnil; discriminate).
    discriminate. }
  subst err.
  assert (Hj4 : heap w4 !! job = Some j3)
    by (rewrite Hw4; simpl; now apply list_lookup_insert_eq).
  assert (Hdb4 : db w4 = db w) by (rewrite Hw4; simpl; exact Hdb2).
  assert (Hlt4 : (job < length (heap w4))%nat)
    by (apply lookup_lt_is_Some; eauto).
  enough (Hwp : wp (startJob E L t job) w (fun r w' =>
    r = match cerr with
        | Some ce =>
            skerr.Wrapf (Some ce) (failed " and failed to cancel job")
        | None => skerr.Fmt (failed "")
        end /\
    heap w' = <[job := j5]> (heap w4) /\
    log w' = log w4 ++ [Clock_Now; DB_PutJobsInChunks [j5]] /\
    db w' = match cerr with
            | Some _ => db w
            | None => jobdb.upsert j5 (db w)
            end)).
  { destruct (wp_elim _ _ _ Hwp) as (r & w' & H1 & -> & H2). eauto. }
  startJob_enter Hj Herr Hfind Hst Hhelper.
  wp_step. wp_step. eapply wp_modify; [exact Hj2|].
  wp_step. eapply wp_load; [simpl; now apply list_lookup_insert_eq|].
  wp_step. eapply wp_intro; [exact Hstarted|]. cbv beta iota.
  cbn [isBuildAlreadyStartedError orb notnil].
  wp_step. wp_step. eapply wp_deref; [reflexivity|]. wp_step.
  wp_step.
  eapply wp_mono; [apply (localCancelJobs_single E job _ j3 w4 Hj4)|].
  cbv zeta. fold j5. intros cancelErr w5 (Hce & Hh5 & Hl5 & Hd5).
  fold cerr in Hce. subst cancelErr.
  wp_step. eapply wp_load; [rewrite Hh5; now apply list_lookup_insert_eq|].
  destruct cerr as [ce|]; wp_step; (eapply wp_deref; [reflexivity|]);
    wp_step; rewrite Hdb4 in Hd5; repeat split; try assumption.
  unfold failed, skerr.Fmt. now rewrite string_app_empty_r.
Qed.

(** X9.  When Buildbucket accepts the start notification of a prepared job,
    [startJob] keeps the update token that came back, if there is one, in
    the job, which is now IN_PROGRESS, and writes the job to the database and
    to the cache.  If that write fails it returns the error and the row is
    left REQUESTED, although Buildbucket has been told that the job has
    started. *)
Theorem startJob_started E L t job w j uj w2 j2 bbToken w4 :
  let w1 := set_log (log w ++ [DB_GetJobById (Id j)]) w in
  let j3 := set_Status JOB_STATUS_IN_PROGRESS j2 in
  let j4 := if String.eqb bbToken ""
            then j3 else set_BuildbucketToken bbToken j3 in
  let j' := if String.eqb (Id j4) ""
            then set_Id (db_newId E (log w4 ++ [DB_PutJob j4])) j4 else j4 in
  heap w !! job = Some j ->
  db_GetJobById_err E (log w) (Id j) = None ->
  jobdb.find (Id j) (db w) = Some uj ->
  Status uj = JOB_STATUS_REQUESTED ->
  startJobHelper E L t job w1 = Ret None w2 ->
  heap w2 !! job = Some j2 ->
  jobStarted E L t j3 (set_heap (<[job := j3]> (heap w2)) w2)
  = Ret (bbToken, None, None) w4 ->
  exists r w',
    startJob E L t job w = Ret r w' /\
    log w' = log w4 ++ [DB_PutJob j4] /\
    match db_PutJob_err E (log w4) j4 with
    | Some pe =>
        r <> None /\ db w' = db w /\ heap w' = <[job := j4]> (heap w4)
    | None =>
        r = None /\ db w' = jobdb.upsert j' (db w) /\
        heap w' = <[job := j']> (heap w4) /\ job ∈ jCache w'
    end.
Proof.
  intros w1 j3 j4 j' Hj Herr Hfind Hst Hhelper Hj2 Hstarted.
  assert (Hlt : (job < length (heap w2))%nat)
    by (apply lookup_lt_is_Some; eauto).
  destruct (startJobHelper_keeps E L t job j w1 None w2 Hj Hhelper)
    as (Hdb2 & _).
  destruct (jobStarted_emits E L t j3
              (set_heap (<[job := j3]> (heap w2)) w2))
    as (r & evs & Hrun & _ & _).
  rewrite Hstarted in Hrun. injection Hrun as <- Hw4.
  assert (Hj4 : heap w4 !! job = Some j3)
    by (rewrite Hw4; simpl; now apply list_lookup_insert_eq).
  assert (Hdb4 : db w4 = db w) by (rewrite Hw4; simpl; exact Hdb2).
  assert (Hlt4 : (job < length (heap w4))%nat)
    by (apply lookup_lt_is_Some; eauto).
  enough (Hwp : wp (startJob E L t job) w (fun r w' =>
    log w' = log w4 ++ [DB_PutJob j4] /\
    match db_PutJob_err E (log w4) j4 with
    | Some pe =>
        r <> None /\ db w' = db w /\ heap w' = <[job := j4]> (heap w4)
    | None =>
        r = None /\ db w' = jobdb.upsert j' (db w) /\
        heap w' = <[job := j']> (heap w4) /\ job ∈ jCache w'
    end)).
  { destruct (wp_elim _ _ _ Hwp) as (r & w' & H1 & H2). eauto. }
  startJob_enter Hj Herr Hfind Hst Hhelper.
  wp_step. wp_step. eapply wp_modify; [exact Hj2|].
  wp_step. eapply wp_load; [simpl; now apply list_lookup_insert_eq|].
  wp_step. eapply wp_intro; [exact Hstarted|]. cbv beta iota.
  cbn [isBuildAlreadyStartedError orb notnil].
  assert (Hput : forall w5, heap w5 = <[job := j4]> (heap w4) ->
            log w5 = log w4 -> db w5 = db w4 ->
            wp (err ← db_PutJob E job;
                match err with
                | Some e =>
                    j ← load job;
                    mret (skerr.Wrapf (Some e)
                            ("failed to insert Job " +:+ Id j +:+ " (build "
                             +:+ fmt_d (BuildbucketBuildId j)
                             +:+ ") into the DB"))
                | None => jCache_AddJobs [job];; mret None
                end) w5 (fun r w' =>
              log w' = log w4 ++ [DB_PutJob j4] /\
              match db_PutJob_err E (log w4) j4 with
              | Some pe =>
                  r <> None /\ db w' = db w /\
                  heap w' = <[job := j4]> (heap w4)
              | None =>
                  r = None /\ db w' = jobdb.upsert j' (db w) /\
                  heap w' = <[job := j']> (heap w4) /\ job ∈ jCache w'
              end)).
  { intros w5 Hh5 Hl5 Hd5.
    assert (Hj5 : heap w5 !! job = Some j4)
      by (rewrite Hh5; now apply list_lookup_insert_eq).
    eapply wp_mono; [apply (startJob_write E job j4 w5 Hj5)|].
    cbv zeta. rewrite Hl5. fold j'. intros r w' [Hlog Hcase].
    split; [exact Hlog|].
    destruct (db_PutJob_err E (log w4) j4) as [pe|].
    - destruct Hcase as (-> & Hh & Hd & _).
      split; [discriminate|]. split; congruence.
    - destruct Hcase as (-> & Hh & Hd & Hc). split; [reflexivity|].
      split; [congruence|]. split; [|exact Hc].
      rewrite Hh, Hh5. now rewrite list_insert_insert_eq. }
  unfold j4 in *. destruct (String.eqb bbToken "") eqn:Htok; cbn [negb].
  - wp_step. wp_step. wp_step. apply Hput; try reflexivity.
    symmetry. now apply list_insert_id.
  - wp_step. eapply wp_modify; [exact Hj4|].
    wp_step. apply Hput; reflexivity.
Qed.

(** ** What intake writes *)

Lemma unwritten_refl w : unwritten w w.
Proof.
  split; [reflexivity|]. exists []. split; [now rewrite app_nil_r | constructor].
Qed.

Lemma unwritten_log w0 w1 evs :
  unwritten w0 w1 -> Forall not_put evs ->
  unwritten w0 (set_log (log w1 ++ evs) w1).
Proof.
  intros (Hdb & evs0 & Hlog & Hevs) H. split; [exact Hdb|].
  exists (evs0 ++ evs). split; [simpl; now rewrite Hlog, app_assoc|].
  apply Forall_app. now split.
Qed.

Lemma unwritten_heap w0 w1 h :
  unwritten w0 w1 -> unwritten w0 (set_heap h w1).
Proof. intros H. exact H. Qed.

(** A cancel sent to Buildbucket ends an intake that has written nothing. *)
Lemma unwritten_cancel E L buildId w0 w1 id msg :
  unwritten w0 w1 ->
  wpx (remoteCancelV1Build E L id msg) w1
    (fun _ w' => intake_leased E buildId w0 w')
    (fun w' => intake_leased E buildId w0 w').
Proof.
  intros Hu. apply wpx_emits.
  eapply emits_mono; [apply remoteCancelV1Build_not_put|].
  intros ? evs Hevs. left. now apply unwritten_log.
Qed.

Lemma insertNewJobV1_create_leased E L t buildId build w0 w1 :
  unwritten w0 w1 ->
  wpx (insertNewJobV1_create E L t buildId build) w1
    (fun _ w' => intake_leased E buildId w0 w')
    (fun w' => intake_leased E buildId w0 w').
Proof.
  intros Hu.
  assert (Hrefl : intake_leased E buildId w0 w1) by now left.
  assert (Hcancel : forall id msg,
    wpx (remoteCancelV1Build E L id msg) w1
      (fun _ w' => intake_leased E buildId w0 w')
      (fun w' => intake_leased E buildId w0 w'))
    by (intros; now apply unwritten_cancel).
  unfold insertNewJobV1_create.
  wpx_step. apply wpx_deref.
  destruct (b_Input build) as [input|]; [|exact Hrefl].
  destruct input as [|gerritChange [|]]; try apply Hcancel.
  destruct (projectRepoMapping t (gc_Project gerritChange)) as [repoUrl|];
    [|apply Hcancel].
  destruct (ptypes_Timestamp L (b_CreateTime build)) as [requested|e];
    [|apply Hcancel].
  wpx_step. apply wpx_deref.
  destruct (b_Builder build) as [builder|]; [|exact Hrefl].
  wpx_step. apply wpx_wp. unfold Now. wp_step.
  wpx_step. apply wpx_wp. unfold alloc.
  set (j0 := newJob _ _ _ _ _).
  eapply wp_intro; [reflexivity|].
  cbn [heap set_log].
  set (p := length (heap w1)).
  set (w2 := set_heap _ _).
  assert (Hu2 : unwritten w0 w2).
  { unfold w2. apply unwritten_heap. apply unwritten_log; [exact Hu|].
    not_put_events. }
  assert (Hj2 : heap w2 !! p = Some j0) by (simpl; apply lookup_snoc).
  assert (Hnew0 : intake_new buildId j0) by (repeat split).
  clearbody w2.
  wpx_step. apply wpx_wp. eapply wp_load; [exact Hj2|].
  wpx_step. apply wpx_wp.
  eapply (wp_mono _ _ (fun _ w3 =>
            unwritten w0 w3 /\
            exists j1, heap w3 !! p = Some j1 /\ intake_new buildId j1)).
  { destruct (Requested j0 <? Created j0); cbn [negb].
    - wp_step. eauto.
    - eapply wp_modify; [exact Hj2|]. split; [exact Hu2|].
      eexists. split; [simpl; apply list_lookup_insert_eq;
                       apply lookup_lt_is_Some; eauto|].
      exact Hnew0. }
  intros _ w3 (Hu3 & j1 & Hj3 & Hnew1).
  wpx_step. apply wpx_emits.
  eapply emits_mono; [apply tryLeaseV1Build_not_put|].
  intros [[leaseKey bbError] err] evs [Hevs [ex Hex]]. cbv beta iota.
  pose proof (unwritten_log w0 w3 evs Hu3 Hevs) as Hu4.
  set (w4 := set_log (log w3 ++ evs) w3) in *.
  assert (Hj4 : heap w4 !! p = Some j1) by exact Hj3.
  assert (Hlease : exists evs4, log w4 = log w0 ++ evs4 /\
                     Forall not_put evs4 /\ BB_Lease buildId ex ∈ evs4).
  { destruct Hu3 as (_ & evs3 & Hl3 & He3). exists (evs3 ++ evs).
    split; [unfold w4; simpl; now rewrite Hl3, app_assoc|].
    split; [apply Forall_app; now split|].
    apply elem_of_app. right. rewrite Hex.
    apply elem_of_cons. right. now apply list_elem_of_singleton. }
  clearbody w4.
  destruct err as [e|]; [wpx_step; now left|].
  destruct bbError as [bbe|].
  { destruct (String.eqb (Reason bbe) _); [wpx_step; now left|].
    now apply unwritten_cancel. }
  destruct (Z.eqb_spec leaseKey 0) as [Hz|Hnz];
    [now apply unwritten_cancel|].
  wpx_step. apply wpx_wp. eapply wp_modify; [exact Hj4|].
  set (j5 := set_BuildbucketLeaseKey leaseKey j1).
  set (w5 := set_heap _ w4).
  assert (Hj5 : heap w5 !! p = Some j5).
  { simpl. apply list_lookup_insert_eq. apply lookup_lt_is_Some; eauto. }
  assert (Hnew5 : intake_new buildId j5) by exact Hnew1.
  destruct Hlease as (evs4 & Hlog4 & Hevs4 & Hin4).
  assert (Hdb5 : db w5 = db w0) by (destruct Hu4 as [H _]; exact H).
  assert (Hlog5 : log w5 = log w0 ++ evs4) by exact Hlog4.
  clearbody w5.
  wpx_step. apply wpx_wp.
  eapply wp_db_PutJob; [exact Hj5|].
  intros perr w6 j6 Hj6 _ Hh6 _ Hlog6 Hdb6.
  assert (Hout : forall w' post,
            log w' = log w6 ++ post -> Forall not_put post ->
            db w' = db w6 -> intake_leased E buildId w0 w').
  { intros w' post Hl Hp Hd. right. exists evs4, j5, post, ex.
    split; [rewrite Hl, Hlog6, Hlog5, <- !app_assoc; reflexivity|].
    repeat (split; [assumption|]).
    rewrite Hd, Hdb6.
    destruct perr; [left; congruence|]. right.
    rewrite Hdb5, Hj6, Hlog5, app_assoc. reflexivity. }
  destruct perr as [pe|].
  - apply wpx_emits.
    eapply emits_mono; [apply remoteCancelV1Build_not_put|].
    intros ? evs' Hevs'. now apply (Hout _ evs').
  - apply wpx_wp. unfold jCache_AddJobs. wp_steps.
    apply (Hout _ []); [simpl; now rewrite app_nil_r | constructor |].
    reflexivity.
Qed.

Lemma insertNewJobV1_leased E L t buildId w :
  wpx (insertNewJobV1 E L t buildId) w
    (fun _ w' => intake_leased E buildId w w')
    (fun w' => intake_leased E buildId w w').
Proof.
  unfold insertNewJobV1.
  wpx_step. apply wpx_emits.
  eapply emits_mono; [apply findJobForBuild_emits|].
  intros [existingJob err] evs [Hevs _].
  pose proof (unwritten_log w w evs (unwritten_refl w) Hevs) as Hu1.
  set (w1 := set_log (log w ++ evs) w) in *. clearbody w1.
  destruct err as [e|]; [wpx_step; now left|].
  destruct existingJob; [wpx_step; now left|].
  wpx_step. apply wpx_wp. wp_step.
  pose proof (unwritten_log w w1 [BB2_GetBuild buildId] Hu1) as Hu2.
  set (w2 := set_log (log w1 ++ [BB2_GetBuild buildId]) w1) in *.
  assert (Hu2' : unwritten w w2) by (apply Hu2; not_put_events).
  clearbody w2. clear Hu2.
  destruct (bb2_GetBuild E (log w1) buildId) as [build|e];
    [|wpx_step; now left].
  assert (Hprobe :
    wpx ('(_, bbError, err) ← tryLeaseV1Build E buildId;
         if notnil err || notnil bbError
         then mret None
         else
           err0 ← remoteCancelV1Build E L buildId
                    ("Unexpected status "
                     +:+ BuildStatus_String (b_Status build));
           match err0 with
           | Some _ => mret None
           | None => insertNewJobV1_create E L t buildId build
           end) w2
      (fun _ w' => intake_leased E buildId w w')
      (fun w' => intake_leased E buildId w w')).
  { wpx_step. apply wpx_emits.
    eapply emits_mono; [apply tryLeaseV1Build_not_put|].
    intros [[leaseKey bbError] err] evs3 [Hevs3 _]. cbv beta iota.
    pose proof (unwritten_log w w2 evs3 Hu2' Hevs3) as Hu3.
    set (w3 := set_log (log w2 ++ evs3) w2) in *. clearbody w3.
    destruct (notnil err || notnil bbError); [wpx_step; now left|].
    wpx_step. apply wpx_emits.
    eapply emits_mono; [apply remoteCancelV1Build_not_put|].
    intros err4 evs4 Hevs4.
    pose proof (unwritten_log w w3 evs4 Hu3 Hevs4) as Hu4.
    destruct err4; [wpx_step; now left|].
    now apply insertNewJobV1_create_leased. }
  destruct (b_Status build);
    [now apply insertNewJobV1_create_leased | |]; exact Hprobe.
Qed.

(** X10.  However an intake ends, it has written at most one job to the
    database, and a job it has written is a new REQUESTED job for the build
    it was asked about that holds a non-zero lease key, obtained by a lease
    call made before the write. *)
Theorem insertNewJobV1_writes_leased E L t buildId w w' :
  final (insertNewJobV1 E L t buildId w) = w' ->
  intake_leased E buildId w w'.
Proof.
  intros <-. pose proof (insertNewJobV1_leased E L t buildId w) as H.
  unfold wpx in H. now destruct (insertNewJobV1 E L t buildId w).
Qed.

(** X11.  Intake does nothing for a build that has a job already: when the
    database holds a job of the build that was created in the four days
    before now, [insertNewJobV1] reads the clock, searches the database and
    returns nil; it asks Buildbucket nothing and changes nothing. *)
Theorem insertNewJobV1_existing_job E L t buildId w row :
  let n := now_Now E (log w) in
  let start := n - 4 * 24 * 3600 * second in
  row ∈ db w ->
  BuildbucketBuildId row = buildId ->
  start <= Created row < n ->
  db_SearchJobs_err E (log w ++ [Clock_Now]) buildId = None ->
  insertNewJobV1 E L t buildId w
  = Ret None (set_log (log w ++ [Clock_Now; DB_SearchJobs buildId start n]) w).
Proof.
  intros n start Hrow Hid Hwin Herr.
  assert (Hfound : exists j rest, jobdb.search buildId start n (db w) = j :: rest).
  { unfold jobdb.search.
    destruct (List.filter _ (db w)) as [|j rest] eqn:Hf; [|eauto].
    exfalso.
    assert (Hin : In row (List.filter
              (fun j => (BuildbucketBuildId j =? buildId)
                        && (start <=? Created j) && (Created j <? n)) (db w))).
    { apply filter_In. split; [now apply list_elem_of_In|].
      rewrite !andb_true_iff, Z.eqb_eq, Z.leb_le, Z.ltb_lt. lia. }
    rewrite Hf in Hin. contradiction. }
  destruct Hfound as (j & rest & Hs).
  enough (Hwp : wp (insertNewJobV1 E L t buildId) w (fun r w' =>
            r = None /\
            w' = set_log (log w ++ [Clock_Now; DB_SearchJobs buildId start n])
                   w)).
  { destruct (wp_elim _ _ _ Hwp) as (r & w' & Hrun & -> & ->). exact Hrun. }
  unfold insertNewJobV1, findJobForBuild, Now, db_SearchJobs.
  wp_steps. cbn [log set_log]. fold n. fold start. rewrite Herr.
  wp_steps. cbn [db set_log]. rewrite Hs. wp_steps.
  split; [reflexivity|]. destruct w; simpl. now rewrite <- app_assoc.
Qed.

(** X12.  A scheduled, well-formed build whose lease Buildbucket refuses:
    [insertNewJobV1] writes no job.  When the reason of the refusal is
    INVALID_INPUT the build is left alone and nil is returned; for any other
    reason the build is canceled in Buildbucket, with the message, quoted
    as [%q] does, and the reason of the refusal in the cancel message, and
    the result is that of the cancel.  The message of the refusal is a text
    of the ASCII range. *)
Theorem insertNewJobV1_lease_refused
    E L t buildId w w1 build gc repoUrl requested builder bbe :
  let msg :=
    Truncate L ("Buildbucket refused lease with " +:+ quoted (Message bbe)
                +:+ " (" +:+ Reason bbe +:+ ")") maxCancelReasonLen in
  findJobForBuild E buildId w = Ret (None, None) w1 ->
  bb2_GetBuild E (log w1) buildId = Reply build ->
  b_Status build = Status_SCHEDULED ->
  b_Input build = Some [gc] ->
  projectRepoMapping t (gc_Project gc) = Some repoUrl ->
  ptypes_Timestamp L (b_CreateTime build) = Reply requested ->
  b_Builder build = Some builder ->
  (forall h ex, exists b,
     bb_Lease E h buildId ex = Reply {| lr_Build := b; lr_Error := Some bbe |}) ->
  ascii_text (Message bbe) = true ->
  exists r w' ex,
    insertNewJobV1 E L t buildId w = Ret r w' /\ db w' = db w /\
    let calls :=
      [BB2_GetBuild buildId; Clock_Now; Clock_Now; BB_Lease buildId ex] in
    if String.eqb (Reason bbe) BUILDBUCKET_API_ERROR_REASON_INVALID_INPUT
    then r = None /\ log w' = log w1 ++ calls
    else
      log w' = log w1 ++ calls ++ [BB_Cancel buildId msg] /\
      (r = None <->
       bb_Cancel E (log w1 ++ calls) buildId msg = Reply None).
Proof.
  intros msg Hfind Hbuild Hst Hin Hproj Hts Hb Hlease _.
  destruct (findJobForBuild_log E buildId w _ w1 Hfind) as (s & e & Hw1).
  assert (Hdb1 : db w1 = db w) by (rewrite Hw1; reflexivity).
  enough (Hwp : wp (insertNewJobV1 E L t buildId) w (fun r w' =>
    exists ex, db w' = db w /\
    let calls :=
      [BB2_GetBuild buildId; Clock_Now; Clock_Now; BB_Lease buildId ex] in
    if String.eqb (Reason bbe) BUILDBUCKET_API_ERROR_REASON_INVALID_INPUT
    then r = None /\ log w' = log w1 ++ calls
    else
      log w' = log w1 ++ calls ++ [BB_Cancel buildId msg] /\
      (r = None <->
       bb_Cancel E (log w1 ++ calls) buildId msg = Reply None))).
  { destruct (wp_elim _ _ _ Hwp) as (r & w' & Hrun & ex & H). eauto. }
  unfold insertNewJobV1. wp_step. eapply wp_intro; [exact Hfind|].
  cbv beta iota. wp_step. wp_step. rewrite Hbuild, Hst.
  unfold insertNewJobV1_create. rewrite Hin.
  wp_step. eapply wp_deref; [reflexivity|]. cbv beta iota.
  rewrite Hproj, Hts, Hb.
  wp_step. eapply wp_deref; [reflexivity|].
  wp_step. unfold Now. wp_step. wp_step. unfold alloc.
  eapply wp_intro; [reflexivity|].
  set (j0 := newJob _ _ _ _ _). cbn [heap set_log].
  set (p := length (heap w1)).
  wp_step. eapply wp_load; [simpl; apply lookup_snoc|].
  wp_step.
  eapply (wp_mono _ _ (fun _ w3 =>
            db w3 = db w /\
            log w3 = log w1 ++ [BB2_GetBuild buildId; Clock_Now])).
  { destruct (Requested j0 <? Created j0); cbn [negb].
    - wp_step. split; [exact Hdb1|]. simpl. now rewrite <- app_assoc.
    - eapply wp_modify; [simpl; apply lookup_snoc|].
      split; [exact Hdb1|]. simpl. now rewrite <- app_assoc. }
  intros _ w3 [Hdb3 Hlog3].
  wp_step. unfold tryLeaseV1Build, Now. wp_step. wp_step. wp_step. wp_step.
  cbn [log set_log].
  set (ex := int64 _).
  destruct (Hlease (log w3 ++ [Clock_Now]) ex) as [b ->].
  wp_step. cbv beta iota. cbn [lr_Error].
  assert (Hcalls : (log w3 ++ [Clock_Now]) ++ [BB_Lease buildId ex]
                   = log w1 ++ [BB2_GetBuild buildId; Clock_Now; Clock_Now;
                                BB_Lease buildId ex]).
  { rewrite Hlog3, <- !app_assoc. reflexivity. }
  destruct (String.eqb (Reason bbe) _).
  - wp_step. exists ex. split; [exact Hdb3|].
    split; [reflexivity | exact Hcalls].
  - unfold remoteCancelV1Build. fold msg. wp_step. wp_step.
    cbn [log set_log]. rewrite Hcalls.
    destruct (bb_Cancel E _ buildId msg) as [[re|]|ce] eqn:Hc; wp_step;
      exists ex; (split; [exact Hdb3|]); cbn [log set_log];
      (split; [now rewrite <- app_assoc|]); rewrite Hc;
      split; try discriminate; auto.
Qed.

(** ** Reporting a finished job *)

(** X13.  [jobFinished] reports a legacy job to Buildbucket with one call
    and nothing else: none at all for a job that is not finished or cannot
    be encoded, and otherwise [Succeed] for a job that succeeded and [Fail]
    for any other, a canceled one included.  The report has gone through,
    and nil is returned, exactly when Buildbucket answers without an error
    or with the error that the build is completed already. *)
Theorem jobFinished_legacy E L j w :
  isBBv2 j = false ->
  exists r,
    jobFinished E L j w
    = Ret r (set_log (log w ++ (if Done j && negb (notnil (json_Marshal_err L j))
                                then [legacy_report j] else [])) w) /\
    (r = None <->
     Done j = true /\ json_Marshal_err L j = None /\
     (legacy_answer E (log w) j = Reply None \/
      exists e, legacy_answer E (log w) j = Reply (Some e) /\
                Reason e = BUILDBUCKET_API_ERROR_REASON_COMPLETED)).
Proof.
  intros Hv1. unfold jobFinished, legacy_report, legacy_answer.
  rewrite Hv1.
  assert (Hnil : forall w0 : World, set_log (log w0 ++ []) w0 = w0).
  { intros w0. rewrite app_nil_r. now destruct w0. }
  destruct (Done j); cbn [negb andb].
  2: { eexists. rewrite ret_unfold, Hnil. split; [reflexivity|].
       split; [discriminate | intros [? _]; discriminate]. }
  assert (Hres : forall resp : rpc (option LegacyApiErrorMessage),
            legacy_result L resp = None <->
            (resp = Reply None \/
             exists e, resp = Reply (Some e) /\
                       Reason e = BUILDBUCKET_API_ERROR_REASON_COMPLETED)).
  { intros [[e|]|e]; simpl.
    - destruct (String.eqb_spec (Reason e)
                  BUILDBUCKET_API_ERROR_REASON_COMPLETED) as [Heq|Hne].
      + split; [intros _; right; eauto | reflexivity].
      + split; [discriminate|]. intros [H|(e' & [= <-] & H)];
          [discriminate | contradiction].
    - split; [now left | reflexivity].
    - split; [discriminate|]. intros [H|(e' & H & _)]; discriminate. }
  destruct (bool_decide (Status j = JOB_STATUS_SUCCESS));
    [unfold buildSucceededV1 | unfold buildFailed];
    (destruct (json_Marshal_err L j) as [me|]; cbn [notnil negb];
     [ rewrite bind_unfold, ret_unfold, ret_unfold, Hnil;
       eexists; split; [reflexivity|];
       split; [discriminate | intros (_ & ? & _); discriminate]
     | rewrite !bind_unfold; unfold call at 1; rewrite !ret_unfold;
       eexists; split; [reflexivity|];
       unfold skerr.Wrap; rewrite Hres; tauto ]).
Qed.

(** X14.  [jobFinished] ends the build of a canceled job of the
    asynchronous protocol with [CancelBuild], never with [UpdateBuild]: the
    reason it gives is the status details of the job, or "Underlying job
    was canceled." when there are none, and when the cancel has gone
    through it publishes the update of the job.  It returns nil exactly when
    both have succeeded. *)
Theorem jobFinished_canceled E L j w :
  isBBv2 j = true ->
  Status j = JOB_STATUS_CANCELED ->
  let reason := if String.eqb (StatusDetails j) ""
                then "Underlying job was canceled." else StatusDetails j in
  let cancel := BB2_CancelBuild (BuildbucketBuildId j) reason in
  let cerr := bb2_CancelBuild E (log w) (BuildbucketBuildId j) reason in
  exists r,
    jobFinished E L j w
    = Ret r (set_log (log w ++ cancel :: match cerr with
                                         | Some _ => []
                                         | None => published E L j
                                         end) w) /\
    (r = None <->
     cerr = None /\ proto_Marshal_err L j = None /\
     pubsub_Publish E (log w ++ [cancel]) (pubsub_target E j).1
       (pubsub_target E j).2 (BuildbucketBuildId j) = None).
Proof.
  intros Hv2 Hst reason cancel cerr.
  unfold jobFinished. rewrite Hv2.
  assert (Hd : Done j = true) by (unfold Done; now rewrite Hst).
  rewrite Hd. cbn [negb]. rewrite Hst.
  rewrite bool_decide_eq_true_2 by reflexivity.
  fold reason. unfold cancelBuild. rewrite !bind_unfold.
  unfold call at 1. fold cancel. fold cerr.
  destruct cerr as [ce|] eqn:Hce.
  - rewrite !ret_unfold. eexists. split; [reflexivity|].
    split; [discriminate | intros [? _]; discriminate].
  - rewrite bind_unfold.
    destruct (sendPubSub_run E L j (set_log (log w ++ [cancel]) w))
      as (r & Hrun & Hr).
    rewrite Hrun, !ret_unfold. exists r. split.
    + f_equal. simpl. now rewrite <- app_assoc.
    + unfold skerr.Wrap. rewrite Hr. simpl. tauto.
Qed.

(** ** What cleanup leaves alone *)

Lemma log_only_refl P w : log_only P w w.
Proof.
  exists []. split; [|constructor]. rewrite app_nil_r. now destruct w.
Qed.

Lemma log_only_more P w w1 evs :
  log_only P w w1 -> Forall P evs ->
  log_only P w (set_log (log w1 ++ evs) w1).
Proof.
  intros (evs0 & -> & H0) H. exists (evs0 ++ evs).
  split; [simpl; now rewrite app_assoc | apply Forall_app; now split].
Qed.

Lemma is_publish_cleanup evs : Forall is_publish evs -> Forall cleanup_event evs.
Proof.
  intros H. eapply Forall_impl; [exact H|]. intros ev. now destruct ev.
Qed.

Lemma buildbucketCleanup_loop_log_only E L t builds : forall w0 w,
  log_only cleanup_event w0 w ->
  wpx (buildbucketCleanup_loop E L t builds) w
    (fun _ w' => log_only cleanup_event w0 w')
    (fun w' => log_only cleanup_event w0 w').
Proof.
  induction builds as [|build builds IH]; intros w0 w Hw; simpl.
  - wpx_step. exact Hw.
  - wpx_step. apply wpx_deref.
    destruct (b_Builder build) as [builder|]; [|exact Hw].
    destruct (negb (String.eqb (Bucket builder) (buildbucketBucket t)));
      [now apply IH|].
    wpx_step. apply wpx_emits.
    destruct (findJobForBuild E (b_Id build) w) as [r w1|w1] eqn:Hfind.
    2: { destruct (findJobForBuild_emits E (b_Id build) w)
           as (? & ? & Hc & _). rewrite Hfind in Hc. discriminate. }
    destruct (findJobForBuild_log E (b_Id build) w r w1 Hfind)
      as (s & e & Hw1).
    exists r, [Clock_Now; DB_SearchJobs (b_Id build) s e].
    split; [now rewrite Hfind, Hw1|]. rewrite <- Hw1.
    assert (Hw1' : log_only cleanup_event w0 w1).
    { rewrite Hw1. apply log_only_more; [exact Hw|].
      repeat constructor. }
    clear Hfind Hw1. destruct r as [job err]. cbv beta iota.
    destruct err as [e0|]; [wpx_step; exact Hw1'|].
    destruct job as [job|]; [|now apply IH].
    assert (Hcancel : forall reason w2,
      log_only cleanup_event w0 w2 ->
      wpx (err ← cancelBuild E L job reason;
           match err with
           | Some e =>
               mret (skerr.Wrapf (Some e)
                       ("failed to cancel build " +:+ fmt_d (b_Id build)
                        +:+ " (job " +:+ Id job +:+ ")"))
           | None => buildbucketCleanup_loop E L t builds
           end) w2
        (fun _ w' => log_only cleanup_event w0 w')
        (fun w' => log_only cleanup_event w0 w')).
    { intros reason w2 Hw2. wpx_step. apply wpx_emits.
      eapply emits_mono; [apply cancelBuild_emits|].
      intros cerr evs (pub & -> & Hpub).
      assert (Hw3 : log_only cleanup_event w0
                      (set_log (log w2 ++ BB2_CancelBuild
                                  (BuildbucketBuildId job) reason :: pub) w2)).
      { apply log_only_more; [exact Hw2|].
        constructor; [exact I | now apply is_publish_cleanup]. }
      destruct cerr; [wpx_step; exact Hw3 | now apply IH]. }
    destruct (Done job); [|now apply IH].
    destruct (String.eqb (BuildbucketToken job) ""); [now apply Hcancel|].
    wpx_step. apply wpx_emits.
    eapply emits_mono; [apply updateBuild_emits|].
    intros uerr evs (pub & -> & Hpub).
    assert (Hw2 : log_only cleanup_event w0
                    (set_log (log w1 ++ BB2_UpdateBuild
                                (BuildbucketBuildId job) (Status job)
                                (StatusDetails job) (BuildbucketToken job)
                                :: pub) w1)).
    { apply log_only_more; [exact Hw1'|].
      constructor; [exact I | now apply is_publish_cleanup]. }
    destruct uerr as [ue|]; [|now apply IH].
    destruct (isBuildAlreadyFinishedError (Some ue));
      [now apply IH | now apply Hcancel].
Qed.

(** X15.  However it ends, [buildbucketCleanup] has changed no job object,
    no row of the job database and no entry of the job cache: all it does is
    read the clock, search Buildbucket and the database, update or cancel
    builds and publish updates.  In particular the token of a job whose build
    it has updated stays in the job. *)
Theorem buildbucketCleanup_reads_only E L t w w' :
  final (buildbucketCleanup E L t w) = w' ->
  log_only cleanup_event w w'.
Proof.
  intros <-.
  enough (H : wpx (buildbucketCleanup E L t) w
                (fun _ w' => log_only cleanup_event w w')
                (fun w' => log_only cleanup_event w w')).
  { unfold wpx in H. now destruct (buildbucketCleanup E L t w). }
  unfold buildbucketCleanup, TimeNow.
  wpx_step. apply wpx_wp. wp_step.
  wpx_step. apply wpx_wp. wp_step.
  set (w2 := set_log _ (set_log _ w)).
  assert (Hw2 : log_only cleanup_event w w2).
  { unfold w2. apply log_only_more; [|repeat constructor].
    apply log_only_more; [apply log_only_refl | repeat constructor]. }
  clearbody w2.
  destruct (bb2_Search E _ _ _) as [builds|e]; [|wpx_step; exact Hw2].
  now apply buildbucketCleanup_loop_log_only.
Qed.

(** ** Texts and numbers *)

Lemma prefix_app (a s : string) :
  String.prefix a s = true <-> exists b, s = a +:+ b.
Proof.
  revert s. induction a as [|c a IH]; intros s.
  - split; [intros _; now exists s | intros _; now destruct s].
  - destruct s as [|d s]; simpl;
      [split; [discriminate | intros [b H]; discriminate]|].
    destruct (ascii_dec c d) as [->|Hne].
    + rewrite IH. split; intros [b H]; exists b.
      * rewrite string_app_cons. now f_equal.
      * rewrite string_app_cons in H. now injection H.
    + split; [discriminate|]. intros [b H].
      rewrite string_app_cons in H. injection H as H _. now destruct Hne.
Qed.

Lemma Contains_substring (s sub : string) :
  Contains s sub = true <-> exists a b, s = a +:+ sub +:+ b.
Proof.
  induction s as [|c s IH].
  - cbn [Contains]. rewrite orb_false_r, prefix_app. split.
    + intros [b H]. now exists "", b.
    + intros (a & b & H). exists b. destruct a; [exact H | discriminate].
  - cbn [Contains]. rewrite orb_true_iff, prefix_app, IH. split.
    + intros [[b H]|(a & b & H)].
      * now exists "", b.
      * exists (String c a), b. rewrite string_app_cons. now f_equal.
    + intros (a & b & H). destruct a as [|d a].
      * left. now exists b.
      * right. rewrite string_app_cons in H. injection H as _ H.
        now exists a, b.
Qed.

(** X16.  The two checks on the text of an error of Buildbucket look for
    their marker anywhere in the text: [isBuildAlreadyStartedError] and
    [isBuildAlreadyFinishedError] hold exactly for the errors whose text has
    the marker as a substring, so also for an error that has been wrapped in
    further context. *)
Theorem already_errors_substring e :
  (isBuildAlreadyStartedError (Some e) = true <->
   exists a b, Error e = a +:+ buildAlreadyStartedErr +:+ b) /\
  (isBuildAlreadyFinishedError (Some e) = true <->
   exists a b, Error e = a +:+ buildAlreadyFinishedErr +:+ b) /\
  forall ctx e',
    skerr.Wrapf (Some e) ctx = Some e' ->
    (isBuildAlreadyStartedError (Some e) = true ->
     isBuildAlreadyStartedError (Some e') = true) /\
    (isBuildAlreadyFinishedError (Some e) = true ->
     isBuildAlreadyFinishedError (Some e') = true).
Proof.
  split; [apply Contains_substring|]. split; [apply Contains_substring|].
  intros ctx e' [= <-]. unfold isBuildAlreadyStartedError,
    isBuildAlreadyFinishedError.
  split; intros H; apply (Contains_Wrapf e ctx _ H).
Qed.

(** ** Numbers in decimal *)

Lemma is_digit_pretty_N_char x : is_digit (pretty_N_char x) = true.
Proof.
  unfold pretty_N_char.
  repeat match goal with
         | |- context [match ?y with _ => _ end] => destruct y
         end; reflexivity.
Qed.

Lemma digit_value x :
  (x < 10)%N ->
  Z.of_nat (nat_of_ascii (pretty_N_char x) - 48) = Z.of_N x.
Proof.
  intros H.
  assert (x = 0 \/ x = 1 \/ x = 2 \/ x = 3 \/ x = 4 \/ x = 5 \/ x = 6
          \/ x = 7 \/ x = 8 \/ x = 9)%N as Hx by lia.
  repeat (destruct Hx as [->|Hx]; [reflexivity|]). now subst.
Qed.

Lemma parse_digits_pretty_N_go x : forall s,
  parse_digits (pretty_N_go x s) 0 = parse_digits s (Z.of_N x).
Proof.
  induction (N.lt_wf_0 x) as [x _ IH]; intros s.
  destruct (N.eq_dec x 0%N) as [->|Hne]; [reflexivity|].
  rewrite pretty_N_go_step by lia.
  rewrite IH by (apply N.div_lt; [lia | reflexivity]).
  cbn [parse_digits]. rewrite is_digit_pretty_N_char.
  rewrite digit_value by (apply N.mod_lt; discriminate).
  f_equal. rewrite N2Z.inj_div, N2Z.inj_mod.
  pose proof (Z.div_mod (Z.of_N x) 10). lia.
Qed.

Lemma pretty_N_go_head x : forall s,
  (0 < x)%N ->
  exists c rest, pretty_N_go x s = String c rest /\ is_digit c = true.
Proof.
  induction (N.lt_wf_0 x) as [x _ IH]; intros s Hx.
  rewrite pretty_N_go_step by exact Hx.
  destruct (N.eq_dec (x `div` 10)%N 0%N) as [Hz|Hnz].
  - rewrite Hz, pretty_N_go_0. eexists _, _. split; [reflexivity|].
    apply is_digit_pretty_N_char.
  - apply IH; [apply N.div_lt; [exact Hx | reflexivity]|].
    now apply N.neq_0_lt_0.
Qed.

Lemma ParseInt_positive p :
  (Z.pos p < 2 ^ 63 -> ParseInt (pretty (N.pos p)) = Some (Z.pos p)) /\
  (- 2 ^ 63 <= Z.neg p ->
   ParseInt ("-" +:+ pretty (N.pos p)) = Some (Z.neg p)).
Proof.
  unfold pretty, pretty_N.
  destruct (decide (N.pos p = 0%N)) as [Hc|_]; [discriminate|].
  destruct (pretty_N_go_head (N.pos p) "" eq_refl) as (c & rest & Hs & Hc).
  pose proof (parse_digits_pretty_N_go (N.pos p) "") as Hp.
  rewrite Hs in Hp. cbn [parse_digits] in Hp. rewrite Hc in Hp.
  assert (Hplus : Ascii.eqb c "+" = false).
  { destruct (Ascii.eqb_spec c "+") as [->|]; [discriminate Hc | reflexivity]. }
  assert (Hminus : Ascii.eqb c "-" = false).
  { destruct (Ascii.eqb_spec c "-") as [->|]; [discriminate Hc | reflexivity]. }
  split; intros Hr.
  - rewrite Hs. unfold ParseInt, parse_decimal. rewrite Hplus, Hminus.
    cbn [parse_digits]. rewrite Hc, Hp. cbn [parse_digits N2Z.inj].
    change (Z.of_N (N.pos p)) with (Z.pos p).
    destruct (Z.leb_spec (- 2 ^ 63) (Z.pos p)); [|lia].
    destruct (Z.ltb_spec (Z.pos p) (2 ^ 63)); [reflexivity | lia].
  - rewrite Hs, string_app_cons.
    change ("" +:+ String c rest) with (String c rest).
    assert (Hm : forall d,
              ParseInt (String "-" d)
              = match Z.opp <$> match d with
                                | EmptyString => None
                                | _ => parse_digits d 0
                                end with
                | Some z => if (- 2 ^ 63 <=? z) && (z <? 2 ^ 63)
                            then Some z else None
                | None => None
                end) by reflexivity.
    rewrite Hm. cbn [parse_digits]. rewrite Hc, Hp.
    change (Z.opp <$> Some (Z.of_N (N.pos p))) with (Some (Z.neg p)).
    cbv iota.
    destruct (Z.leb_spec (- 2 ^ 63) (Z.neg p)); [|lia].
    destruct (Z.ltb_spec (Z.neg p) (2 ^ 63)); [reflexivity | lia].
Qed.

Lemma ParseInt_fmt_d z :
  - 2 ^ 63 <= z < 2 ^ 63 -> ParseInt (fmt_d z) = Some z.
Proof.
  intros Hr. unfold fmt_d, pretty, pretty_Z. destruct z as [|p|p].
  - reflexivity.
  - apply (ParseInt_positive p). lia.
  - apply (ParseInt_positive p). lia.
Qed.

(** X17.  The issue of a job is written in decimal by [insertNewJobV1] and
    read back by [getRevision]: for every change number of 64 bits the text
    is read back as that number, so [getRevision] asks Gerrit for the change
    the build was for and never fails on the number. *)
Theorem getRevision_reads_issue E repo change w :
  - 2 ^ 63 <= change < 2 ^ 63 ->
  ParseInt (fmt_d change) = Some change /\
  exists r,
    getRevision E repo (fmt_d change) w
    = Ret r (set_log (log w ++ [Gerrit_GetIssueProperties change]) w) /\
    (r.2 = None <->
     exists branch,
       gerrit_GetIssueProperties E (log w) change = Reply branch /\
       repo branch = Some r.1).
Proof.
  intros Hr. pose proof (ParseInt_fmt_d change Hr) as Hp.
  split; [exact Hp|]. unfold getRevision. rewrite Hp.
  rewrite bind_unfold. unfold call at 1.
  destruct (gerrit_GetIssueProperties E (log w) change) as [branch|e].
  - destruct (repo branch) as [hash|] eqn:Hb; rewrite ret_unfold;
      eexists; (split; [reflexivity|]); simpl.
    + split; [intros _; exists branch; auto | reflexivity].
    + split; [discriminate|]. intros (b & [= <-] & H). congruence.
  - rewrite ret_unfold. eexists. split; [reflexivity|]. simpl.
    split; [discriminate|]. intros (b & H & _). discriminate.
Qed.

Lemma int64_small z : - 2 ^ 63 <= z < 2 ^ 63 -> int64 z = z.
Proof.
  intros H. unfold int64.
  rewrite Z.mod_small by lia. lia.
Qed.

Lemma expiration_micros n d :
  0 <= n < 2 ^ 63 -> 0 <= d <= 3600 ->
  int64 (Unix (n + d * second) * secondsToMicros)
  = (n / second + d) * 1000000.
Proof.
  intros Hn Hd. unfold Unix, secondsToMicros.
  rewrite Z.div_add by (unfold second; lia).
  apply int64_small.
  assert (0 <= n / second < 2 ^ 63 / second + 1).
  { split; [apply Z.div_pos; unfold second; lia|].
    assert (n / second <= 2 ^ 63 / second)
      by (apply Z.div_le_mono; unfold second; lia).
    lia. }
  assert (Hq : 2 ^ 63 / second = 9223372036) by reflexivity.
  rewrite Hq in *. lia.
Qed.

Lemma no_heartbeat_beats expiration evs :
  Forall no_heartbeat evs -> Forall (beats_until expiration) evs.
Proof.
  intros H. eapply Forall_impl; [exact H|]. now intros [].
Qed.

Lemma localCancelJobs_loop_calls E reasons jobs : forall idx w,
  Forall (fun p => is_Some (heap w !! p)) jobs ->
  (idx + length jobs <= length reasons)%nat ->
  wp (localCancelJobs_loop E idx jobs reasons) w (fun _ w' =>
    length (heap w') = length (heap w) /\
    exists evs, log w' = log w ++ evs /\ Forall no_heartbeat evs).
Proof.
  induction jobs as [|p jobs IH]; intros idx w Hv Hlen; simpl.
  - wp_step. split; [reflexivity|]. exists [].
    split; [now rewrite app_nil_r | constructor].
  - inversion Hv as [|? ? [jp Hjp] Hv']; subst. simpl in Hlen.
    destruct (lookup_lt_is_Some_2 reasons idx ltac:(lia)) as [reason Hr].
    assert (Hlt : (p < length (heap w))%nat)
      by (apply lookup_lt_is_Some; eauto).
    wp_step. unfold at_index. eapply wp_deref; [exact Hr|].
    wp_step. eapply wp_modify; [exact Hjp|].
    wp_step. eapply wp_modify;
      [simpl; apply list_lookup_insert_eq; exact Hlt|].
    wp_step. eapply wp_modify;
      [simpl; apply list_lookup_insert_eq; rewrite length_insert; exact Hlt|].
    wp_step. unfold Now. wp_step.
    wp_step. eapply wp_modify;
      [simpl; apply list_lookup_insert_eq; rewrite !length_insert; exact Hlt|].
    simpl. rewrite !list_insert_insert_eq.
    eapply wp_mono.
    { apply IH; [|lia]. eapply Forall_impl; [exact Hv'|].
      intros q Hq. simpl in *. apply lookup_lt_is_Some.
      rewrite length_insert. now apply lookup_lt_is_Some. }
    simpl. intros _ w' [Hl (evs & Hlog & Hevs)].
    split; [now rewrite Hl, length_insert|].
    exists (Clock_Now :: evs). split.
    + rewrite Hlog. now rewrite <- app_assoc.
    + constructor; [exact I | exact Hevs].
Qed.

Lemma localCancelJobs_calls E jobs reasons w :
  Forall (fun p => is_Some (heap w !! p)) jobs ->
  wp (localCancelJobs E jobs reasons) w (fun _ w' =>
    length (heap w') = length (heap w) /\
    exists evs, log w' = log w ++ evs /\ Forall no_heartbeat evs).
Proof.
  intros Hv. unfold localCancelJobs.
  destruct (Nat.eqb_spec (length jobs) (length reasons)) as [Hlen|Hlen]; simpl.
  2: { wp_step. split; [reflexivity|]. exists [].
       split; [now rewrite app_nil_r | constructor]. }
  wp_step. eapply wp_mono;
    [apply (localCancelJobs_loop_calls E reasons jobs 0 w Hv); lia|].
  intros [] w1 [Hl (evs & Hlog & Hevs)]. simpl.
  wp_step. apply wp_db_PutJobsInChunks.
  { eapply Forall_impl; [exact Hv|]. intros q Hq. simpl in *.
    apply lookup_lt_is_Some. rewrite Hl. now apply lookup_lt_is_Some. }
  intros js err w2 _ Hh2 _ Hlog2 _ _.
  assert (Hfinal : forall w3, heap w3 = heap w2 -> log w3 = log w2 ->
    length (heap w3) = length (heap w) /\
    exists evs0, log w3 = log w ++ evs0 /\ Forall no_heartbeat evs0).
  { intros w3 Hh3 Hlog3. split; [congruence|].
    exists (evs ++ [DB_PutJobsInChunks js]). split.
    - now rewrite Hlog3, Hlog2, Hlog, <- app_assoc.
    - apply Forall_app. split; [exact Hevs|]. now repeat constructor. }
  destruct err; wp_steps; [now apply Hfinal|].
  unfold jCache_AddJobs. wp_steps. now apply Hfinal.
Qed.

Lemma send_cancel_calls E L cancelBuilds : forall errs w,
  emits (send_cancel E L cancelBuilds errs) w (fun _ evs =>
    Forall no_heartbeat evs).
Proof.
  induction cancelBuilds as [|id rest IH]; intros errs w; simpl.
  - emits_step. constructor.
  - emits_step. eapply emits_mono; [apply remoteCancelV1Build_calls|].
    intros err evs ->. eapply emits_mono; [apply IH|].
    intros errs' evs' Hevs'. simpl. constructor; [exact I | exact Hevs'].
Qed.

(** [send] makes the heartbeat call of its batch, with [expiration] in
    every heartbeat, and no other heartbeat call. *)
Lemma send_beats E L expiration jobs errs w :
  Forall (fun p => is_Some (heap w !! p)) jobs ->
  wp (send E L expiration jobs errs) w (fun _ w' =>
    length (heap w') = length (heap w) /\
    exists hbs evs,
      log w' = log w ++ BB_HeartbeatBatch hbs :: evs /\
      length hbs = length jobs /\
      Forall (fun hb => hb_LeaseExpirationTs hb = expiration) hbs /\
      Forall no_heartbeat evs).
Proof.
  intros Hv. unfold send.
  wp_step. apply wp_loadAll; [exact Hv|]. intros js Hjs.
  set (hbs := (fun j => {| hb_BuildId := BuildbucketBuildId j;
                           hb_LeaseKey := BuildbucketLeaseKey j;
                           hb_LeaseExpirationTs := expiration |}) <$> js).
  assert (Hlen : length hbs = length jobs).
  { unfold hbs. rewrite length_fmap. symmetry.
    eapply Forall2_length; exact Hjs. }
  assert (Hex : Forall (fun hb => hb_LeaseExpirationTs hb = expiration) hbs).
  { unfold hbs. apply Forall_fmap, Forall_forall. now intros j _. }
  assert (Hfinal : forall w' evs,
    length (heap w') = length (heap w) ->
    log w' = log w ++ BB_HeartbeatBatch hbs :: evs ->
    Forall no_heartbeat evs ->
    length (heap w') = length (heap w) /\
    exists hbs0 evs0,
      log w' = log w ++ BB_HeartbeatBatch hbs0 :: evs0 /\
      length hbs0 = length jobs /\
      Forall (fun hb => hb_LeaseExpirationTs hb = expiration) hbs0 /\
      Forall no_heartbeat evs0).
  { intros w' evs Hl Hlog Hevs. split; [exact Hl|].
    exists hbs, evs. auto. }
  wp_step. wp_step.
  set (w1 := set_log (log w ++ [BB_HeartbeatBatch hbs]) w).
  assert (Hend1 : length (heap w1) = length (heap w) /\
    exists hbs0 evs0,
      log w1 = log w ++ BB_HeartbeatBatch hbs0 :: evs0 /\
      length hbs0 = length jobs /\
      Forall (fun hb => hb_LeaseExpirationTs hb = expiration) hbs0 /\
      Forall no_heartbeat evs0)
    by (apply (Hfinal w1 []); [reflexivity | reflexivity | constructor]).
  destruct (bb_HeartbeatBatch E (log w) _) as [results|e].
  2: { wp_step. exact Hend1. }
  destruct (Nat.eqb_spec (length results) (length jobs)) as [Hlr|Hlr]; simpl.
  2: { wp_step. exact Hend1. }
  assert (Hv1 : Forall (fun p => is_Some (heap w1 !! p)) jobs) by exact Hv.
  assert (Hl1 : length (heap w1) = length (heap w)) by reflexivity.
  assert (Hlog1 : log w1 = log w ++ [BB_HeartbeatBatch hbs]) by reflexivity.
  clearbody w1.
  wp_step. eapply wp_mono; [apply send_results_spec; lia|].
  intros [[retry cj] cr] w1' (-> & Hretry & Hcj & Hlencj). simpl in *.
  assert (Hvr : Forall (fun p => is_Some (heap w1 !! p)) retry).
  { apply Forall_forall. intros q Hq. rewrite Forall_forall in Hv1.
    destruct (Hretry q Hq) as [Hq'|Hq']; [inversion Hq' | auto]. }
  assert (Hvc : Forall (fun p => is_Some (heap w1 !! p)) cj).
  { apply Forall_forall. intros q Hq. rewrite Forall_forall in Hv1.
    destruct (Hcj q Hq) as [Hq'|Hq']; [inversion Hq' | auto]. }
  wp_step.
  eapply (wp_mono _ _ (fun r w2 =>
    r.1.1 = cj /\ r.1.2 = cr /\ length (heap w2) = length (heap w1) /\
    exists evs, log w2 = log w1 ++ evs /\ Forall no_heartbeat evs)).
  { destruct (0 <? length retry)%nat.
    - eapply wp_mono; [apply send_retry_spec; exact Hvr|].
      intros r w2 (-> & Hl & _ & _ & _ & evs & Hlog & Hevs). simpl.
      split; [reflexivity|]. split; [reflexivity|]. split; [exact Hl|].
      exists evs. split; [exact Hlog|].
      eapply Forall_impl; [exact Hevs|].
      intros ev [->|(id & ex & ->)]; exact I.
    - wp_step. simpl. repeat split; auto. exists [].
      split; [now rewrite app_nil_r | constructor]. }
  intros [[cj' cr'] cb] w2 (Hcj' & Hcr' & Hl2 & evs2 & Hlog2 & Hevs2).
  simpl in *. subst cj' cr'.
  assert (Hvc2 : Forall (fun p => is_Some (heap w2 !! p)) cj).
  { eapply Forall_impl; [exact Hvc|]. intros q Hq. simpl in *.
    apply lookup_lt_is_Some. rewrite Hl2. now apply lookup_lt_is_Some. }
  wp_step.
  eapply (wp_mono _ _ (fun _ w3 =>
    length (heap w3) = length (heap w2) /\
    exists evs, log w3 = log w2 ++ evs /\ Forall no_heartbeat evs)).
  { destruct (0 <? length cj)%nat.
    - wp_step. eapply wp_mono; [apply localCancelJobs_calls; exact Hvc2|].
      intros err w3 H3. wp_step. exact H3.
    - wp_step. split; [reflexivity|]. exists [].
      split; [now rewrite app_nil_r | constructor]. }
  intros errs' w3 (Hl3 & evs3 & Hlog3 & Hevs3).
  destruct (0 <? length cb)%nat.
  - apply wp_emits. eapply emits_mono; [apply send_cancel_calls|].
    intros errs'' evs4 Hevs4. apply (Hfinal _ (evs2 ++ evs3 ++ evs4)).
    + simpl. congruence.
    + simpl. rewrite Hlog3, Hlog2, Hlog1, <- !app_assoc. reflexivity.
    + repeat (apply Forall_app; split); assumption.
  - wp_step. apply (Hfinal _ (evs2 ++ evs3)).
    + congruence.
    + rewrite Hlog3, Hlog2, Hlog1, <- !app_assoc. reflexivity.
    + apply Forall_app. now split.
Qed.

Lemma sendHeartbeats_batches_beats E L expiration :
  forall rounds jobs errs w,
  Forall (fun p => is_Some (heap w !! p)) jobs ->
  wp (sendHeartbeats_batches E L rounds expiration jobs errs) w
    (fun _ w' =>
       length (heap w') = length (heap w) /\
       exists evs,
         log w' = log w ++ evs /\
         Forall (beats_until expiration) evs /\
         (jobs <> [] -> (0 < rounds)%nat ->
          exists hbs rest, evs = BB_HeartbeatBatch hbs :: rest /\ hbs <> [])).
Proof.
  induction rounds as [|rounds IH]; intros jobs errs w Hv;
    cbn [sendHeartbeats_batches].
  - wp_step. split; [reflexivity|]. exists [].
    split; [now rewrite app_nil_r|]. split; [constructor | lia].
  - destruct (Nat.ltb_spec 0 (length jobs)) as [Hpos|Hz].
    2: { wp_step. split; [reflexivity|]. exists [].
         split; [now rewrite app_nil_r|]. split; [constructor|].
         intros Hne. destruct jobs; [contradiction | simpl in Hz; lia]. }
    fold (batch_size jobs). wp_step.
    eapply wp_mono.
    { apply send_beats. now apply Forall_take. }
    intros errs1 w1 (Hl1 & hbs & evs1 & Hlog1 & Hlen & Hex & Hevs1).
    eapply wp_mono.
    { apply IH. apply Forall_drop. eapply Forall_impl; [exact Hv|].
      intros q Hq. simpl in *. apply lookup_lt_is_Some. rewrite Hl1.
      now apply lookup_lt_is_Some. }
    intros errs2 w2 (Hl2 & evs2 & Hlog2 & Hevs2 & _).
    split; [congruence|].
    exists (BB_HeartbeatBatch hbs :: evs1 ++ evs2). split.
    { rewrite Hlog2, Hlog1, <- app_assoc. reflexivity. }
    split.
    { constructor; [exact Hex|]. apply Forall_app.
      split; [now apply no_heartbeat_beats | exact Hevs2]. }
    intros _ _. exists hbs, (evs1 ++ evs2). split; [reflexivity|].
    intros ->. simpl in Hlen. rewrite length_take in Hlen.
    rewrite batch_size_min in Hlen. unfold LEASE_BATCH_SIZE in Hlen. lia.
Qed.

(** X18.  A lease is asked for until thirty minutes, and renewed by a
    heartbeat until an hour, after the whole second of the current time, in
    microseconds since the epoch: for a clock that shows a time of 64 bits
    of nanoseconds after the epoch the products do not wrap around.
    [tryLeaseV1Build] reads the clock and asks for the lease until then, and
    [sendHeartbeats] reads the clock once, before its first call, and every
    heartbeat of every batch it sends carries that one expiration; for a list
    of jobs that is not empty, its first call after the clock is a batch of
    heartbeats. *)
Theorem lease_expiration_micros E L id jobs w :
  let n := now_Now E (log w) in
  0 <= n < 2 ^ 63 ->
  Forall (fun p => is_Some (heap w !! p)) jobs ->
  (exists r,
     tryLeaseV1Build E id w
     = Ret r (set_log (log w ++ [Clock_Now;
                                 BB_Lease id ((n / second + 1800) * 1000000)])
                w)) /\
  (exists r w' evs,
     sendHeartbeats E L jobs w = Ret r w' /\
     log w' = log w ++ Clock_Now :: evs /\
     (forall hbs hb,
        BB_HeartbeatBatch hbs ∈ evs -> hb ∈ hbs ->
        hb_LeaseExpirationTs hb = (n / second + 3600) * 1000000) /\
     (jobs <> [] ->
      exists hbs rest, evs = BB_HeartbeatBatch hbs :: rest /\ hbs <> [])).
Proof.
  intros n Hn Hv. split.
  - unfold tryLeaseV1Build, Now. rewrite bind_unfold. unfold call at 1.
    rewrite bind_unfold. unfold call at 1. fold n. cbn [log set_log].
    change LEASE_DURATION_INITIAL with (1800 * second).
    rewrite (expiration_micros n 1800) by lia.
    destruct (bb_Lease E _ id _); rewrite ret_unfold; eexists;
      (f_equal; destruct w; simpl; now rewrite <- app_assoc).
  - enough (Hwp : wp (sendHeartbeats E L jobs) w (fun _ w' =>
      exists evs,
        log w' = log w ++ Clock_Now :: evs /\
        (forall hbs hb,
           BB_HeartbeatBatch hbs ∈ evs -> hb ∈ hbs ->
           hb_LeaseExpirationTs hb = (n / second + 3600) * 1000000) /\
        (jobs <> [] ->
         exists hbs rest, evs = BB_HeartbeatBatch hbs :: rest /\ hbs <> []))).
    { destruct (wp_elim _ _ _ Hwp) as (r & w' & Hrun & evs & H).
      exists r, w', evs. split; [exact Hrun | exact H]. }
    unfold sendHeartbeats.
    destruct (sortJobs_spec jobs w Hv) as (sorted & Hrun & Hperm).
    wp_step. eapply wp_intro; [exact Hrun|].
    wp_step. unfold Now. wp_step. wp_step. fold n.
    change LEASE_DURATION with (3600 * second).
    rewrite (expiration_micros n 3600) by lia.
    eapply wp_mono.
    { apply sendHeartbeats_batches_beats. simpl. now rewrite Hperm. }
    intros errs w' (_ & evs & Hlog & Hevs & Hfirst).
    assert (Hpost : exists evs0,
      log w' = log w ++ Clock_Now :: evs0 /\
      (forall hbs hb,
         BB_HeartbeatBatch hbs ∈ evs0 -> hb ∈ hbs ->
         hb_LeaseExpirationTs hb = (n / second + 3600) * 1000000) /\
      (jobs <> [] ->
       exists hbs rest, evs0 = BB_HeartbeatBatch hbs :: rest /\ hbs <> [])).
    { exists evs. split.
      { rewrite Hlog. simpl. now rewrite <- app_assoc. }
      split.
      - intros hbs hb Hin Hhb. rewrite Forall_forall in Hevs.
        pose proof (Hevs _ Hin) as Hb. simpl in Hb.
        rewrite Forall_forall in Hb. now apply Hb.
      - intros Hne. apply Hfirst.
        + intros ->. apply Permutation_nil_l in Hperm. now subst.
        + destruct sorted as [|p sorted]; simpl; [|lia].
          apply Permutation_nil_l in Hperm. now subst. }
    destruct (0 <? length errs)%nat; wp_step; exact Hpost.
Qed.

(** ** Where the package can panic *)

Lemma valid_length (w w' : World) ps :
  length (heap w') = length (heap w) ->
  Forall (fun p => is_Some (heap w !! p)) ps ->
  Forall (fun p => is_Some (heap w' !! p)) ps.
Proof.
  intros Hl Hv. eapply Forall_impl; [exact Hv|]. intros p Hp. simpl in *.
  apply lookup_lt_is_Some. rewrite Hl. now apply lookup_lt_is_Some.
Qed.

Lemma updateJobs_reconcile_returns E L finished w :
  Forall (fun p => is_Some (heap w !! p)) finished ->
  NoDup finished ->
  wp (updateJobs_reconcile E L finished) w (fun _ w' =>
    length (heap w') = length (heap w)).
Proof.
  intros Hv Hnd. unfold updateJobs_reconcile. wp_step.
  eapply wp_mono; [apply (updateJobs_finished_spec E L finished [] [] w Hv Hnd)|].
  intros [errs insert] w1 (_ & _ & Hl & _ & _ & new & Hr & Hsub & _).
  simpl in Hr. subst insert.
  assert (Hv1 : Forall (fun p => is_Some (heap w1 !! p)) new).
  { apply Forall_forall. intros q Hq. apply Hsub in Hq.
    rewrite Forall_forall in Hv. specialize (Hv q Hq). simpl in Hv.
    apply lookup_lt_is_Some. rewrite Hl. now apply lookup_lt_is_Some. }
  wp_step. apply wp_db_PutJobsInChunks; [exact Hv1|].
  intros js err w2 _ Hh2 _ _ _ _.
  wp_step. unfold jCache_AddJobs. wp_step. wp_step. simpl. congruence.
Qed.

Lemma sendHeartbeats_keeps_objects E L jobs w :
  Forall (fun p => is_Some (heap w !! p)) jobs ->
  wp (sendHeartbeats E L jobs) w (fun _ w' =>
    length (heap w') = length (heap w)).
Proof.
  intros Hv. unfold sendHeartbeats.
  destruct (sortJobs_spec jobs w Hv) as (sorted & Hrun & Hperm).
  wp_step. eapply wp_intro; [exact Hrun|].
  wp_step. unfold Now. wp_step. wp_step.
  eapply wp_mono.
  { apply sendHeartbeats_batches_returns. simpl. now rewrite Hperm. }
  intros errs w' [Hl _]. destruct (0 <? length errs)%nat; wp_step; exact Hl.
Qed.

Lemma sendPubsubUpdates_publishes_all_run E L jobs js w :
  Forall2 (fun p j => heap w !! p = Some j) jobs js ->
  exists r,
    sendPubsubUpdates E L jobs w
    = Ret r (set_log (log w ++ flat_map (published E L) js) w).
Proof.
  intros Hjs. unfold sendPubsubUpdates.
  destruct (sendPubsubUpdates_loop_run E L jobs js [] w Hjs)
    as (more & Hrun & _).
  rewrite bind_unfold, Hrun. simpl.
  destruct more; eexists; reflexivity.
Qed.

Lemma filter_valid (f : ptr -> bool) (h : list Job) ps :
  Forall (fun p => is_Some (h !! p)) ps ->
  Forall (fun p => is_Some (h !! p)) (List.filter f ps).
Proof.
  intros Hv. apply Forall_forall. intros p Hp.
  apply list_elem_of_In, filter_In in Hp as [Hp _].
  rewrite Forall_forall in Hv. apply Hv. now apply list_elem_of_In.
Qed.

Lemma updateJobs_divide_valid jobs : forall finished u1 u2 w,
  Forall (fun p => is_Some (heap w !! p)) jobs ->
  NoDup jobs ->
  Forall (fun p => is_Some (heap w !! p)) finished ->
  Forall (fun p => is_Some (heap w !! p)) u1 ->
  Forall (fun p => is_Some (heap w !! p)) u2 ->
  NoDup finished -> (forall p, p ∈ finished -> p ∉ jobs) ->
  exists f' a' b',
    updateJobs_divide jobs finished u1 u2 w = Ret (f', a', b') w /\
    Forall (fun p => is_Some (heap w !! p)) f' /\
    Forall (fun p => is_Some (heap w !! p)) a' /\
    Forall (fun p => is_Some (heap w !! p)) b' /\
    NoDup f'.
Proof.
  induction jobs as [|p jobs IH]; intros finished u1 u2 w Hv Hnd Hf Ha Hb Hndf Hdis.
  - exists finished, u1, u2. simpl. auto.
  - inversion Hv as [|? ? [j Hj] Hv']; subst.
    apply NoDup_cons in Hnd as [Hp Hnd].
    simpl. rewrite bind_unfold. unfold load. rewrite Hj.
    destruct (Done j); [|destruct (isBBv2 j)].
    + apply IH; auto.
      * apply Forall_app. split; [exact Hf|]. constructor; [eauto | constructor].
      * apply NoDup_app. split; [exact Hndf|]. split; [|apply NoDup_singleton].
        intros q Hq Hq'. apply list_elem_of_singleton in Hq' as ->.
        apply (Hdis p Hq). now left.
      * intros q Hq Hq'. apply elem_of_app in Hq as [Hq|Hq].
        -- apply (Hdis q Hq). now right.
        -- apply list_elem_of_singleton in Hq as ->. contradiction.
    + apply IH; auto.
      * apply Forall_app. split; [exact Hb|]. constructor; [eauto | constructor].
      * intros q Hq Hq'. apply (Hdis q Hq). now right.
    + apply IH; auto.
      * apply Forall_app. split; [exact Ha|]. constructor; [eauto | constructor].
      * intros q Hq Hq'. apply (Hdis q Hq). now right.
Qed.

Lemma getActiveTryJobs_valid E w :
  wp (getActiveTryJobs E) w (fun r w' =>
    Forall (fun p => is_Some (heap w' !! p)) r.1 /\ NoDup r.1).
Proof.
  unfold getActiveTryJobs. wp_step. apply wp_jCache_Update.
  - intros e He. wp_steps. simpl. split; constructor.
  - intros _. wp_step. unfold jCache_GetAllCachedJobs. wp_step. wp_step.
    assert (Hv0 : Forall (fun p => is_Some ((heap w ++ db w) !! p))
                    (seq (length (heap w)) (length (db w)))).
    { apply Forall_forall. intros p Hp. apply elem_of_seq in Hp.
      apply lookup_lt_is_Some. rewrite length_app. lia. }
    eapply wp_intro; [apply getActiveTryJobs_loop_spec; exact Hv0|].
    wp_steps. simpl. split.
    + now apply filter_valid.
    + apply NoDup_ListNoDup, List.NoDup_filter, NoDup_ListNoDup, NoDup_seq.
Qed.

(** X19.  [updateJobs] does not panic, whatever the state of the process and
    whatever the collaborators answer, heartbeat results that are too few or
    too many included: every job pointer it follows and every slice index it
    uses is valid, and it returns. *)
Theorem updateJobs_never_panics E L w :
  exists r w', updateJobs E L w = Ret r w'.
Proof.
  enough (Hwp : wp (updateJobs E L) w (fun _ _ => True)).
  { destruct (wp_elim _ _ _ Hwp) as (r & w' & H & _). eauto. }
  unfold updateJobs. wp_step.
  eapply wp_mono; [apply getActiveTryJobs_valid|].
  intros [jobs err] w1 [Hv Hnd]. cbv beta iota. simpl in Hv, Hnd.
  destruct err as [e|]; [wp_step; exact I|].
  destruct (updateJobs_divide_valid jobs [] [] [] w1 Hv Hnd)
    as (finished & u1 & u2 & Hdiv & Hf & Ha & Hb & Hndf);
    try constructor.
  { intros p Hp. inversion Hp. }
  wp_step. eapply wp_intro; [exact Hdiv|]. cbv beta iota.
  wp_step.
  eapply wp_mono; [apply (updateJobs_reconcile_returns E L finished w1 Hf Hndf)|].
  intros [errs ins] w2 Hl2. cbv beta iota.
  wp_step.
  eapply wp_mono;
    [apply (sendHeartbeats_keeps_objects E L u1 w2);
     now apply (valid_length w1)|].
  intros heartbeatErr w3 Hl3.
  assert (Hb3 : Forall (fun p => is_Some (heap w3 !! p)) u2).
  { apply (valid_length w1); [congruence | exact Hb]. }
  destruct (loadAll_spec u2 w3 Hb3) as (js & _ & Hjs).
  destruct (sendPubsubUpdates_publishes_all_run E L u2 js w3 Hjs)
    as (r & Hrun).
  wp_step. eapply wp_intro; [exact Hrun|].
  destruct (0 <? length _)%nat; wp_step; exact I.
Qed.

Lemma wpx_const {A : Type} (m : M A) w (P : Prop) :
  P -> wpx m w (fun _ _ => True) (fun _ => P).
Proof. intros H. unfold wpx. now destruct (m w). Qed.

Lemma wp_true_put E job j3 w3 :
  heap w3 !! job = Some j3 ->
  wp (err ← db_PutJob E job;
      match err with
      | Some e =>
          j ← load job;
          mret (skerr.Wrapf (Some e)
                  ("failed to insert Job " +:+ Id j +:+ " (build "
                   +:+ fmt_d (BuildbucketBuildId j) +:+ ") into the DB"))
      | None => jCache_AddJobs [job];; mret None
      end) w3 (fun _ _ => True).
Proof.
  intros Hj3.
  assert (Hlt : (job < length (heap w3))%nat)
    by (apply lookup_lt_is_Some; eauto).
  wp_step. eapply wp_db_PutJob; [exact Hj3|].
  intros err w4 j4 _ _ Hh4 _ _ _.
  destruct err as [pe|].
  - wp_step. eapply wp_load; [rewrite Hh4; exact Hj3|]. wp_step. exact I.
  - wp_step. unfold jCache_AddJobs. wp_step. wp_step. exact I.
Qed.

(** X20.  [startJob] can panic in two places only.  For a job object it can
    read, it panics when the database has no row for the id of the job and
    reports no error, or when the row is REQUESTED, the job could be
    prepared, and the start notification failed with the error of
    Buildbucket for a second StartBuild.  Every other run returns. *)
Theorem startJob_panics_only E L t job w j w' :
  let w1 := set_log (log w ++ [DB_GetJobById (Id j)]) w in
  heap w !! job = Some j ->
  startJob E L t job w = Panic w' ->
  (db_GetJobById_err E (log w) (Id j) = None /\
   jobdb.find (Id j) (db w) = None)
  \/
  (exists uj w2 j2 bbToken err w4,
     jobdb.find (Id j) (db w) = Some uj /\
     Status uj = JOB_STATUS_REQUESTED /\
     startJobHelper E L t job w1 = Ret None w2 /\
     heap w2 !! job = Some j2 /\
     jobStarted E L t (set_Status JOB_STATUS_IN_PROGRESS j2)
       (set_heap (<[job := set_Status JOB_STATUS_IN_PROGRESS j2]> (heap w2))
          w2)
     = Ret (bbToken, None, err) w4 /\
     isBuildAlreadyStartedError err = true).
Proof.
  intros w1 Hj Hpanic.
  set (P := (db_GetJobById_err E (log w) (Id j) = None /\
             jobdb.find (Id j) (db w) = None)
            \/
            (exists uj w2 j2 bbToken err w4,
               jobdb.find (Id j) (db w) = Some uj /\
               Status uj = JOB_STATUS_REQUESTED /\
               startJobHelper E L t job w1 = Ret None w2 /\
               heap w2 !! job = Some j2 /\
               jobStarted E L t (set_Status JOB_STATUS_IN_PROGRESS j2)
                 (set_heap (<[job := set_Status JOB_STATUS_IN_PROGRESS j2]>
                              (heap w2)) w2)
               = Ret (bbToken, None, err) w4 /\
               isBuildAlreadyStartedError err = true)).
  enough (Hx : wpx (startJob E L t job) w (fun _ _ => True) (fun _ => P)).
  { unfold wpx in Hx. now rewrite Hpanic in Hx. }
  clear Hpanic.
  unfold startJob.
  wpx_step. apply wpx_wp. eapply wp_load; [exact Hj|].
  wpx_step. apply wpx_wp. unfold db_GetJobById. wp_step. wp_step.
  destruct (db_GetJobById_err E (log w) (Id j)) as [ge|] eqn:Herr.
  { wp_step. wpx_step. exact I. }
  wp_step. wp_step. wp_step. cbn [db set_log]. fold w1.
  destruct (jobdb.find (Id j) (db w)) as [uj|] eqn:Hfind; cbv beta iota.
  2: { wpx_step. apply wpx_deref. left. auto. }
  wpx_step. apply wpx_deref.
  destruct (decide (Status uj = JOB_STATUS_REQUESTED)) as [Hst|Hst].
  2: { rewrite bool_decide_eq_false_2 by exact Hst. cbn [negb].
       wpx_step. exact I. }
  rewrite bool_decide_eq_true_2 by exact Hst. cbn [negb].
  assert (Hj1 : heap w1 !! job = Some j) by exact Hj.
  pose proof (startJobHelper_spec E L t job j w1 Hj1) as Hs.
  destruct (startJobHelper E L t job w1) as [herr w2|wp2] eqn:Hhelper;
    [|unfold wp in Hs; rewrite Hhelper in Hs; contradiction].
  destruct (wp_inv _ _ _ _ _ Hs Hhelper)
    as [(_ & _ & _ & _ & (j2 & Hj2 & _) & _) _].
  clear Hs.
  assert (Hlt : (job < length (heap w2))%nat)
    by (apply lookup_lt_is_Some; eauto).
  wpx_step. eapply wpx_intro; [exact Hhelper|].
  destruct herr as [he|].
  - (* MISHAP *)
    apply wpx_wp. wp_step. wp_step. eapply wp_modify; [exact Hj2|].
    wp_step. eapply wp_modify; [simpl; now apply list_lookup_insert_eq|].
    wp_step. eapply wp_true_put. simpl. apply list_lookup_insert_eq.
    now rewrite length_insert.
  - set (j3 := set_Status JOB_STATUS_IN_PROGRESS j2).
    set (w3 := set_heap (<[job := j3]> (heap w2)) w2).
    destruct (jobStarted_emits E L t j3 w3)
      as ([[bbToken bbError] err] & evs & Hstarted & _ & Hnil).
    set (w4 := set_log (log w3 ++ evs) w3) in *.
    assert (Hj4 : heap w4 !! job = Some j3)
      by (simpl; now apply list_lookup_insert_eq).
    destruct (isBuildAlreadyStartedError err) eqn:Halready.
    { (* the second StartBuild *)
      apply wpx_const. right.
      assert (bbError = None) as ->.
      { apply Hnil. simpl. destruct err; [discriminate | discriminate Halready]. }
      exists uj, w2, j2, bbToken, err, w4. repeat split; assumption. }
    apply wpx_wp.
    wp_step. wp_step. eapply wp_modify; [exact Hj2|].
    wp_step. eapply wp_load; [simpl; now apply list_lookup_insert_eq|].
    wp_step. eapply wp_intro; [exact Hstarted|]. cbv beta iota.
    rewrite Halready. cbn [orb].
    destruct bbError as [bbe|]; cbn [notnil].
    + (* rejected by Buildbucket *)
      wp_step. wp_step. eapply wp_deref; [reflexivity|]. wp_step.
      wp_step.
      eapply wp_mono; [apply (localCancelJobs_single E job _ j3 w4 Hj4)|].
      cbv zeta. intros cancelErr w5 (_ & Hh5 & _ & _).
      assert (Hlt4 : (job < length (heap w4))%nat)
        by (apply lookup_lt_is_Some; eauto).
      wp_step. eapply wp_load; [rewrite Hh5; now apply list_lookup_insert_eq|].
      destruct cancelErr; wp_step; (eapply wp_deref; [reflexivity|]);
        wp_step; wp_step; exact I.
    + destruct err as [e0|].
      * wp_step. wp_step. exact I.
      * destruct (negb (String.eqb bbToken "")).
        -- wp_step. eapply wp_modify; [exact Hj4|]. wp_step.
           eapply wp_true_put. simpl. apply list_lookup_insert_eq.
           apply lookup_lt_is_Some. eauto.
        -- wp_step. wp_step. wp_step. eapply wp_true_put. exact Hj4.
Qed.

(** ** The further properties at work *)

(** X2 at work: the updates of two jobs of the asynchronous protocol, the
    second of which is published first. *)
Lemma sendPubsubUpdates_publishes_all_witness :
  let js := [sample_job_v2 JOB_STATUS_SUCCESS "tok";
             other_job_v2 JOB_STATUS_FAILURE "tok"] in
  sendPubsubUpdates quiet sample_lib [1%nat; 0%nat] (world_of js js)
  = Ret None
      (set_log [Pubsub_Publish "skia-public" "buildbucket" 44;
                Pubsub_Publish "skia-public" "buildbucket" 43]
         (world_of js js)).
Proof.
  intros js.
  destruct (sendPubsubUpdates_publishes_all quiet sample_lib
              [0%nat; 1%nat] js [1%nat; 0%nat] (world_of js js))
    as (r & os & Hos & _ & Hrun & _ & Hr).
  - repeat constructor.
  - apply Permutation_swap.
  - apply omap_lookup_all in Hos. cbn in Hos. subst os.
    rewrite Hrun. f_equal. apply Hr. intros pre j post _.
    split; reflexivity.
Defined.

(** X3 at work: the heartbeats of two legacy jobs, both answered with the
    error that the build is completed. *)
Lemma sendHeartbeats_sends_all_witness :
  let js := [sample_job JOB_STATUS_IN_PROGRESS;
             other_job JOB_STATUS_IN_PROGRESS] in
  exists r batches,
    sendHeartbeats heartbeats_find_completed sample_lib [0%nat; 1%nat]
      (world_of js js)
    = Ret r (set_log (Clock_Now :: (BB_HeartbeatBatch <$> batches))
               (world_of js js)).
Proof.
  intros js.
  destruct (sendHeartbeats_sends_all heartbeats_find_completed sample_lib
              [0%nat; 1%nat] js (world_of js js))
    as (r & sorted & batches & Hrun & _).
  - repeat constructor.
  - intros h hbs. simpl. intros _. apply Forall_fmap, Forall_forall.
    intros x _. reflexivity.
  - exists r, batches. exact Hrun.
Defined.

(** X4 at work: one heartbeat, answered with the error that the build is
    completed. *)
Lemma send_completed_passed_over_witness :
  send heartbeats_find_completed sample_lib 0 [0%nat] []
    (one_job_world (sample_job JOB_STATUS_IN_PROGRESS))
  = Ret []
      (set_log [BB_HeartbeatBatch
                  (heartbeats_of 0 [sample_job JOB_STATUS_IN_PROGRESS])]
         (one_job_world (sample_job JOB_STATUS_IN_PROGRESS))).
Proof.
  apply (send_completed_passed_over heartbeats_find_completed sample_lib 0
           [0%nat] [sample_job JOB_STATUS_IN_PROGRESS] []
           (one_job_world (sample_job JOB_STATUS_IN_PROGRESS))
           [ {| hbr_Error := Some build_completed |} ]).
  - repeat constructor.
  - reflexivity.
  - reflexivity.
  - repeat constructor.
Defined.

(** X5 at work: one heartbeat, rejected because Buildbucket does not know
    the build. *)
Lemma send_rejected_canceled_locally_witness :
  exists errs w',
    send heartbeats_rejected sample_lib 0 [0%nat] []
      (one_job_world (sample_job JOB_STATUS_IN_PROGRESS))
    = Ret errs w' /\
    (Status <$> heap w') = [JOB_STATUS_CANCELED] /\
    (StatusDetails <$> heap w')
    = ["Buildbucket rejected heartbeat with: BUILD_NOT_FOUND"%string].
Proof.
  set (j := sample_job JOB_STATUS_IN_PROGRESS).
  destruct (send_rejected_canceled_locally heartbeats_rejected sample_lib 0
              [0%nat] [j] [] (one_job_world j) []
              {| hbr_Error := Some {| Message := "build not found";
                                      Reason := "BUILD_NOT_FOUND" |} |}
              []
              {| Message := "build not found"; Reason := "BUILD_NOT_FOUND" |}
              0%nat j)
    as (w' & Hrun & Hheap & _).
  - repeat constructor.
  - reflexivity.
  - reflexivity.
  - constructor.
  - constructor.
  - reflexivity.
  - discriminate.
  - discriminate.
  - reflexivity.
  - reflexivity.
  - eexists _, w'. split; [exact Hrun|]. rewrite Hheap. split; reflexivity.
Defined.

(** X6 at work: a job at a revision that its repository does not have ends as
    a MISHAP. *)
Lemma startJob_mishap_witness :
  exists w',
    startJob quiet sample_lib sample_integrator 0%nat
      (one_job_world unknown_revision_job)
    = Ret None w' /\
    (Status <$> db w') = [JOB_STATUS_MISHAP] /\
    (StatusDetails <$> db w')
    = ["Failed to start Job: Unknown revision deadbeef"%string].
Proof.
  set (j := unknown_revision_job).
  set (w := one_job_world j).
  set (o2 := startJobHelper quiet sample_lib sample_integrator 0%nat
               (set_log (log w ++ [DB_GetJobById (Id j)]) w)).
  destruct (startJob_mishap quiet sample_lib sample_integrator 0%nat w j j
              (errors_New "Unknown revision deadbeef") (final o2) j)
    as (r & w' & evs & Hrun & _ & _ & Hr & Hdb & _).
  - reflexivity.
  - reflexivity.
  - reflexivity.
  - reflexivity.
  - vm_compute. reflexivity.
  - reflexivity.
  - exists w'. rewrite Hrun, Hr, Hdb. repeat split; vm_compute; reflexivity.
Defined.

(** X7 at work: the start notification times out. *)
Lemma startJob_notification_fails_witness :
  exists e w',
    startJob start_times_out sample_lib sample_integrator 0%nat
      (one_job_world (sample_job_v2 JOB_STATUS_REQUESTED ""))
    = Ret (Some e) w' /\
    (Status <$> heap w') = [JOB_STATUS_IN_PROGRESS] /\
    (Status <$> db w') = [JOB_STATUS_REQUESTED].
Proof.
  set (j := sample_job_v2 JOB_STATUS_REQUESTED "").
  set (w := one_job_world j).
  set (E := start_times_out).
  set (o2 := startJobHelper E sample_lib sample_integrator 0%nat
               (set_log (log w ++ [DB_GetJobById (Id j)]) w)).
  set (j2 := match heap (final o2) !! 0%nat with Some x => x | None => j end).
  set (o4 := jobStarted E sample_lib sample_integrator
               (set_Status JOB_STATUS_IN_PROGRESS j2)
               (set_heap (<[0%nat := set_Status JOB_STATUS_IN_PROGRESS j2]>
                            (heap (final o2))) (final o2))).
  destruct (startJob_notification_fails E sample_lib sample_integrator
              0%nat w j j (final o2) j2 "" None
              (errors_New "context deadline exceeded") (final o4))
    as (Hrun & _ & Hdb & _).
  - reflexivity.
  - reflexivity.
  - reflexivity.
  - reflexivity.
  - vm_compute. reflexivity.
  - reflexivity.
  - vm_compute. reflexivity.
  - reflexivity.
  - eexists _, (final o4). split; [exact Hrun|]. split; reflexivity.
Defined.

(** X8 at work: Buildbucket refuses the start of a legacy build. *)
Lemma startJob_start_rejected_witness :
  exists e w',
    startJob start_refused sample_lib sample_integrator 0%nat
      (one_job_world (sample_job JOB_STATUS_REQUESTED))
    = Ret (Some e) w' /\
    (Status <$> db w') = [JOB_STATUS_CANCELED] /\
    (StatusDetails <$> db w')
    = ["Buildbucket rejected Start with: BUILD_IS_COMPLETED"%string].
Proof.
  set (j := sample_job JOB_STATUS_REQUESTED).
  set (w := one_job_world j).
  set (E := start_refused).
  set (o2 := startJobHelper E sample_lib sample_integrator 0%nat
               (set_log (log w ++ [DB_GetJobById (Id j)]) w)).
  set (j2 := match heap (final o2) !! 0%nat with Some x => x | None => j end).
  set (o4 := jobStarted E sample_lib sample_integrator
               (set_Status JOB_STATUS_IN_PROGRESS j2)
               (set_heap (<[0%nat := set_Status JOB_STATUS_IN_PROGRESS j2]>
                            (heap (final o2))) (final o2))).
  destruct (startJob_start_rejected E sample_lib sample_integrator
              0%nat w j j (final o2) j2 ""
              {| Message := "build 42 has been canceled";
                 Reason := "BUILD_IS_COMPLETED" |}
              None (final o4))
    as (w' & Hrun & _ & _ & Hdb).
  - reflexivity.
  - reflexivity.
  - reflexivity.
  - reflexivity.
  - vm_compute. reflexivity.
  - reflexivity.
  - vm_compute. reflexivity.
  - reflexivity.
  - eexists _, w'. split; [exact Hrun|]. rewrite Hdb.
    split; vm_compute; reflexivity.
Defined.

(** X9 at work: a job of the asynchronous protocol is started and keeps the
    token of StartBuild. *)
Lemma startJob_started_witness :
  exists w',
    startJob quiet sample_lib sample_integrator 0%nat
      (one_job_world (sample_job_v2 JOB_STATUS_REQUESTED ""))
    = Ret None w' /\
    (Status <$> db w') = [JOB_STATUS_IN_PROGRESS] /\
    (BuildbucketToken <$> db w') = ["tok1"%string].
Proof.
  set (j := sample_job_v2 JOB_STATUS_REQUESTED "").
  set (w := one_job_world j).
  set (E := quiet).
  set (o2 := startJobHelper E sample_lib sample_integrator 0%nat
               (set_log (log w ++ [DB_GetJobById (Id j)]) w)).
  set (j2 := match heap (final o2) !! 0%nat with Some x => x | None => j end).
  set (o4 := jobStarted E sample_lib sample_integrator
               (set_Status JOB_STATUS_IN_PROGRESS j2)
               (set_heap (<[0%nat := set_Status JOB_STATUS_IN_PROGRESS j2]>
                            (heap (final o2))) (final o2))).
  destruct (startJob_started E sample_lib sample_integrator
              0%nat w j j (final o2) j2 "tok1" (final o4))
    as (r & w' & Hrun & _ & Hr & Hdb & _).
  - reflexivity.
  - reflexivity.
  - reflexivity.
  - reflexivity.
  - vm_compute. reflexivity.
  - reflexivity.
  - vm_compute. reflexivity.
  - exists w'. rewrite Hrun, Hr, Hdb. repeat split; vm_compute; reflexivity.
Defined.

(** X20 at work: the panic of a second StartBuild is of the second kind. *)
Lemma startJob_panics_only_witness :
  let j := sample_job_v2 JOB_STATUS_REQUESTED "" in
  let w := one_job_world j in
  exists uj err,
    jobdb.find (Id j) (db w) = Some uj /\
    Status uj = JOB_STATUS_REQUESTED /\
    isBuildAlreadyStartedError err = true.
Proof.
  intros j w.
  destruct (startJob_panics_only start_already_recorded sample_lib
              sample_integrator 0%nat w j
              (final (startJob start_already_recorded sample_lib
                        sample_integrator 0%nat w)))
    as [[_ Hnone] | (uj & w2 & j2 & bbToken & err & w4 & Hfind & Hst & _ & _
                     & _ & Halready)].
  - reflexivity.
  - vm_compute. reflexivity.
  - discriminate Hnone.
  - exists uj, err. auto.
Defined.

(** X10 at work: the intake of pending build 42. *)
Lemma insertNewJobV1_writes_leased_witness :
  intake_leased quiet 42 (world_of [] [])
    (final (insertNewJobV1 quiet sample_lib sample_integrator 42
              (world_of [] []))).
Proof.
  apply (insertNewJobV1_writes_leased quiet sample_lib sample_integrator 42
           (world_of [] [])).
  reflexivity.
Defined.

(** X11 at work: build 42 has a job, created a thousand seconds ago. *)
Lemma insertNewJobV1_existing_job_witness :
  let w := world_of [] [sample_job JOB_STATUS_IN_PROGRESS] in
  exists start n,
    insertNewJobV1 quiet sample_lib sample_integrator 42 w
    = Ret None (set_log [Clock_Now; DB_SearchJobs 42 start n] w).
Proof.
  intros w. eexists _, _.
  apply (insertNewJobV1_existing_job quiet sample_lib sample_integrator 42 w
           (sample_job JOB_STATUS_IN_PROGRESS)).
  - apply list_elem_of_here.
  - reflexivity.
  - vm_compute. split; [discriminate | reflexivity].
  - reflexivity.
Defined.

(** X12 at work: Buildbucket refuses the lease of pending build 42 because
    the build is completed, and the build is canceled. *)
Lemma insertNewJobV1_lease_refused_witness :
  exists r w' msg,
    insertNewJobV1 lease_lost_and_refused sample_lib sample_integrator 42
      (world_of [] [])
    = Ret r w' /\ db w' = [] /\ last (log w') = Some (BB_Cancel 42 msg).
Proof.
  set (E := lease_lost_and_refused).
  set (w := world_of [] []).
  destruct (insertNewJobV1_lease_refused E sample_lib sample_integrator 42 w
              (final (findJobForBuild E 42 w)) (sample_build 42 1234 2)
              {| gc_Host := "skia-review.googlesource.com";
                 gc_Project := "skia"; gc_Change := 1234;
                 gc_Patchset := 2 |}
              sample_repo (1699999990 * second)
              {| Project := "skia"; Bucket := "skia.primary";
                 Builder := "Build-Debian10-Clang-x86_64-Debug" |}
              {| Message := "build 42 is completed";
                 Reason := "BUILD_IS_COMPLETED" |})
    as (r & w' & ex & Hrun & Hdb & Hlog).
  - reflexivity.
  - reflexivity.
  - reflexivity.
  - reflexivity.
  - reflexivity.
  - reflexivity.
  - reflexivity.
  - intros h ex. exists None. reflexivity.
  - reflexivity.
  - cbv zeta in Hlog. cbn [String.eqb Reason] in Hlog.
    change (String.eqb "BUILD_IS_COMPLETED"
              BUILDBUCKET_API_ERROR_REASON_INVALID_INPUT) with false in Hlog.
    destruct Hlog as [Hlog _].
    eexists r, w', _. split; [exact Hrun|]. split; [exact Hdb|].
    rewrite Hlog, !app_assoc. apply last_snoc.
Defined.

(** X13 at work: a legacy job that succeeded is reported with Succeed. *)
Lemma jobFinished_legacy_witness :
  let w := one_job_world (sample_job JOB_STATUS_SUCCESS) in
  jobFinished quiet sample_lib (sample_job JOB_STATUS_SUCCESS) w
  = Ret None (set_log [BB_Succeed 42 7] w).
Proof.
  intros w.
  destruct (jobFinished_legacy quiet sample_lib
              (sample_job JOB_STATUS_SUCCESS) w) as (r & Hrun & Hr).
  - reflexivity.
  - rewrite Hrun. f_equal. apply Hr.
    split; [reflexivity|]. split; [reflexivity|]. left. reflexivity.
Defined.

(** X14 at work: the build of a canceled job without status details. *)
Lemma jobFinished_canceled_witness :
  let j := sample_job_v2 JOB_STATUS_CANCELED "tok" in
  jobFinished quiet sample_lib j (one_job_world j)
  = Ret None
      (set_log [BB2_CancelBuild 43 "Underlying job was canceled.";
                Pubsub_Publish "skia-public" "buildbucket" 43]
         (one_job_world j)).
Proof.
  intros j.
  destruct (jobFinished_canceled quiet sample_lib j (one_job_world j))
    as (r & Hrun & Hr).
  - reflexivity.
  - reflexivity.
  - rewrite Hrun. f_equal. apply Hr. repeat split.
Defined.

(** X15 at work: the cleanup of build 43, whose job has succeeded. *)
Lemma buildbucketCleanup_reads_only_witness :
  let w := one_job_world (sample_job_v2 JOB_STATUS_SUCCESS "tok") in
  let w' := final (buildbucketCleanup stale_build_found sample_lib
                     sample_integrator w) in
  heap w' = heap w /\ db w' = db w /\ jCache w' = jCache w.
Proof.
  intros w w'.
  destruct (buildbucketCleanup_reads_only stale_build_found sample_lib
              sample_integrator w w') as (evs & Hw' & _).
  - reflexivity.
  - rewrite Hw'. repeat split.
Defined.

(** X17 at work: issue 1234. *)
Lemma getRevision_reads_issue_witness :
  ParseInt (fmt_d 1234) = Some 1234.
Proof.
  apply (getRevision_reads_issue quiet (fun _ => None) 1234 (world_of [] [])).
  vm_compute. split; [discriminate | reflexivity].
Defined.

(** X18 at work: the clock of the sample collaborators, a lease for build
    42 and the heartbeat of one job. *)
Lemma lease_expiration_micros_witness :
  let w := one_job_world (sample_job JOB_STATUS_IN_PROGRESS) in
  (exists r,
     tryLeaseV1Build quiet 42 w
     = Ret r (set_log [Clock_Now; BB_Lease 42 1700001800000000] w)) /\
  (exists r w' evs,
     sendHeartbeats quiet sample_lib [0%nat] w = Ret r w' /\
     log w' = Clock_Now :: evs /\
     forall hbs hb,
       BB_HeartbeatBatch hbs ∈ evs -> hb ∈ hbs ->
       hb_LeaseExpirationTs hb = 1700003600000000).
Proof.
  intros w.
  destruct (lease_expiration_micros quiet sample_lib 42 [0%nat] w)
    as [Hlease (r & w' & evs & Hrun & Hlog & Hbeats & _)].
  - vm_compute. split; [discriminate | reflexivity].
  - apply valid_one_job.
  - split; [exact Hlease|]. exists r, w', evs.
    split; [exact Hrun|]. split; [exact Hlog | exact Hbeats].
Defined.
